(** * Geographic attribution engine of [data_extractor.py]

    A shallow embedding of the [DataExtractor] class: the section parser
    ([extract_articles_from_section]), the region splitter
    ([parse_geographic_sections]), the attribution scorer
    ([identify_country_from_context] with [_apply_special_location_rules])
    and the aggregator ([organize_by_countries]).

    Modelling conventions.
    - Python [str] values are [string]s over 8-bit characters; [lower],
      [strip], [\s], [\w] and [re.IGNORECASE] act on the ASCII range.
    - A Python [set] or [dict] is an association list in iteration order
      (insertion order for a [dict]); the order of a [set] is whatever order
      the [DataExtractor] value lists its elements in.
    - Scores are integer valued in the source (sums of the integer weights
      5, 8, 10, 15, 20, 25, 30, 40, 50 starting from [0.0]), so they are
      [Z]; a confidence [score / 50.0] is the rational [score / 50], kept in
      lowest terms, and the comparison with the literal [0.1] is the
      comparison with [1/10].
    - An operation that can raise ([max] of an empty dict, [d[k]]) returns
      in the error monad [M].
    - Printing and the pause between two articles ([sleep(self.rate_limit)],
      which raises on a negative [rate_limit]) are not modelled: what is
      said of the result of a run is said of the runs that return. *)

From Stdlib Require Import String Ascii List ZArith QArith Qminmax Bool Arith Lia.
Import ListNotations.

Open Scope string_scope.

(* ------------------------------------------------------------------ *)
(** ** Python string primitives *)

Module Str.

Definition code (c : ascii) : nat := nat_of_ascii c.

(** [c.isupper()] on the ASCII range. *)
Definition is_upper (c : ascii) : bool :=
  (65 <=? code c)%nat && (code c <=? 90)%nat.

Definition lower_char (c : ascii) : ascii :=
  if is_upper c then ascii_of_nat (code c + 32) else c.

(** [s.lower()] *)
Fixpoint lower (s : string) : string :=
  match s with
  | EmptyString => EmptyString
  | String c s' => String (lower_char c) (lower s')
  end.

(** [c.isspace()], which is also the class [\s]: TAB, LF, VT, FF, CR,
    FS, GS, RS, US and the space. *)
Definition isspace (c : ascii) : bool :=
  ((9 <=? code c)%nat && (code c <=? 13)%nat)
  || ((28 <=? code c)%nat && (code c <=? 32)%nat).

Fixpoint lstrip (s : string) : string :=
  match s with
  | EmptyString => EmptyString
  | String c s' => if isspace c then lstrip s' else s
  end.

Fixpoint rstrip (s : string) : string :=
  match s with
  | EmptyString => EmptyString
  | String c s' =>
      match rstrip s' with
      | EmptyString => if isspace c then EmptyString else String c EmptyString
      | r => String c r
      end
  end.

(** [s.strip()] *)
Definition strip (s : string) : string := rstrip (lstrip s).

(** [s.startswith(p)] *)
Definition startswith (s p : string) : bool := String.prefix p s.

(** [sub in s] *)
Fixpoint contains (sub s : string) : bool :=
  match s with
  | EmptyString => String.prefix sub EmptyString
  | String _ s' => String.prefix sub s || contains sub s'
  end.

(** [sep.join(l)] *)
Definition join (sep : string) (l : list string) : string :=
  String.concat sep l.

(** [s.replace(a, b)] for one-character [a] and [b]. *)
Fixpoint replace_char (a b : ascii) (s : string) : string :=
  match s with
  | EmptyString => EmptyString
  | String c s' =>
      String (if Ascii.eqb c a then b else c) (replace_char a b s')
  end.

(** [s[:n]] *)
Fixpoint take (n : nat) (s : string) : string :=
  match n, s with
  | S k, String c s' => String c (take k s')
  | _, _ => EmptyString
  end.

(** [x in l] for a list or set of strings. *)
Definition mem (x : string) (l : list string) : bool :=
  existsb (String.eqb x) l.

(** Python truthiness of a string. *)
Definition truthy (s : string) : bool :=
  match s with EmptyString => false | _ => true end.

End Str.

(* ------------------------------------------------------------------ *)
(** ** The regular expressions of the module, as scanners *)

Module Re.

(** The class [\w] on the ASCII range. *)
Definition is_word (c : ascii) : bool :=
  let n := Str.code c in
  ((48 <=? n)%nat && (n <=? 57)%nat)
  || ((65 <=? n)%nat && (n <=? 90)%nat)
  || ((97 <=? n)%nat && (n <=? 122)%nat)
  || (n =? 95)%nat.

Definition opt_word (c : option ascii) : bool :=
  match c with Some c => is_word c | None => false end.

Definition head (s : string) : option ascii :=
  match s with EmptyString => None | String c _ => Some c end.

(** [\b] between the character before the position and the one at it. *)
Definition boundary (prev next : option ascii) : bool :=
  xorb (opt_word prev) (opt_word next).

Fixpoint drop (n : nat) (s : string) : string :=
  match n, s with
  | S k, String _ s' => drop k s'
  | _, _ => s
  end.

Fixpoint last_char (prev : option ascii) (p : string) : option ascii :=
  match p with
  | EmptyString => prev
  | String c p' => last_char (Some c) p'
  end.

(** One attempt of [\b p \b] at the current position; [prev] is the
    character just before it. *)
Definition word_match_at (prev : option ascii) (p s : string) : bool :=
  boundary prev (head s)
  && String.prefix p s
  && boundary (last_char prev p) (head (drop (String.length p) s)).

(** [len(re.findall(rf'\b{re.escape(p)}\b', s))]: leftmost matches, not
    overlapping; [skip] characters are still covered by the last match. *)
Fixpoint count_word_from (p : string) (prev : option ascii) (s : string)
         (skip : nat) {struct s} : nat :=
  match skip with
  | S k =>
      match s with
      | EmptyString => 0
      | String c s' => count_word_from p (Some c) s' k
      end
  | O =>
      if word_match_at prev p s then
        S (match s with
           | EmptyString => 0
           | String c s' => count_word_from p (Some c) s' (pred (String.length p))
           end)
      else
        match s with
        | EmptyString => 0
        | String c s' => count_word_from p (Some c) s' 0
        end
  end.

Definition count_word (p s : string) : nat := count_word_from p None s 0.

(** The longest prefix of characters satisfying [f], and the rest. *)
Fixpoint span (f : ascii -> bool) (s : string) : string * string :=
  match s with
  | EmptyString => (EmptyString, EmptyString)
  | String c s' =>
      if f c then let (a, b) := span f s' in (String c a, b)
      else (EmptyString, s)
  end.

Definition not_pipe_or_close (c : ascii) : bool :=
  negb (Ascii.eqb c "|" || Ascii.eqb c "]").

Definition not_close (c : ascii) : bool := negb (Ascii.eqb c "]").

(** One attempt of [\[\[([^|\]]+)(?:\|[^\]]+)?\]\]] at the head of [s]:
    group 1 and the number of characters matched.  Both character runs
    are greedy and a shorter run is always followed by a character of the
    run's own class, which neither [\|] nor [\]] accepts, so the longest
    runs decide. *)
Definition match_wikilink (s : string) : option (string * nat) :=
  match s with
  | String "[" (String "[" s1) =>
      let (target, s2) := span not_pipe_or_close s1 in
      match target with
      | EmptyString => None
      | _ =>
          match s2 with
          | String "]" (String "]" _) => Some (target, 4 + String.length target)%nat
          | String "|" s3 =>
              let (display, s4) := span not_close s3 in
              match display, s4 with
              | String _ _, String "]" (String "]" _) =>
                  Some (target, 5 + String.length target + String.length display)%nat
              | _, _ => None
              end
          | _ => None
          end
      end
  | _ => None
  end.

(** [re.findall(article_pattern, s)] *)
Fixpoint findall_wikilinks_from (s : string) (skip : nat) : list string :=
  match s with
  | EmptyString => []
  | String _ s' =>
      match skip with
      | S k => findall_wikilinks_from s' k
      | O =>
          match match_wikilink s with
          | Some (target, n) => target :: findall_wikilinks_from s' (pred n)
          | None => findall_wikilinks_from s' 0
          end
      end
  end.

Definition findall_wikilinks (s : string) : list string :=
  findall_wikilinks_from s 0.

(** A literal prefix under [re.IGNORECASE]; the rest of the text. *)
Fixpoint match_literal_ci (p s : string) : option string :=
  match p with
  | EmptyString => Some s
  | String a p' =>
      match s with
      | String c s' =>
          if Ascii.eqb (Str.lower_char a) (Str.lower_char c)
          then match_literal_ci p' s' else None
      | EmptyString => None
      end
  end.

(** [\s*] followed by the rest [k] of a pattern: greedy, giving back one
    character at a time when [k] fails. *)
Fixpoint ws_star {A : Type} (k : string -> option A) (s : string) : option A :=
  match s with
  | String c s' =>
      if Str.isspace c then
        match ws_star k s' with
        | Some r => Some r
        | None => k s
        end
      else k s
  | EmptyString => k s
  end.

(** [(.*?)(?====|\Z)] under [re.DOTALL]: the shortest text up to the next
    [===] or the end. *)
Fixpoint lazy_until_header (s : string) : string :=
  if String.prefix "===" s then EmptyString
  else match s with
       | EmptyString => EmptyString
       | String c s' => String c (lazy_until_header s')
       end.

(** One attempt of [===\s*REGION\s*===(.*?)(?====|\Z)] at the head of
    [s]: group 1. *)
Definition match_section (region s : string) : option string :=
  match match_literal_ci "===" s with
  | Some s1 =>
      ws_star (fun s2 =>
        match match_literal_ci region s2 with
        | Some s3 =>
            ws_star (fun s4 =>
              match match_literal_ci "===" s4 with
              | Some s5 => Some (lazy_until_header s5)
              | None => None
              end) s3
        | None => None
        end) s1
  | None => None
  end.

(** [re.search(pattern, s, re.DOTALL | re.IGNORECASE)], group 1 of the
    leftmost match. *)
Fixpoint search_section (region s : string) : option string :=
  match match_section region s with
  | Some g => Some g
  | None =>
      match s with
      | EmptyString => None
      | String _ s' => search_section region s'
      end
  end.

(** [re.match(r'^(Category|Template|Help|Wikipedia):', s, re.IGNORECASE)] *)
Definition match_meta_namespace (s : string) : bool :=
  existsb (fun p => match match_literal_ci p s with Some _ => true | None => false end)
          ["Category:"; "Template:"; "Help:"; "Wikipedia:"].

End Re.

(* ------------------------------------------------------------------ *)
(** ** Exceptions *)

Inductive exn : Type :=
| KeyError (key : string)
| ValueError.

(** A computation that returns a value or raises. *)
Definition M (A : Type) : Type := (exn + A)%type.

Definition ret {A : Type} (a : A) : M A := inr a.
Definition raise {A : Type} (e : exn) : M A := inl e.
Definition bind {A B : Type} (m : M A) (k : A -> M B) : M B :=
  match m with
  | inl e => inl e
  | inr a => k a
  end.

Notation "x <- m ;; k" := (bind m (fun x => k))
  (at level 61, m at next level, right associativity).

Definition raises {A : Type} (m : M A) : Prop := exists e, m = inl e.
Definition returns {A : Type} (m : M A) (a : A) : Prop := m = inr a.

(* ------------------------------------------------------------------ *)
(** ** Python dicts with string keys, in insertion order *)

Module Dict.

Definition t (V : Type) : Type := list (string * V).

Definition empty {V : Type} : t V := [].

(** [d.get(k)] *)
Fixpoint get {V : Type} (d : t V) (k : string) : option V :=
  match d with
  | [] => None
  | (k', v) :: d' => if String.eqb k k' then Some v else get d' k
  end.

(** [d.get(k, default)] *)
Definition get_default {V : Type} (d : t V) (k : string) (default : V) : V :=
  match get d k with Some v => v | None => default end.

(** [d[k]] *)
Definition index {V : Type} (d : t V) (k : string) : M V :=
  match get d k with Some v => ret v | None => raise (KeyError k) end.

(** [d[k] = v]: a present key keeps its place, a new one goes last. *)
Fixpoint set {V : Type} (d : t V) (k : string) (v : V) : t V :=
  match d with
  | [] => [(k, v)]
  | (k', v') :: d' =>
      if String.eqb k k' then (k', v) :: d' else (k', v') :: set d' k v
  end.

(** [k in d] *)
Definition mem {V : Type} (d : t V) (k : string) : bool :=
  match get d k with Some _ => true | None => false end.

Definition keys {V : Type} (d : t V) : list string := map fst d.

(** Python truthiness of a dict. *)
Definition truthy {V : Type} (d : t V) : bool :=
  match d with [] => false | _ => true end.

(** The scan of [max]: a later key replaces the best one only when its
    value is strictly greater. *)
Fixpoint max_scan (best : string * Z) (d : t Z) : string :=
  match d with
  | [] => fst best
  | (k, v) :: d' =>
      if (snd best <? v)%Z then max_scan (k, v) d' else max_scan best d'
  end.

(** [max(d, key=d.get)] *)
Definition max_key (d : t Z) : M string :=
  match d with
  | [] => raise ValueError
  | kv :: d' => ret (max_scan kv d')
  end.

End Dict.

(* ------------------------------------------------------------------ *)
(** ** The extractor object *)

(** The attributes of [self] that the engine reads. *)
Record DataExtractor : Type := {
  regions : list string;
  region_countries : Dict.t (list string);
  country_synonyms : Dict.t string;
  skip_prefixes : list string
}.

(** U+00E3, U+00E9 and U+00ED in UTF-8. *)
Definition a_tilde : string := String "195" (String "163" EmptyString).
Definition e_acute : string := String "195" (String "169" EmptyString).
Definition i_acute : string := String "195" (String "173" EmptyString).

(** [DataExtractor.__init__] *)
Definition init : DataExtractor := {|
  regions :=
    ["Africa"; "Antarctica"; "Asia"; "Europe";
     "Latin America and the Caribbean"; "North America"; "Oceania"];
  region_countries :=
    [("Africa",
      ["South Africa"; "Egypt"; "Nigeria"; "Kenya"; "Morocco"; "Ghana";
       "Ethiopia"; "Tanzania"; "Algeria"; "Libya"; "Tunisia"; "Sudan";
       "Zimbabwe"; "Botswana"; "Namibia"; "Zambia"; "Senegal"; "Mali";
       "Burkina Faso"; "Niger"; "Chad"; "Cameroon"; "Uganda"; "Rwanda";
       "Democratic Republic of the Congo"; "Republic of the Congo";
       "Central African Republic"; "Gabon"; "Equatorial Guinea";
       "S" ++ a_tilde ++ "o Tom" ++ e_acute ++ " and Pr" ++ i_acute ++ "ncipe";
       "Angola"; "Mozambique"; "Madagascar";
       "Mauritius"; "Seychelles"; "Comoros"; "Djibouti"; "Eritrea";
       "Somalia"; "Ivory Coast"; "Liberia"; "Sierra Leone"; "Guinea";
       "Guinea-Bissau"; "Gambia"; "Cape Verde"; "Benin"; "Togo";
       "Malawi"; "Lesotho"; "Eswatini"; "Burundi"]);
     ("Antarctica", ["Antarctica"]);
     ("Asia",
      ["China"; "Japan"; "India"; "South Korea"; "North Korea"; "Thailand";
       "Indonesia"; "Philippines"; "Vietnam"; "Malaysia"; "Singapore";
       "Myanmar"; "Cambodia"; "Laos"; "Brunei"; "East Timor"; "Mongolia";
       "Taiwan"; "Hong Kong"; "Macau"; "Afghanistan"; "Pakistan";
       "Bangladesh"; "Sri Lanka"; "Maldives"; "Nepal"; "Bhutan";
       "Kazakhstan"; "Uzbekistan"; "Turkmenistan"; "Tajikistan";
       "Kyrgyzstan"; "Iran"; "Iraq"; "Syria"; "Lebanon"; "Jordan";
       "Israel"; "Palestine"; "Saudi Arabia"; "Yemen"; "Oman";
       "United Arab Emirates"; "Qatar"; "Bahrain"; "Kuwait"; "Turkey";
       "Cyprus"; "Georgia"; "Armenia"; "Azerbaijan"; "Russia"]);
     ("Europe",
      ["United Kingdom"; "Germany"; "France"; "Italy"; "Spain"; "Netherlands";
       "Norway"; "Sweden"; "Denmark"; "Finland"; "Iceland"; "Ireland";
       "Belgium"; "Luxembourg"; "Switzerland"; "Austria"; "Portugal";
       "Poland"; "Czech Republic"; "Slovakia"; "Hungary"; "Slovenia";
       "Croatia"; "Bosnia and Herzegovina"; "Serbia"; "Montenegro";
       "North Macedonia"; "Albania"; "Kosovo"; "Bulgaria"; "Romania";
       "Moldova"; "Ukraine"; "Belarus"; "Lithuania"; "Latvia"; "Estonia";
       "Greece"; "Malta"; "San Marino"; "Vatican City"; "Monaco";
       "Andorra"; "Liechtenstein"]);
     ("Latin America and the Caribbean",
      ["Brazil"; "Mexico"; "Argentina"; "Colombia"; "Peru"; "Chile";
       "Venezuela"; "Ecuador"; "Bolivia"; "Paraguay"; "Uruguay";
       "Guyana"; "Suriname"; "French Guiana"; "Jamaica"; "Cuba";
       "Dominican Republic"; "Haiti"; "Trinidad and Tobago"; "Barbados";
       "Bahamas"; "Belize"; "Costa Rica"; "Panama"; "Nicaragua";
       "Honduras"; "El Salvador"; "Guatemala"; "Puerto Rico";
       "Saint Lucia"; "Saint Vincent and the Grenadines"; "Grenada";
       "Antigua and Barbuda"; "Saint Kitts and Nevis"; "Dominica"]);
     ("North America", ["United States"; "Canada"; "Greenland"]);
     ("Oceania",
      ["Australia"; "New Zealand"; "Fiji"; "Papua New Guinea"; "Samoa";
       "Tonga"; "Vanuatu"; "Solomon Islands"; "Palau"; "Marshall Islands";
       "Micronesia"; "Kiribati"; "Tuvalu"; "Nauru"; "Cook Islands"])];
  country_synonyms :=
    [("USA", "United States");
     ("US", "United States");
     ("America", "United States");
     ("UK", "United Kingdom");
     ("Britain", "United Kingdom");
     ("England", "United Kingdom");
     ("Scotland", "United Kingdom");
     ("Wales", "United Kingdom");
     ("Northern Ireland", "United Kingdom");
     ("PRC", "China");
     ("People's Republic of China", "China");
     ("ROC", "Taiwan");
     ("Republic of China", "Taiwan");
     ("South Korea", "South Korea");
     ("Republic of Korea", "South Korea");
     ("North Korea", "North Korea");
     ("DPRK", "North Korea");
     ("UAE", "United Arab Emirates");
     ("Czech Republic", "Czech Republic");
     ("Czechia", "Czech Republic");
     ("DRC", "Democratic Republic of the Congo");
     ("Congo-Kinshasa", "Democratic Republic of the Congo");
     ("Congo-Brazzaville", "Republic of the Congo")];
  skip_prefixes :=
    ["file:"; "image:"; "category:"; "wp:"; "wikipedia:";
     "template:"; ":category:"; "commons:"]
|}.

(* ------------------------------------------------------------------ *)
(** ** Section parser and region splitter *)

(** The first loop of [extract_articles_from_section]: strip each match
    and keep it when it is non-empty, starts with no skip prefix and is no
    meta-namespace reference. *)
Definition filter_articles (self : DataExtractor) (matches : list string)
  : list string :=
  fold_left
    (fun articles m =>
       let article := Str.strip m in
       if Str.truthy article
          && negb (existsb (fun prefix => Str.startswith (Str.lower article) prefix)
                           (skip_prefixes self))
       then
         if negb (Re.match_meta_namespace article)
         then (articles ++ [article])%list
         else articles
       else articles)
    matches [].

(** The second loop: remove duplicates, first occurrences kept in order. *)
Definition unique_in_order (articles : list string) : list string :=
  snd (fold_left
         (fun '(seen, unique_articles) article =>
            if negb (Str.mem article seen)
            then (article :: seen, (unique_articles ++ [article])%list)
            else (seen, unique_articles))
         articles ([], [])).

Definition extract_articles_from_section (self : DataExtractor)
           (section_content region_name : string) : list string :=
  let matches := Re.findall_wikilinks section_content in
  let articles := filter_articles self matches in
  unique_in_order articles.

Definition parse_geographic_sections (self : DataExtractor) (content : string)
  : Dict.t (list string) :=
  if negb (Str.truthy content) then Dict.empty
  else
    fold_left
      (fun geographic_articles region =>
         match Re.search_section region content with
         | Some section_content =>
             let articles :=
               extract_articles_from_section self section_content region in
             match articles with
             | _ :: _ => Dict.set geographic_articles region articles
             | [] => geographic_articles
             end
         | None => geographic_articles
         end)
      (regions self) Dict.empty.

Definition LF : string := String "010" EmptyString.

Definition scenario_A : string :=
  "=== Asia ===" ++ LF ++
  "[[Fictitious Temple]] [[File:pic.jpg]] [[Fictitious Temple]]" ++ LF ++
  "=== Europe ===".

(* ------------------------------------------------------------------ *)
(** ** Attribution scorer *)

(** Scores are integer valued. *)
Abbreviation score_t := Z (only parsing).

(** [min(score / 50.0, 1.0)] *)
Definition confidence_of (score : score_t) : Q :=
  Qred (Qmin (inject_Z score / 50) 1).

(** [any(term in full_text for term in terms)] *)
Definition any_in (terms : list string) (full_text : string) : bool :=
  existsb (fun term => Str.contains term full_text) terms.

(** [country_scores[k] = country_scores.get(k, 0) + w] *)
Definition bump (country_scores : Dict.t score_t) (k : string) (w : Z)
  : Dict.t score_t :=
  Dict.set country_scores k (Dict.get_default country_scores k 0 + w)%Z.

(** The dict is changed in place by the source; here the changed dict is
    the result. *)
Definition _apply_special_location_rules (self : DataExtractor)
           (full_text : string) (categories : list string)
           (country_scores : Dict.t score_t) (region : string)
  : Dict.t score_t :=
  (* Hong Kong and Macau *)
  let country_scores :=
    if Str.contains "hong kong" full_text
    then bump country_scores "Hong Kong" 50 else country_scores in
  let country_scores :=
    if Str.contains "macau" full_text || Str.contains "macao" full_text
    then bump country_scores "Macau" 50 else country_scores in
  (* Taiwan vs China *)
  let country_scores :=
    if Str.contains "taiwan" full_text || Str.contains "republic of china" full_text
    then bump country_scores "Taiwan" 40
    else if Str.contains "mainland china" full_text
            || Str.contains "people's republic" full_text
    then bump country_scores "China" 40
    else country_scores in
  (* UK constituent countries *)
  let country_scores :=
    if any_in ["england"; "english"; "london"] full_text
    then bump country_scores "United Kingdom" 30 else country_scores in
  let country_scores :=
    if any_in ["scotland"; "scottish"; "edinburgh"] full_text
    then bump country_scores "United Kingdom" 30 else country_scores in
  let country_scores :=
    if any_in ["wales"; "welsh"; "cardiff"] full_text
    then bump country_scores "United Kingdom" 30 else country_scores in
  let country_scores :=
    if Str.contains "northern ireland" full_text
    then bump country_scores "United Kingdom" 30 else country_scores in
  (* US vs other North American countries *)
  if String.eqb region "North America" then
    if any_in ["united states"; " usa "; " us "; "american"] full_text
    then bump country_scores "United States" 25
    else if any_in ["canada"; "canadian"] full_text
    then bump country_scores "Canada" 25
    else country_scores
  else country_scores.

(** The body of the loop over the categories, for one category. *)
Definition category_step (country_lower : string) (score : score_t)
           (category : string) : score_t :=
  let cat_lower := Str.lower category in
  if Str.contains country_lower cat_lower then
    let score := (score + 20)%Z in
    if any_in ["in " ++ country_lower; country_lower ++ " "; "of " ++ country_lower]
              cat_lower
    then (score + 30)%Z else score
  else score.

(** The body of the loop over the region's countries: the score of one
    country before the synonym and special-rule passes. *)
Definition country_score (article_title article_extract : string)
           (categories : list string) (full_text country : string) : score_t :=
  let score := 0%Z in
  let country_lower := Str.lower country in
  (* Direct country name mentions *)
  let country_mentions := Re.count_word country_lower full_text in
  let score := (score + Z.of_nat country_mentions * 10)%Z in
  (* Category-based scoring *)
  let score := fold_left (category_step country_lower) categories score in
  (* Title-based scoring *)
  let score :=
    if Str.contains country_lower (Str.lower article_title)
    then (score + 15)%Z else score in
  (* Extract-based scoring *)
  let score :=
    if Str.contains country_lower (Str.lower article_extract)
    then (score + 5)%Z else score in
  score.

(** [f"{article_title} {article_extract} {' '.join(categories)}".lower()] *)
Definition full_text_of (article_title article_extract : string)
           (categories : list string) : string :=
  Str.lower (article_title ++ " " ++ article_extract ++ " "
             ++ Str.join " " categories).

(** The loop over the region's countries. *)
Definition score_countries (article_title article_extract : string)
           (categories : list string) (full_text : string)
           (region_countries : list string) : Dict.t score_t :=
  fold_left
    (fun country_scores country =>
       let score :=
         country_score article_title article_extract categories full_text country in
       if (0 <? score)%Z then Dict.set country_scores country score
       else country_scores)
    region_countries Dict.empty.

(** The loop over the synonyms. *)
Definition score_synonyms (self : DataExtractor) (full_text : string)
           (region_countries : list string) (country_scores : Dict.t score_t)
  : Dict.t score_t :=
  fold_left
    (fun country_scores '(synonym, canonical) =>
       if Str.mem canonical region_countries then
         let synonym_lower := Str.lower synonym in
         if Str.contains synonym_lower full_text
         then bump country_scores canonical 8
         else country_scores
       else country_scores)
    (country_synonyms self) country_scores.

(** The dict of scores at the end of the three passes. *)
Definition final_scores (self : DataExtractor)
           (article_title article_extract : string)
           (categories : list string) (region : string) : Dict.t score_t :=
  let full_text := full_text_of article_title article_extract categories in
  let region_countries := Dict.get_default (region_countries self) region [] in
  let country_scores :=
    score_countries article_title article_extract categories full_text
                    region_countries in
  let country_scores :=
    score_synonyms self full_text region_countries country_scores in
  _apply_special_location_rules self full_text categories country_scores region.

Definition identify_country_from_context (self : DataExtractor)
           (article_title article_extract : string)
           (categories : list string) (region : string)
  : M (option string * Q) :=
  let country_scores :=
    final_scores self article_title article_extract categories region in
  if negb (Dict.truthy country_scores) then ret (None, 0%Q)
  else
    best_country <- Dict.max_key country_scores ;;
    best_score <- Dict.index country_scores best_country ;;
    ret (Some best_country, confidence_of best_score).

(* ------------------------------------------------------------------ *)
(** ** Enrichment and aggregation *)

(** The fields of the page summary that [get_enhanced_article_info] reads
    with [data.get]. *)
Record summary_data : Type := {
  data_title : option string;
  data_description : option string;
  data_extract : option string;
  data_page_url : option string;
  data_thumbnail_source : option string
}.

(** What [self.session.get(summary_url)] answers: a status code, and the
    body that [response.json()] decodes or fails to decode. *)
Record response : Type := {
  status_code : Z;
  json : M summary_data
}.

Record article_info : Type := {
  id : string;
  title : string;
  description : string;
  extract : string;
  url : string;
  thumbnail : option string;
  source_region : string;
  identified_country : option string;
  country_confidence : Q;
  categories : list string;
  has_geographic_categories : bool;
  category_count : nat
}.

(** Rounding to the nearest integer, halves to the even one. *)
Definition round_half_even (q : Q) : Z :=
  let n := Qnum q in
  let d := Zpos (Qden q) in
  let f := (n / d)%Z in
  match (2 * (n mod d) ?= d)%Z with
  | Lt => f
  | Gt => (f + 1)%Z
  | Eq => if Z.even f then f else (f + 1)%Z
  end.

(** [round(x, 2)] *)
Definition round2 (x : Q) : Q := Qred (round_half_even (x * 100) # 100).

(** Python truthiness of an [Optional[str]]. *)
Definition truthy_opt (o : option string) : bool :=
  match o with Some s => Str.truthy s | None => false end.

Definition or_default (o : option string) (default : string) : string :=
  match o with Some s => s | None => default end.

Definition _create_fallback_enhanced_info (article_title region : string)
  : article_info :=
  let clean_title := Str.replace_char " " "_" article_title in
  {| id := Str.replace_char " " "_" (Str.lower article_title);
     title := article_title;
     description := "Unusual Wikipedia article";
     extract := "";
     url := "https://en.wikipedia.org/wiki/" ++ clean_title;
     thumbnail := None;
     source_region := region;
     identified_country := None;
     country_confidence := 0;
     categories := [];
     has_geographic_categories := false;
     category_count := 0 |}.

(** [for x in l: st = body st x], where the body can raise. *)
Fixpoint for_each {A S : Type} (body : S -> A -> M S) (l : list A) (st : S)
  : M S :=
  match l with
  | [] => ret st
  | x :: l' => st' <- body st x ;; for_each body l' st'
  end.

Section Aggregator.

Variable self : DataExtractor.

(** The network collaborators: the page-summary request, which can
    raise, and [get_article_categories], which catches what it raises. *)
Variable session_get_summary : string -> M response.
Variable get_article_categories : string -> list string.

(** The body of the [try] block. *)
Definition enhanced_info_try (article_title region : string)
  : M article_info :=
  let clean_title := Str.replace_char " " "_" article_title in
  response <- session_get_summary clean_title ;;
  let default_url := "https://en.wikipedia.org/wiki/" ++ clean_title in
  basic_info <-
    (if (status_code response =? 200)%Z then
       data <- json response ;;
       ret (or_default (data_title data) article_title,
            or_default (data_description data) "",
            or_default (data_extract data) "",
            or_default (data_page_url data) default_url,
            data_thumbnail_source data)
     else
       ret (article_title, "Unusual Wikipedia article", "", default_url, None)) ;;
  let '(b_title, b_description, b_extract, b_url, b_thumbnail) := basic_info in
  let categories := get_article_categories article_title in
  r <- identify_country_from_context self article_title b_extract categories region ;;
  let '(country, confidence) := r in
  ret {| id := Str.replace_char " " "_" (Str.lower article_title);
         title := b_title;
         description := b_description;
         extract :=
           (if (300 <? String.length b_extract)%nat
            then Str.take 300 b_extract ++ "..." else b_extract);
         url := b_url;
         thumbnail := b_thumbnail;
         source_region := region;
         identified_country := country;
         country_confidence := round2 confidence;
         categories := firstn 10 categories;
         has_geographic_categories :=
           existsb (fun cat => Str.contains "geography" (Str.lower cat)
                               || Str.contains "location" (Str.lower cat))
                   categories;
         category_count := List.length categories |}.

Definition get_enhanced_article_info (article_title region : string)
  : article_info :=
  match enhanced_info_try article_title region with
  | inr enhanced_info => enhanced_info
  | inl _ => _create_fallback_enhanced_info article_title region
  end.

(** [country_confidence > 0.1] *)
Definition above_threshold (confidence : Q) : bool :=
  negb (Qle_bool confidence (1 # 10)).

Definition buckets : Type := (Dict.t (list article_info) * list article_info)%type.

(** The body of the inner loop, from the enriched record on: the pair is
    [country_articles] and [unidentified_articles]. *)
Definition route (st : buckets) (info : article_info) : M buckets :=
  let '(country_articles, unidentified_articles) := st in
  match identified_country info with
  | Some c =>
      if Str.truthy c && above_threshold (country_confidence info) then
        let country_articles :=
          if negb (Dict.mem country_articles c)
          then Dict.set country_articles c []
          else country_articles in
        bucket <- Dict.index country_articles c ;;
        ret (Dict.set country_articles c (bucket ++ [info])%list,
             unidentified_articles)
      else ret (country_articles, (unidentified_articles ++ [info])%list)
  | None => ret (country_articles, (unidentified_articles ++ [info])%list)
  end.

Definition organize_article (region : string) (st : buckets)
           (article_title : string) : M buckets :=
  route st (get_enhanced_article_info article_title region).

Definition organize_region (st : buckets)
           (entry : string * list string) : M buckets :=
  let '(region, articles) := entry in
  for_each (organize_article region) articles st.

Definition organize_by_countries (regional_articles : Dict.t (list string))
  : M (Dict.t (list article_info)) :=
  st <- for_each organize_region regional_articles (Dict.empty, []) ;;
  let '(country_articles, unidentified_articles) := st in
  match unidentified_articles with
  | _ :: _ => ret (Dict.set country_articles "Unidentified" unidentified_articles)
  | [] => ret country_articles
  end.

End Aggregator.

(* ------------------------------------------------------------------ *)
(** ** Definitions used by the statements *)

(** *** The score dict *)

(** Every stored score is at least 5, the smallest weight. *)
Definition scores_ge5 (d : Dict.t score_t) : Prop :=
  Forall (fun kv => (5 <= snd kv)%Z) d.

(** Every key satisfies [K]. *)
Definition keys_in (K : string -> Prop) (d : Dict.t score_t) : Prop :=
  Forall (fun kv => K (fst kv)) d.

(** The countries that the special rules name. *)
Definition special_targets : list string :=
  ["Hong Kong"; "Macau"; "Taiwan"; "China"; "United Kingdom";
   "United States"; "Canada"].

(** The candidate set of a region: [self.region_countries.get(region, set())]. *)
Definition candidates (self : DataExtractor) (region : string) : list string :=
  Dict.get_default (region_countries self) region [].

(** The score that a country has accumulated at the end of the passes:
    [country_scores.get(country, 0)]. *)
Definition accumulated_score (self : DataExtractor)
           (title ext : string) (categories : list string)
           (region country : string) : score_t :=
  Dict.get_default (final_scores self title ext categories region) country 0%Z.

(** *** Patterns and trailing spaces *)



(** *** Inputs without signals, regions outside the gazetteer *)

(** Every term that a special rule looks for. *)
Definition special_terms : list string :=
  ["hong kong"; "macau"; "macao"; "taiwan"; "republic of china";
   "mainland china"; "people's republic";
   "england"; "english"; "london"; "scotland"; "scottish"; "edinburgh";
   "wales"; "welsh"; "cardiff"; "northern ireland";
   "united states"; " usa "; " us "; "american"; "canada"; "canadian"].


(** No synonym of a candidate of the region occurs in the analysis text. *)
Definition synonyms_absent (self : DataExtractor) (region full_text : string)
  : bool :=
  forallb (fun '(synonym, canonical) =>
             negb (Str.mem canonical (candidates self region)
                   && Str.contains (Str.lower synonym) full_text))
          (country_synonyms self).

(** All the names that the gazetteer registers. *)
Definition all_names (self : DataExtractor) : list string :=
  concat (map snd (region_countries self)).

(** The claim as the specification states it: a region that the gazetteer
    does not register makes the scorer raise. *)
Definition unknown_region_raises (self : DataExtractor) : Prop :=
  forall title ext categories region,
    Dict.get (region_countries self) region = None ->
    raises (identify_country_from_context self title ext categories region).


(** *** Buckets *)

(** The bucket that the specification assigns to a record: the winning
    country when there is one and the confidence is above 0.1, strictly,
    and "Unidentified" otherwise. *)
Definition spec_bucket (info : article_info) : string :=
  match identified_country info with
  | Some c =>
      if Qlt_le_dec (1 # 10) (country_confidence info) then c
      else "Unidentified"
  | None => "Unidentified"
  end.

(** The test of the aggregator's [if], for the bucket [k]. *)
Definition routed_to (k : string) (info : article_info) : bool :=
  match identified_country info with
  | Some c =>
      Str.truthy c && above_threshold (country_confidence info) && String.eqb k c
  | None => false
  end.

Definition routed (info : article_info) : bool :=
  match identified_country info with
  | Some c => Str.truthy c && above_threshold (country_confidence info)
  | None => false
  end.

(** The country of the record, if any, is neither the empty string nor the
    name of the catch-all bucket. *)
Definition well_named (info : article_info) : Prop :=
  identified_country info <> Some "" /\
  identified_country info <> Some "Unidentified".

(** The records of a run, in arrival order: regions in the order of the
    mapping, titles in the order of each list. *)
Definition enriched (self : DataExtractor)
           (session_get_summary : string -> M response)
           (get_article_categories : string -> list string)
           (regional_articles : Dict.t (list string)) : list article_info :=
  flat_map
    (fun '(region, articles) =>
       map (fun article_title =>
              get_enhanced_article_info self session_get_summary
                                        get_article_categories
                                        article_title region)
           articles)
    regional_articles.

(** The gazetteer registers neither the empty name nor "Unidentified". *)
Definition names_ok (self : DataExtractor) : bool :=
  forallb (fun c => Str.truthy c && negb (String.eqb c "Unidentified"))
          (all_names self).

(** *** The accumulated score as a sum, and kept signals *)

(** [w] when the test holds, else 0. *)
Definition points (b : bool) (w : Z) : Z := if b then w else 0%Z.

(** The category loop started from 0. *)
Definition category_points (country_lower : string) (categories : list string) : Z :=
  fold_left (category_step country_lower) categories 0%Z.

Definition taiwan_branch (full_text : string) : bool :=
  Str.contains "taiwan" full_text || Str.contains "republic of china" full_text.

Definition china_branch (full_text : string) : bool :=
  Str.contains "mainland china" full_text
  || Str.contains "people's republic" full_text.

Definition us_branch (full_text : string) : bool :=
  any_in ["united states"; " usa "; " us "; "american"] full_text.

Definition canada_branch (full_text : string) : bool :=
  any_in ["canada"; "canadian"] full_text.

(** What the special rules add to the score of [c]. *)
Definition special_points (full_text region c : string) : Z :=
  (points (Str.contains "hong kong" full_text && String.eqb c "Hong Kong") 50
   + points ((Str.contains "macau" full_text || Str.contains "macao" full_text)
             && String.eqb c "Macau") 50
   + (if taiwan_branch full_text then points (String.eqb c "Taiwan") 40
      else points (china_branch full_text && String.eqb c "China") 40)
   + points (any_in ["england"; "english"; "london"] full_text
             && String.eqb c "United Kingdom") 30
   + points (any_in ["scotland"; "scottish"; "edinburgh"] full_text
             && String.eqb c "United Kingdom") 30
   + points (any_in ["wales"; "welsh"; "cardiff"] full_text
             && String.eqb c "United Kingdom") 30
   + points (Str.contains "northern ireland" full_text
             && String.eqb c "United Kingdom") 30
   + (if String.eqb region "North America" then
        if us_branch full_text then points (String.eqb c "United States") 25
        else points (canada_branch full_text && String.eqb c "Canada") 25
      else 0))%Z.

(** What the synonym pass adds to the score of [c]. *)
Fixpoint synonym_points (synonyms : Dict.t string) (cands : list string)
         (full_text c : string) : Z :=
  match synonyms with
  | [] => 0%Z
  | (synonym, canonical) :: rest =>
      (points (Str.mem canonical cands
               && Str.contains (Str.lower synonym) full_text
               && String.eqb c canonical) 8
       + synonym_points rest cands full_text c)%Z
  end.

(** The terms that the special rules look for on behalf of [c]. *)
Definition special_terms_of (c : string) : list string :=
  ((if String.eqb c "Hong Kong" then ["hong kong"] else [])
   ++ (if String.eqb c "Macau" then ["macau"; "macao"] else [])
   ++ (if String.eqb c "Taiwan" then ["taiwan"; "republic of china"] else [])
   ++ (if String.eqb c "China" then ["mainland china"; "people's republic"] else [])
   ++ (if String.eqb c "United Kingdom"
       then ["england"; "english"; "london"; "scotland"; "scottish"; "edinburgh";
             "wales"; "welsh"; "cardiff"; "northern ireland"]
       else [])
   ++ (if String.eqb c "United States"
       then ["united states"; " usa "; " us "; "american"] else [])
   ++ (if String.eqb c "Canada" then ["canada"; "canadian"] else []))%list.

(** The synonyms of [c], lower-cased as the synonym pass looks for them. *)
Definition synonym_terms (self : DataExtractor) (c : string) : list string :=
  map (fun entry => Str.lower (fst entry))
      (filter (fun entry => String.eqb c (snd entry)) (country_synonyms self)).

(** The second input keeps every signal that the first has for [c]: at
    least as many whole-word mentions, at least as many category points,
    the name still in the title and in the extract, and every synonym and
    special-rule term of [c] still in the analysis text. *)
Definition keeps_signals (self : DataExtractor) (c : string)
           (title1 ext1 : string) (categories1 : list string)
           (title2 ext2 : string) (categories2 : list string) : bool :=
  let lc := Str.lower c in
  let ft1 := full_text_of title1 ext1 categories1 in
  let ft2 := full_text_of title2 ext2 categories2 in
  (Re.count_word lc ft1 <=? Re.count_word lc ft2)%nat
  && (category_points lc categories1 <=? category_points lc categories2)%Z
  && implb (Str.contains lc (Str.lower title1)) (Str.contains lc (Str.lower title2))
  && implb (Str.contains lc (Str.lower ext1)) (Str.contains lc (Str.lower ext2))
  && forallb (fun term => implb (Str.contains term ft1) (Str.contains term ft2))
             (synonym_terms self c ++ special_terms_of c).

(** The claim as the specification states it. *)
Definition score_is_monotone (self : DataExtractor) : Prop :=
  forall region c title1 ext1 categories1 title2 ext2 categories2,
    keeps_signals self c title1 ext1 categories1 title2 ext2 categories2 = true ->
    (accumulated_score self title1 ext1 categories1 region c
     <= accumulated_score self title2 ext2 categories2 region c)%Z.

(** The added text does not newly take the first branch of a rule whose
    second branch serves [c]: the Taiwan test for China, and in North
    America the United States test for Canada. *)
Definition no_new_exclusion (region c full_text1 full_text2 : string) : bool :=
  implb (String.eqb c "China")
        (implb (taiwan_branch full_text2) (taiwan_branch full_text1))
  && implb (String.eqb c "Canada" && String.eqb region "North America")
           (implb (us_branch full_text2) (us_branch full_text1)).

(** *** A concrete enrichment collaborator *)

(** A page summary with the given extract, and an enrichment collaborator
    that answers every request with it and knows no category. *)
Definition summary_with (ext : string) : summary_data :=
  {| data_title := None; data_description := None; data_extract := Some ext;
     data_page_url := None; data_thumbnail_source := None |}.

Definition always_answers (ext : string) (clean_title : string) : M response :=
  ret {| status_code := 200; json := ret (summary_with ext) |}.

Definition no_categories (article_title : string) : list string := [].

(** *** Parser and splitter *)

(** The test of the first loop of the parser on a stripped match. *)
Definition accepted (self : DataExtractor) (article : string) : bool :=
  Str.truthy article
  && negb (existsb (fun prefix => Str.startswith (Str.lower article) prefix)
                   (skip_prefixes self))
  && negb (Re.match_meta_namespace article).

(** The title carries a [#] fragment or a [?] query. *)
Definition has_fragment_or_query (article : string) : bool :=
  Str.contains "#" article || Str.contains "?" article.

(** The claim as the specification states it. *)
Definition fragments_are_stripped (self : DataExtractor) : Prop :=
  forall section_content region_name article,
    In article (extract_articles_from_section self section_content region_name) ->
    has_fragment_or_query article = false.

(** A link target as the pattern's first group accepts it: not empty, no
    pipe and no closing bracket. *)
Definition is_link_target (t : string) : bool :=
  Str.truthy t && (let (_, rest) := Re.span Re.not_pipe_or_close t in
                   negb (Str.truthy rest)).

(** A display text as the pattern's optional group accepts it: not empty
    and no closing bracket. *)
Definition is_display_text (d : string) : bool :=
  Str.truthy d && (let (_, rest) := Re.span Re.not_close d in
                   negb (Str.truthy rest)).

(** The extractor with another list of regions to look for. *)
Definition with_regions (self : DataExtractor) (l : list string) : DataExtractor :=
  {| regions := l;
     region_countries := region_countries self;
     country_synonyms := country_synonyms self;
     skip_prefixes := skip_prefixes self |}.

(** The claim as the specification states it: a region whose header is
    found and whose section has no title is a key of the mapping, with the
    empty list. *)
Definition empty_section_is_listed (self : DataExtractor) : Prop :=
  forall content region section_content,
    In region (regions self) ->
    Re.search_section region content = Some section_content ->
    extract_articles_from_section self section_content region = [] ->
    Dict.get (parse_geographic_sections self content) region = Some [].

(* ------------------------------------------------------------------ *)
(** ** Definitions of the further properties *)

(** *** Shape of titles *)

(** Every character of the text satisfies [f]. *)
Fixpoint all_chars (f : ascii -> bool) (s : string) : bool :=
  match s with
  | EmptyString => true
  | String c s' => f c && all_chars f s'
  end.

(** The de-duplication loop as a recursion on the list: an element that was
    seen is dropped, a new one is kept and counts as seen from then on. *)
Fixpoint first_occurrences (seen : list string) (articles : list string)
  : list string :=
  match articles with
  | [] => []
  | a :: rest =>
      if Str.mem a seen then first_occurrences seen rest
      else a :: first_occurrences (a :: seen) rest
  end.

(** *** Sections of a page *)

(** What the body of the loop of [parse_geographic_sections] computes for
    one region: the titles of its first section, none when the header is
    not found. *)
Definition section_articles (self : DataExtractor) (content region : string)
  : list string :=
  match Re.search_section region content with
  | Some section_content =>
      extract_articles_from_section self section_content region
  | None => []
  end.

Definition has_articles (self : DataExtractor) (content region : string) : bool :=
  match section_articles self content region with
  | [] => false
  | _ :: _ => true
  end.

(** *** Counting records *)

(** The number of records in all the lists of a mapping. *)
Definition total_records {A : Type} (d : Dict.t (list A)) : nat :=
  List.length (concat (map snd d)).

(** No list of the mapping is empty. *)
Definition no_empty_list {A : Type} (d : Dict.t (list A)) : Prop :=
  Forall (fun kv => snd kv <> []) d.

(* ------------------------------------------------------------------ *)
(** ** The pipeline and its summary *)

(** [l[:n]] for any integer [n]: a negative [n] counts from the end. *)
Definition slice_to {A : Type} (n : Z) (l : list A) : list A :=
  if (0 <=? n)%Z then firstn (Z.to_nat n) l
  else firstn (List.length l - Z.to_nat (- n)) l.

(** The loop of [process_all_data] that cuts every list, run when
    [max_articles_per_region] is truthy: neither [None] nor 0. *)
Definition limit_articles (max_articles_per_region : option Z)
           (regional_articles : Dict.t (list string))
  : M (Dict.t (list string)) :=
  match max_articles_per_region with
  | Some n =>
      if (n =? 0)%Z then ret regional_articles
      else
        for_each
          (fun regional_articles region =>
             articles <- Dict.index regional_articles region ;;
             ret (Dict.set regional_articles region (slice_to n articles)))
          (Dict.keys regional_articles) regional_articles
  | None => ret regional_articles
  end.

Section Pipeline.

Variable self : DataExtractor.

(** The network collaborators: [get_subpage_content], which returns [None]
    when the request fails, and those of the enrichment. *)
Variable get_subpage_content : string -> option string.
Variable session_get_summary : string -> M response.
Variable get_article_categories : string -> list string.

Definition process_all_data (max_articles_per_region : option Z)
  : M (Dict.t (list article_info)) :=
  match get_subpage_content "Places and infrastructure" with
  | None => ret Dict.empty
  | Some places_content =>
      if negb (Str.truthy places_content) then ret Dict.empty
      else
        let regional_articles := parse_geographic_sections self places_content in
        if negb (Dict.truthy regional_articles) then ret Dict.empty
        else
          regional_articles <-
            limit_articles max_articles_per_region regional_articles ;;
          organize_by_countries self session_get_summary get_article_categories
                                regional_articles
  end.

End Pipeline.

(** The counts that [print_summary] prints. *)
Record summary : Type := {
  total_articles : nat;
  identified_articles : nat;
  unidentified_count : nat
}.

(** How [print_summary] ends: it returns at once on an empty mapping, it
    divides by zero, or it prints the counts. *)
Inductive summary_outcome : Type :=
| NoData
| ZeroDivisionError
| Printed (s : summary).

(** [sum(len(articles) for country, articles in data.items()
        if country != 'Unidentified')] *)
Definition count_identified (data : Dict.t (list article_info)) : nat :=
  list_sum (map (fun '(country, articles) =>
                   if negb (String.eqb country "Unidentified")
                   then List.length articles else 0%nat)
                data).

(** The counts and the divisions of [print_summary]; the texts and the
    averages that it prints are left out.  The identification rate divides
    by the total, and the average confidence of every country other than
    "Unidentified" divides by the length of its list. *)
Definition print_summary (data : Dict.t (list article_info)) : summary_outcome :=
  if negb (Dict.truthy data) then NoData
  else
    let total_articles := list_sum (map (fun kv => List.length (snd kv)) data) in
    let identified_articles := count_identified data in
    let unidentified_count :=
      List.length (Dict.get_default data "Unidentified" []) in
    if (total_articles =? 0)%nat then ZeroDivisionError
    else if existsb (fun '(country, articles) =>
                       negb (String.eqb country "Unidentified")
                       && (List.length articles =? 0)%nat)
                    data
    then ZeroDivisionError
    else Printed {| total_articles := total_articles;
                    identified_articles := identified_articles;
                    unidentified_count := unidentified_count |}.

(* ------------------------------------------------------------------ *)
(** ** The serving backend: titles of URLs and the curiosity score *)

Module Backend.

(** [s.split(sep)] for a separator that is not empty: the text is read from
    the left, [cur] is the piece being read, and [skip] counts the
    characters that the separator just found still covers. *)
Fixpoint split_from (sep : string) (skip : nat) (cur s : string) : list string :=
  match s with
  | EmptyString => [cur]
  | String c s' =>
      match skip with
      | S k => split_from sep k cur s'
      | O =>
          if String.prefix sep s
          then cur :: split_from sep (String.length sep - 1) EmptyString s'
          else split_from sep O (cur ++ String c EmptyString) s'
      end
  end.

Definition split (sep s : string) : list string :=
  split_from sep 0 EmptyString s.

Definition extract_wikipedia_title (url : string) : string :=
  if Str.contains "/wiki/" url then
    let title := last (split "/wiki/" url) EmptyString in
    let title := Str.replace_char "_" " " title in
    let title :=
      if Str.contains "#" title then hd EmptyString (split "#" title)
      else title in
    let title :=
      if Str.contains "?" title then hd EmptyString (split "?" title)
      else title in
    Str.strip title
  else EmptyString.

(** An article as the backend reads it: each key that the score looks up
    can be missing. *)
Record article : Type := {
  title : option string;
  description : option string;
  categories : option (list string);
  country_confidence : option Q
}.

Definition curiosity_keywords : list string :=
  ["unusual"; "strange"; "bizarre"; "odd"; "weird"; "peculiar";
   "mysterious"; "unexplained"; "controversial"; "banned"; "illegal";
   "cult"; "conspiracy"; "hoax"; "urban legend"; "phenomenon";
   "extinct"; "abandoned"; "secret"; "hidden"; "lost"; "ancient"].

Definition text_content_of (a : article) : string :=
  let title := Str.lower (or_default (title a) EmptyString) in
  let description := Str.lower (or_default (description a) EmptyString) in
  let categories :=
    match categories a with Some l => l | None => [] end in
  Str.lower (title ++ " " ++ description ++ " " ++ Str.join " " categories).

Definition calculate_curiosity_score (a : article) : Z :=
  let score := 5%Z in
  let categories :=
    match categories a with Some l => l | None => [] end in
  let text_content := text_content_of a in
  let score :=
    fold_left
      (fun score keyword =>
         if Str.contains keyword text_content then (score + 1)%Z else score)
      curiosity_keywords score in
  let confidence :=
    match country_confidence a with Some q => q | None => 0%Q end in
  let score :=
    if Qlt_le_dec (8 # 10) confidence then (score + 1)%Z else score in
  let category_count := List.length categories in
  let score :=
    if (10 <? category_count)%nat then (score + 2)%Z
    else if (5 <? category_count)%nat then (score + 1)%Z
    else score in
  Z.min score 10.

End Backend.

(* ------------------------------------------------------------------ *)
(** ** Definitions for the unscored candidates and the order of the sets *)

(** *** Scores outside the candidate set *)


(** *** Iteration order of the candidate sets *)

(** Two extractors hold the same gazetteer: the same regions, synonyms and
    skip prefixes, and for every region candidate sets with the same
    members.  The lists that stand for the sets can differ in their order,
    as the iteration order of a Python set of strings does from one run of
    the interpreter to the next. *)
Definition same_gazetteer (self self' : DataExtractor) : Prop :=
  regions self = regions self'
  /\ country_synonyms self = country_synonyms self'
  /\ skip_prefixes self = skip_prefixes self'
  /\ forall region c,
       In c (candidates self region) <-> In c (candidates self' region).

(** The claim as the specification states it: for a fixed gazetteer the
    scorer returns the same result on the same input. *)
Definition scorer_is_reproducible : Prop :=
  forall self self' title ext categories region,
    same_gazetteer self self' ->
    identify_country_from_context self title ext categories region
    = identify_country_from_context self' title ext categories region.

(** The gazetteer of [init] with every candidate set iterated in the
    opposite order. *)
Definition init_reversed : DataExtractor :=
  {| regions := regions init;
     region_countries :=
       map (fun kv => (fst kv, rev (snd kv))) (region_countries init);
     country_synonyms := country_synonyms init;
     skip_prefixes := skip_prefixes init |}.

(* ------------------------------------------------------------------ *)
(** * Properties *)

(** ** Dicts *)

Module DictFacts.
Import Dict.

Section WithValues.
Context {V : Type}.
Implicit Types (d : t V) (k : string) (v : V).

Lemma get_set d k v k' :
  get (set d k v) k' = if String.eqb k' k then Some v else get d k'.
Proof.
  induction d as [|[k0 v0] d IH]; simpl.
  - reflexivity.
  - destruct (String.eqb k k0) eqn:E; simpl.
    + apply String.eqb_eq in E; subst k0.
      destruct (String.eqb k' k); reflexivity.
    + destruct (String.eqb k' k0) eqn:E'.
      * apply String.eqb_eq in E'; subst k0.
        rewrite String.eqb_sym, E. reflexivity.
      * exact IH.
Qed.

Lemma get_default_set d k v k' default :
  get_default (set d k v) k' default
  = if String.eqb k' k then v else get_default d k' default.
Proof.
  unfold get_default. rewrite get_set.
  destruct (String.eqb k' k); reflexivity.
Qed.

Lemma get_in d k v : get d k = Some v -> In (k, v) d.
Proof.
  induction d as [|[k0 v0] d IH]; simpl; [discriminate|].
  destruct (String.eqb k k0) eqn:E.
  - apply String.eqb_eq in E; subst. intros [= ->]. now left.
  - intros H. right. now apply IH.
Qed.

Lemma in_get d k v : In (k, v) d -> exists v', get d k = Some v'.
Proof.
  induction d as [|[k0 v0] d IH]; simpl; [tauto|].
  intros [[= -> ->]|H].
  - rewrite String.eqb_refl. eauto.
  - destruct (String.eqb k k0); eauto.
Qed.

(** Every entry of [set d k v] is an old entry or the new one. *)
Lemma in_set d k v k' v' :
  In (k', v') (set d k v) -> In (k', v') d \/ (k' = k /\ v' = v).
Proof.
  induction d as [|[k0 v0] d IH]; simpl.
  - intros [[= <- <-]|[]]. now right.
  - destruct (String.eqb k k0) eqn:E; simpl.
    + apply String.eqb_eq in E; subst k0.
      intros [[= <- <-]|H]; [now right | left; now right].
    + intros [H|H]; [left; now left|].
      destruct (IH H) as [H'|H']; [left; now right | now right].
Qed.

Lemma Forall_set (P : string * V -> Prop) d k v :
  Forall P d -> P (k, v) -> Forall P (set d k v).
Proof.
  intros Hd Hk. apply Forall_forall. intros [k' v'] Hin.
  destruct (in_set _ _ _ _ _ Hin) as [H|[-> ->]].
  - rewrite Forall_forall in Hd. now apply Hd.
  - exact Hk.
Qed.

Lemma set_not_empty d k v : set d k v <> [].
Proof. destruct d as [|[k0 v0] d]; simpl; [|destruct (String.eqb k k0)]; discriminate. Qed.

End WithValues.

(** [max] returns one of the keys it scans, with its value. *)
Lemma max_scan_in (best : string * Z) (d : t Z) :
  exists v, In (max_scan best d, v) (best :: d).
Proof.
  revert best. induction d as [|[k v] d IH]; intros best; simpl.
  - exists (snd best). left. now destruct best.
  - destruct (snd best <? v)%Z.
    + destruct (IH (k, v)) as [v' [H|H]]; exists v'; [right; left|right; right]; auto.
    + destruct (IH best) as [v' [H|H]]; exists v'; [left|right; right]; auto.
Qed.

(** The value [max] reports is not below any value of the dict. *)
Lemma max_scan_in_ge (best : string * Z) (d : t Z) :
  exists v, In (max_scan best d, v) (best :: d)
            /\ Forall (fun kv => (snd kv <= v)%Z) (best :: d).
Proof.
  revert best. induction d as [|[k v] d IH]; intros best; simpl.
  - exists (snd best). split; [left; now destruct best|].
    constructor; [lia|constructor].
  - destruct (snd best <? v)%Z eqn:E.
    + apply Z.ltb_lt in E.
      destruct (IH (k, v)) as [v' [Hin Hall]]. exists v'. split.
      * destruct Hin as [H|H]; [right; left|right; right]; auto.
      * inversion Hall as [|? ? Hkv Hd]; subst. simpl in Hkv.
        constructor; [lia|]. constructor; [exact Hkv|exact Hd].
    + apply Z.ltb_ge in E.
      destruct (IH best) as [v' [Hin Hall]]. exists v'. split.
      * destruct Hin as [H|H]; [left|right; right]; auto.
      * inversion Hall as [|? ? Hb Hd]; subst.
        constructor; [exact Hb|]. constructor; [simpl; lia|exact Hd].
Qed.

End DictFacts.

(** ** Invariants of the score dict *)

Section ScoreInvariants.
Import Dict DictFacts.

Lemma get_default_nonneg d k : scores_ge5 d -> (0 <= get_default d k 0)%Z.
Proof.
  intros H. unfold get_default. destruct (get d k) eqn:E; [|lia].
  apply get_in in E. unfold scores_ge5 in H. rewrite Forall_forall in H.
  specialize (H _ E). simpl in H. lia.
Qed.

Lemma bump_ge5 d k w : scores_ge5 d -> (5 <= w)%Z -> scores_ge5 (bump d k w).
Proof.
  intros H Hw. apply Forall_set; [exact H|]. simpl.
  pose proof (get_default_nonneg d k H). lia.
Qed.

Lemma bump_keys K d k w : keys_in K d -> K k -> keys_in K (bump d k w).
Proof. intros H Hk. apply Forall_set; [exact H|exact Hk]. Qed.

Lemma category_step_shape lc score category :
  exists n, (0 <= n)%Z /\ category_step lc score category = (score + 5 * n)%Z.
Proof.
  unfold category_step.
  destruct (Str.contains lc (Str.lower category)).
  - destruct (any_in _ _); [exists 10%Z|exists 4%Z]; lia.
  - exists 0%Z; lia.
Qed.

Lemma categories_shape lc categories score :
  exists n, (0 <= n)%Z
            /\ fold_left (category_step lc) categories score = (score + 5 * n)%Z.
Proof.
  revert score. induction categories as [|c cs IH]; intros score; cbn [fold_left].
  - exists 0%Z; lia.
  - destruct (category_step_shape lc score c) as [n [Hn ->]].
    destruct (IH (score + 5 * n)%Z) as [m [Hm ->]].
    exists (n + m)%Z; lia.
Qed.

(** A country's own score is a non-negative multiple of 5. *)
Lemma country_score_shape title ext categories full_text country :
  exists n, (0 <= n)%Z
            /\ country_score title ext categories full_text country = (5 * n)%Z.
Proof.
  unfold country_score.
  destruct (categories_shape (Str.lower country) categories
              (0 + Z.of_nat (Re.count_word (Str.lower country) full_text) * 10)%Z)
    as [n [Hn ->]].
  set (m := Z.of_nat (Re.count_word (Str.lower country) full_text)).
  assert (0 <= m)%Z by (subst m; lia).
  destruct (Str.contains _ (Str.lower title)), (Str.contains _ (Str.lower ext)).
  - exists (2 * m + n + 4)%Z; lia.
  - exists (2 * m + n + 3)%Z; lia.
  - exists (2 * m + n + 1)%Z; lia.
  - exists (2 * m + n)%Z; lia.
Qed.

Lemma score_countries_inv K title ext categories full_text candidates :
  (forall c, In c candidates -> K c) ->
  scores_ge5 (score_countries title ext categories full_text candidates)
  /\ keys_in K (score_countries title ext categories full_text candidates).
Proof.
  unfold score_countries. intros HK.
  assert (G : forall l d, (forall c, In c l -> K c) ->
                          scores_ge5 d /\ keys_in K d ->
                          let d' := fold_left
                              (fun country_scores country =>
                                 let score := country_score title ext categories
                                                            full_text country in
                                 if (0 <? score)%Z
                                 then Dict.set country_scores country score
                                 else country_scores) l d in
                          scores_ge5 d' /\ keys_in K d').
  { induction l as [|c l IH]; intros d Hl [Hv Hk]; simpl; [split; assumption|].
    apply IH; [intros; apply Hl; now right|].
    destruct (country_score_shape title ext categories full_text c) as [n [Hn E]].
    destruct (0 <? _)%Z eqn:Hpos; [|split; assumption].
    apply Z.ltb_lt in Hpos. split.
    - apply Forall_set; [exact Hv|]. simpl. lia.
    - apply Forall_set; [exact Hk|]. simpl. apply Hl. now left. }
  apply G; [exact HK|]. split; constructor.
Qed.

Lemma mem_In x l : Str.mem x l = true <-> In x l.
Proof.
  unfold Str.mem. rewrite existsb_exists. split.
  - intros [y [Hy E]]. apply String.eqb_eq in E. now subst.
  - intros H. exists x. split; [exact H|apply String.eqb_refl].
Qed.

Lemma score_synonyms_inv K self full_text candidates d :
  (forall c, In c candidates -> K c) ->
  scores_ge5 d /\ keys_in K d ->
  scores_ge5 (score_synonyms self full_text candidates d)
  /\ keys_in K (score_synonyms self full_text candidates d).
Proof.
  unfold score_synonyms. intros HK.
  generalize (country_synonyms self) as syns. intros syns. revert d.
  induction syns as [|[syn canon] syns IH]; intros d [Hv Hk]; simpl;
    [split; assumption|].
  apply IH.
  destruct (Str.mem canon candidates) eqn:Hm; [|split; assumption].
  destruct (Str.contains _ _); [|split; assumption].
  split; [apply bump_ge5; [exact Hv|lia]|].
  apply bump_keys; [exact Hk|]. apply HK. now apply mem_In.
Qed.

Lemma special_rules_inv K self full_text categories d region :
  (forall c, In c special_targets -> K c) ->
  scores_ge5 d /\ keys_in K d ->
  scores_ge5 (_apply_special_location_rules self full_text categories d region)
  /\ keys_in K (_apply_special_location_rules self full_text categories d region).
Proof.
  intros HK H0. unfold _apply_special_location_rules.
  assert (step : forall d k w (b : bool),
             In k special_targets -> (5 <= w)%Z ->
             scores_ge5 d /\ keys_in K d ->
             scores_ge5 (if b then bump d k w else d)
             /\ keys_in K (if b then bump d k w else d)).
  { intros d0 k w b Hk Hw [Hv Hkk]. destruct b; [|split; assumption].
    split; [now apply bump_ge5|apply bump_keys; auto]. }
  set (d1 := if Str.contains "hong kong" full_text then _ else d).
  assert (H1 : scores_ge5 d1 /\ keys_in K d1)
    by (apply step; [simpl; tauto|lia|exact H0]).
  set (d2 := if Str.contains "macau" full_text || _ then _ else d1).
  assert (H2 : scores_ge5 d2 /\ keys_in K d2)
    by (apply step; [simpl; tauto|lia|exact H1]).
  set (d3 := if Str.contains "taiwan" full_text || _ then _ else _).
  assert (H3 : scores_ge5 d3 /\ keys_in K d3).
  { subst d3. destruct (Str.contains "taiwan" full_text || _).
    - apply (step d2 _ _ true); [simpl; tauto|lia|exact H2].
    - apply step; [simpl; tauto|lia|exact H2]. }
  set (d4 := if any_in ["england"; _; _] full_text then _ else d3).
  assert (H4 : scores_ge5 d4 /\ keys_in K d4)
    by (apply step; [simpl; tauto|lia|exact H3]).
  set (d5 := if any_in ["scotland"; _; _] full_text then _ else d4).
  assert (H5 : scores_ge5 d5 /\ keys_in K d5)
    by (apply step; [simpl; tauto|lia|exact H4]).
  set (d6 := if any_in ["wales"; _; _] full_text then _ else d5).
  assert (H6 : scores_ge5 d6 /\ keys_in K d6)
    by (apply step; [simpl; tauto|lia|exact H5]).
  set (d7 := if Str.contains "northern ireland" full_text then _ else d6).
  assert (H7 : scores_ge5 d7 /\ keys_in K d7)
    by (apply step; [simpl; tauto|lia|exact H6]).
  destruct (String.eqb region "North America"); [|exact H7].
  destruct (any_in ["united states"; _; _; _] full_text).
  - apply (step d7 _ _ true); [simpl; tauto|lia|exact H7].
  - apply step; [simpl; tauto|lia|exact H7].
Qed.

Lemma final_scores_inv self title ext categories region :
  scores_ge5 (final_scores self title ext categories region)
  /\ keys_in (fun k => In k (candidates self region) \/ In k special_targets)
             (final_scores self title ext categories region).
Proof.
  unfold final_scores.
  apply special_rules_inv; [tauto|].
  apply score_synonyms_inv; [tauto|].
  apply score_countries_inv. tauto.
Qed.

End ScoreInvariants.

(** ** What the scorer returns *)

Section ScorerResult.
Import Dict DictFacts.

Lemma confidence_of_bounds v :
  (5 <= v)%Z -> (1 # 10 <= confidence_of v)%Q /\ (confidence_of v <= 1)%Q.
Proof.
  intros Hv. unfold confidence_of. rewrite Qred_correct. split.
  - apply Q.min_glb.
    + unfold Qle, Qdiv, Qmult, Qinv, inject_Z. simpl. lia.
    + unfold Qle. simpl. lia.
  - apply Q.le_min_r.
Qed.

(** The two ways the scorer ends: an empty score dict and [(None, 0.0)],
    or an entry of the dict and its normalised score. *)
Lemma identify_cases self title ext categories region :
  (final_scores self title ext categories region = []
   /\ identify_country_from_context self title ext categories region
      = inr (None, 0%Q))
  \/ (exists c v,
         In (c, v) (final_scores self title ext categories region)
         /\ identify_country_from_context self title ext categories region
            = inr (Some c, confidence_of v)).
Proof.
  unfold identify_country_from_context.
  destruct (final_scores self title ext categories region) as [|kv d] eqn:E.
  - left. split; reflexivity.
  - right. cbn [truthy negb]. unfold max_key, bind, ret. cbv iota beta.
    destruct (max_scan_in kv d) as [v Hin].
    destruct (in_get _ _ _ Hin) as [v' Hget].
    exists (max_scan kv d), v'. split.
    + now apply get_in.
    + unfold index, ret. now rewrite Hget.
Qed.

(** The scorer returns for every input: the guard on the empty dict
    keeps [max] and the indexing from raising. *)
Lemma identify_never_raises self title ext categories region :
  exists res,
    identify_country_from_context self title ext categories region = inr res.
Proof.
  destruct (identify_cases self title ext categories region)
    as [[_ H]|[c [v [_ H]]]]; rewrite H; eauto.
Qed.


End ScorerResult.

(** C10. For every gazetteer and every input the scorer returns either
    (none, exactly 0) or a country with a confidence between 0.1 and 1.0:
    no confidence lies strictly between 0 and 0.1. *)
Theorem confidence_gap (self : DataExtractor) (title ext : string)
        (categories : list string) (region : string) :
  identify_country_from_context self title ext categories region = inr (None, 0%Q)
  \/ exists country confidence,
      identify_country_from_context self title ext categories region
      = inr (Some country, confidence)
      /\ (1 # 10 <= confidence)%Q /\ (confidence <= 1)%Q.
Proof.
  destruct (identify_cases self title ext categories region)
    as [[_ H]|[c [v [Hin H]]]]; [now left|right].
  exists c, (confidence_of v). split; [exact H|].
  apply confidence_of_bounds.
  destruct (final_scores_inv self title ext categories region) as [Hv _].
  unfold scores_ge5 in Hv. rewrite Forall_forall in Hv. exact (Hv _ Hin).
Qed.

(** ** Strings *)

Section StringFacts.

Lemma lower_app a b : Str.lower (a ++ b) = Str.lower a ++ Str.lower b.
Proof. induction a as [|c a IH]; simpl; [reflexivity|now rewrite IH]. Qed.

Lemma prefix_empty p : String.prefix p "" = true -> p = "".
Proof. destruct p; [reflexivity|discriminate]. Qed.

Lemma contains_cons sub c s :
  Str.contains sub (String c s)
  = String.prefix sub (String c s) || Str.contains sub s.
Proof. reflexivity. Qed.






End StringFacts.

(** ** Appended text *)

Section AppendedText.

Lemma app_assoc_str a b c : (a ++ b) ++ c = a ++ (b ++ c).
Proof. induction a as [|x a IH]; simpl; [reflexivity|now rewrite IH]. Qed.

Lemma prefix_app_l p a b : String.prefix p a = true -> String.prefix p (a ++ b) = true.
Proof.
  revert a. induction p as [|x p IH]; intros a H; [now destruct (a ++ b)|].
  destruct a as [|y a]; [discriminate|].
  cbn [String.append String.prefix] in *.
  destruct (ascii_dec x y); [now apply IH|discriminate].
Qed.

Lemma contains_app_l p a b : Str.contains p a = true -> Str.contains p (a ++ b) = true.
Proof.
  induction a as [|y a IH]; intros H.
  - change (String.prefix p "" = true) in H. apply prefix_empty in H. subst p.
    cbn [String.append]. destruct b; reflexivity.
  - rewrite contains_cons in H. cbn [String.append]. rewrite contains_cons.
    apply orb_true_iff in H. apply orb_true_iff. destruct H as [H|H].
    + left. now apply (prefix_app_l p (String y a) b).
    + right. now apply IH.
Qed.

(** A prefix that fits in the first part is a prefix of it. *)
Lemma prefix_app_fits p a b :
  String.prefix p (a ++ b) = true -> (String.length p <= String.length a)%nat ->
  String.prefix p a = true.
Proof.
  revert a. induction p as [|x p IH]; intros a H Hl; [now destruct a|].
  destruct a as [|y a]; [cbn in Hl; lia|].
  cbn [String.append String.prefix String.length] in *.
  destruct (ascii_dec x y); [apply IH; [exact H|lia]|discriminate].
Qed.

Lemma prefix_length p s : String.prefix p s = true -> (String.length p <= String.length s)%nat.
Proof.
  revert s. induction p as [|x p IH]; intros s H; [cbn; lia|].
  destruct s as [|y s]; [discriminate|].
  cbn [String.prefix String.length] in *.
  destruct (ascii_dec x y); [|discriminate]. specialize (IH s H). lia.
Qed.

Lemma prefix_same_length p s :
  String.prefix p s = true -> String.length p = String.length s -> p = s.
Proof.
  revert s. induction p as [|x p IH]; intros s H Hl.
  - destruct s; [reflexivity|discriminate].
  - destruct s as [|y s]; [discriminate|].
    cbn [String.prefix String.length] in *.
    destruct (ascii_dec x y) as [->|]; [|discriminate].
    f_equal. apply IH; [exact H|lia].
Qed.

Lemma count_word_short p s : forall prev skip,
  (String.length s < String.length p)%nat -> Re.count_word_from p prev s skip = 0%nat.
Proof.
  induction s as [|c s IH]; intros prev skip Hl.
  - destruct skip; [|reflexivity]. cbn [Re.count_word_from].
    unfold Re.word_match_at.
    destruct (String.prefix p "") eqn:E.
    + apply prefix_length in E. lia.
    + now rewrite andb_false_r.
  - cbn [String.length] in Hl.
    destruct skip; cbn [Re.count_word_from]; [|apply IH; lia].
    unfold Re.word_match_at.
    destruct (String.prefix p (String c s)) eqn:E.
    + apply prefix_length in E. cbn [String.length] in E. lia.
    + rewrite andb_false_r. cbn [andb]. apply IH. lia.
Qed.

Lemma drop_app n a b :
  (n <= String.length a)%nat -> Re.drop n (a ++ b) = Re.drop n a ++ b.
Proof.
  revert a. induction n as [|n IH]; intros a H.
  - now destruct a.
  - destruct a as [|y a]; [cbn in H; lia|].
    cbn [String.append Re.drop String.length] in *. apply IH. lia.
Qed.

Lemma drop_all a : Re.drop (String.length a) a = "".
Proof. induction a as [|y a IH]; [reflexivity|exact IH]. Qed.

Lemma drop_nonempty n a :
  (n < String.length a)%nat -> exists c r, Re.drop n a = String c r.
Proof.
  revert a. induction n as [|n IH]; intros a H.
  - destruct a as [|y a]; [cbn in H; lia|]. now exists y, a.
  - destruct a as [|y a]; [cbn in H; lia|].
    cbn [Re.drop String.length] in *. apply IH. lia.
Qed.

Lemma head_app x b : x <> "" -> Re.head (x ++ b) = Re.head x.
Proof. destruct x; [congruence|reflexivity]. Qed.

Lemma boundary_end l : Re.boundary l None = Re.opt_word l.
Proof. unfold Re.boundary. cbn [Re.opt_word]. now rewrite xorb_false_r. Qed.

(** An attempt at a position of [x], in [x] alone and in [x] followed by
    [b]: a match that leaves at least one character of [x] is the same in
    both, and a match in [x] alone is a match in [x ++ b] when the seam
    is not inside a word. *)
Lemma word_match_app prev p x b :
  x <> "" ->
  (Re.opt_word (Re.last_char prev x) = false \/ Re.opt_word (Re.head b) = false) ->
  (Re.word_match_at prev p x = true -> Re.word_match_at prev p (x ++ b) = true)
  /\ ((String.length p < String.length x)%nat ->
      Re.word_match_at prev p (x ++ b) = Re.word_match_at prev p x).
Proof.
  intros Hx Hseam.
  assert (P2 : (String.length p < String.length x)%nat ->
               Re.word_match_at prev p (x ++ b) = Re.word_match_at prev p x).
  { intros Hl. unfold Re.word_match_at. rewrite (head_app x b Hx).
    assert (E : String.prefix p (x ++ b) = String.prefix p x).
    { destruct (String.prefix p x) eqn:E1.
      - now apply prefix_app_l.
      - destruct (String.prefix p (x ++ b)) eqn:E2; [|reflexivity].
        apply prefix_app_fits in E2; [congruence|lia]. }
    rewrite E, drop_app by lia.
    destruct (drop_nonempty _ _ Hl) as [c [r ->]]. reflexivity. }
  split; [|exact P2].
  intros M. pose proof M as M'. unfold Re.word_match_at in M'.
  apply andb_true_iff in M'. destruct M' as [M' Mend].
  apply andb_true_iff in M'. destruct M' as [Mstart Mpre].
  pose proof (prefix_length _ _ Mpre) as Hl.
  destruct (Nat.eq_dec (String.length p) (String.length x)) as [Heq|Hne].
  - pose proof (prefix_same_length _ _ Mpre Heq) as ->.
    rewrite drop_all, boundary_end in Mend.
    unfold Re.word_match_at. rewrite (head_app x b Hx), Mstart.
    rewrite (prefix_app_l x x b Mpre), drop_app, drop_all by lia.
    cbn [String.append andb]. unfold Re.boundary. rewrite Mend.
    destruct Hseam as [H|H]; [congruence|]. now rewrite H.
  - rewrite P2 by lia. exact M.
Qed.

(** Text appended across a seam that is not inside a word loses no
    whole-word match. *)
Lemma count_word_app p b : forall a prev skip,
  (Re.opt_word (Re.last_char prev a) = false \/ Re.opt_word (Re.head b) = false) ->
  (Re.count_word_from p prev a skip <= Re.count_word_from p prev (a ++ b) skip)%nat.
Proof.
  induction a as [|c a IH]; intros prev skip Hseam.
  - cbn [String.append Re.last_char] in *.
    destruct skip; [|cbn [Re.count_word_from]; lia].
    cbn [Re.count_word_from].
    destruct (Re.word_match_at prev p "") eqn:M; [|lia].
    assert (Mb : Re.word_match_at prev p b = true).
    { unfold Re.word_match_at in M.
      apply andb_true_iff in M. destruct M as [M Mend].
      apply andb_true_iff in M. destruct M as [Mstart Mpre].
      apply prefix_empty in Mpre. subst p.
      rewrite boundary_end in Mstart.
      unfold Re.word_match_at. cbn [String.length Re.drop Re.last_char String.prefix].
      unfold Re.boundary. rewrite Mstart.
      destruct Hseam as [H|H]; [congruence|]. rewrite H.
      now destruct b. }
    destruct b; cbn [Re.count_word_from]; rewrite Mb; lia.
  - cbn [String.append]. cbn [Re.last_char] in Hseam.
    destruct skip; cbn [Re.count_word_from]; [|now apply IH].
    destruct (word_match_app prev p (String c a) b ltac:(discriminate) Hseam)
      as [M12 Meq].
    cbn [String.append] in M12, Meq.
    destruct (Re.word_match_at prev p (String c a)) eqn:M1.
    + rewrite (M12 eq_refl). apply le_n_S. now apply IH.
    + destruct (Re.word_match_at prev p (String c (a ++ b))) eqn:M2.
      * assert (Hl : (String.length a < String.length p)%nat).
        { destruct (Nat.lt_ge_cases (String.length p) (String.length (String c a)))
            as [H|H]; [discriminate (Meq H)|].
          cbn [String.length] in H. lia. }
        rewrite (count_word_short p a _ _ Hl). lia.
      * now apply IH.
Qed.

Lemma app_empty_r a : a ++ "" = a.
Proof. induction a as [|x a IH]; simpl; [reflexivity|now rewrite IH]. Qed.

Lemma join_snoc sep cats new :
  cats <> [] ->
  Str.join sep (cats ++ [new]) = Str.join sep cats ++ sep ++ new.
Proof.
  unfold Str.join. induction cats as [|x cats IH]; intros H; [congruence|].
  destruct cats as [|y cats]; [reflexivity|].
  change (String.concat sep ((x :: y :: cats) ++ [new]))
    with (x ++ sep ++ String.concat sep ((y :: cats) ++ [new])).
  rewrite IH by discriminate.
  change (String.concat sep (x :: y :: cats))
    with (x ++ sep ++ String.concat sep (y :: cats)).
  now rewrite !app_assoc_str.
Qed.

Lemma last_char_snoc prev a c : Re.last_char prev (a ++ String c "") = Some c.
Proof. revert prev. induction a as [|x a IH]; intros prev; [reflexivity|apply IH]. Qed.

(** One more category extends the analysis text, across a seam that is a
    space. *)
Lemma full_text_snoc title ext categories new :
  exists b,
    full_text_of title ext (categories ++ [new])
    = full_text_of title ext categories ++ b
    /\ (Re.opt_word (Re.last_char None (full_text_of title ext categories)) = false
        \/ Re.opt_word (Re.head b) = false).
Proof.
  unfold full_text_of. destruct categories as [|x cats].
  - exists (Str.lower new). split.
    + cbn [app Str.join String.concat]. rewrite app_empty_r.
      rewrite <- lower_app. now rewrite !app_assoc_str.
    + left. cbn [Str.join String.concat]. rewrite app_empty_r.
      rewrite <- !app_assoc_str, lower_app.
      change (Str.lower " ") with (String " " "").
      now rewrite last_char_snoc.
  - exists (Str.lower (" " ++ new)). split.
    + rewrite join_snoc by discriminate.
      rewrite <- lower_app. now rewrite !app_assoc_str.
    + right. reflexivity.
Qed.

Lemma category_points_snoc lc categories new :
  (category_points lc categories <= category_points lc (categories ++ [new]))%Z.
Proof.
  unfold category_points. rewrite fold_left_app. cbn [fold_left].
  destruct (category_step_shape lc (fold_left (category_step lc) categories 0%Z) new)
    as [n [Hn ->]].
  lia.
Qed.

(** Appending a category keeps every signal of every country: the
    hypothesis of the monotonicity theorem holds for this way of adding
    text. *)
Lemma appended_category_keeps_signals self c title ext categories new :
  keeps_signals self c title ext categories title ext (categories ++ [new]) = true.
Proof.
  unfold keeps_signals. cbv zeta.
  destruct (full_text_snoc title ext categories new) as [b [-> Hseam]].
  repeat (apply andb_true_iff; split).
  - apply Nat.leb_le. unfold Re.count_word. now apply count_word_app.
  - apply Z.leb_le. apply category_points_snoc.
  - now destruct (Str.contains _ _).
  - now destruct (Str.contains _ _).
  - apply forallb_forall. intros term _.
    destruct (Str.contains term (full_text_of title ext categories)) eqn:E;
      [|reflexivity].
    cbn [implb]. now apply contains_app_l.
Qed.

End AppendedText.

(** ** Inputs without signals *)

Section ZeroSignal.
Import Dict DictFacts.

Lemma special_rules_silent self full_text categories d region :
  any_in special_terms full_text = false ->
  _apply_special_location_rules self full_text categories d region = d.
Proof.
  unfold any_in, special_terms. cbn [existsb]. intros H.
  repeat (apply orb_false_iff in H; destruct H as [? H]).
  unfold _apply_special_location_rules, any_in. cbn [existsb].
  repeat match goal with E : Str.contains _ _ = false |- _ => rewrite E; clear E end.
  cbn [orb]. now destruct (String.eqb region "North America").
Qed.

Lemma score_synonyms_silent self region full_text d :
  synonyms_absent self region full_text = true ->
  score_synonyms self full_text (candidates self region) d = d.
Proof.
  unfold synonyms_absent, score_synonyms.
  generalize (country_synonyms self) as syns.
  induction syns as [|[syn canon] syns IH]; cbn [forallb fold_left];
    [reflexivity|].
  intros H. apply andb_true_iff in H. destruct H as [H1 H2].
  apply negb_true_iff, andb_false_iff in H1.
  destruct (Str.mem canon (candidates self region)); [|now apply IH].
  destruct H1 as [H1|H1]; [discriminate|]. rewrite H1. now apply IH.
Qed.

Lemma score_countries_unchanged title ext categories full_text cands d :
  (forall c, In c cands ->
             country_score title ext categories full_text c = 0%Z) ->
  fold_left
    (fun country_scores country =>
       let score := country_score title ext categories full_text country in
       if (0 <? score)%Z then Dict.set country_scores country score
       else country_scores) cands d = d.
Proof.
  revert d. induction cands as [|c cands IH]; intros d H; cbn [fold_left];
    [reflexivity|].
  cbv zeta. rewrite (H c) by now left. cbn [Z.ltb Z.compare].
  apply IH. intros c' Hc'. apply H. now right.
Qed.

(** No signal anywhere: the score dict stays empty. *)
Lemma final_scores_silent self title ext categories region :
  (forall c, In c (candidates self region) ->
             country_score title ext categories
                           (full_text_of title ext categories) c = 0%Z) ->
  synonyms_absent self region (full_text_of title ext categories) = true ->
  any_in special_terms (full_text_of title ext categories) = false ->
  final_scores self title ext categories region = [].
Proof.
  intros Hc Hs Ht. unfold final_scores.
  rewrite special_rules_silent by exact Ht.
  fold (candidates self region).
  rewrite score_synonyms_silent by exact Hs.
  unfold score_countries. now apply score_countries_unchanged.
Qed.



Lemma candidates_all_names self region c :
  In c (candidates self region) -> In c (all_names self).
Proof.
  unfold candidates, get_default, all_names.
  destruct (get (region_countries self) region) as [l|] eqn:E; [|intros []].
  intros Hc. apply get_in in E. apply in_concat. exists l. split; [|exact Hc].
  change l with (snd (region, l)). now apply in_map.
Qed.


End ZeroSignal.

(** ** Regions outside the gazetteer (C5) *)

(** C5, counterexample. "Atlantis" is no region of the gazetteer, and the
    scorer returns (none, 0.0) for it instead of raising. *)
Lemma unknown_region_returns :
  Dict.get (region_countries init) "Atlantis" = None
  /\ identify_country_from_context init "X" "" [] "Atlantis" = inr (None, 0%Q)
  /\ ~ unknown_region_raises init.
Proof.
  split; [reflexivity|]. split; [vm_compute; reflexivity|].
  intros H. destruct (H "X" "" [] "Atlantis" eq_refl) as [e He].
  vm_compute in He. discriminate.
Qed.

(** C5, as amended. The scorer returns without raising for every region
    and every text.  For a region that the gazetteer does not register the
    lookup falls back to the empty candidate set, and when no special-rule
    term occurs in the text the result is (none, 0.0). *)
Theorem unknown_region_is_silent (self : DataExtractor) (title ext : string)
        (categories : list string) (region : string) :
  (exists res,
      identify_country_from_context self title ext categories region = inr res)
  /\ (Dict.get (region_countries self) region = None ->
      candidates self region = []
      /\ (any_in special_terms (full_text_of title ext categories) = false ->
          identify_country_from_context self title ext categories region
          = inr (None, 0%Q))).
Proof.
  split; [apply identify_never_raises|]. intros Hr.
  assert (Hc : candidates self region = [])
    by (unfold candidates, Dict.get_default; now rewrite Hr).
  split; [exact Hc|]. intros Ht.
  assert (E : final_scores self title ext categories region = []).
  { apply final_scores_silent; [| |exact Ht].
    - rewrite Hc. intros c [].
    - unfold synonyms_absent. rewrite Hc. apply forallb_forall.
      now intros [syn canon] _. }
  unfold identify_country_from_context. now rewrite E.
Qed.

Lemma unknown_region_is_silent_witness :
  candidates init "Atlantis" = []
  /\ identify_country_from_context init "X" "" [] "Atlantis" = inr (None, 0%Q).
Proof.
  destruct (proj2 (unknown_region_is_silent init "X" "" [] "Atlantis") eq_refl)
    as [Hc Hr].
  split; [exact Hc|]. apply Hr. reflexivity.
Defined.

(** ** Inputs without signals (C6) *)




(** ** Region isolation (C1) *)

(** The generic passes respect the region: after the loop over the
    region's countries and the synonym pass every key is a candidate. *)
Lemma generic_passes_stay_in_region self title ext categories region :
  let full_text := full_text_of title ext categories in
  keys_in (fun k => In k (candidates self region))
          (score_synonyms self full_text (candidates self region)
             (score_countries title ext categories full_text
                              (candidates self region))).
Proof.
  intros full_text.
  apply (score_synonyms_inv (fun k => In k (candidates self region)));
    [tauto|].
  apply score_countries_inv. tauto.
Qed.

(** The country that the scorer returns is a candidate of the region or
    one of the countries that the special rules name. *)
Lemma result_country_known self title ext categories region country confidence :
  identify_country_from_context self title ext categories region
  = inr (Some country, confidence) ->
  In country (candidates self region) \/ In country special_targets.
Proof.
  intros H.
  destruct (identify_cases self title ext categories region)
    as [[_ H']|[c [v [Hin H']]]]; rewrite H' in H; [discriminate|].
  injection H as <- _.
  destruct (final_scores_inv self title ext categories region) as [_ Hk].
  unfold keys_in in Hk. rewrite Forall_forall in Hk. exact (Hk _ Hin).
Qed.

(** C1, at the failing input. Hong Kong is not registered for Europe, and
    a Europe-region article whose extract mentions Hong Kong is attributed
    to Hong Kong with confidence 1.0: the Hong Kong rule of
    [_apply_special_location_rules] does not look at the region, unlike
    the synonym pass and the North America rule. *)
Theorem special_rules_leave_region :
  Str.mem "Hong Kong" (candidates init "Europe") = false
  /\ identify_country_from_context init "X" "Located in Hong Kong" [] "Europe"
     = inr (Some "Hong Kong", 1%Q).
Proof. split; vm_compute; reflexivity. Qed.

(** ** Rounding of the confidence *)

Section Rounding.

Lemma round_half_even_int q n : q == inject_Z n -> round_half_even q = n.
Proof.
  destruct q as [a b]. unfold Qeq, inject_Z, round_half_even. simpl.
  intros H. rewrite Z.mul_1_r in H. subst a.
  rewrite Z.div_mul by discriminate.
  rewrite Z.mod_mul by discriminate.
  reflexivity.
Qed.

Lemma round2_fixed q n : q * 100 == inject_Z n -> round2 q = Qred q.
Proof.
  intros H. unfold round2. rewrite (round_half_even_int _ _ H).
  apply Qred_complete.
  assert (E : n # 100 == inject_Z n / 100)
    by (unfold Qeq, Qdiv, Qmult, Qinv, inject_Z; simpl; lia).
  rewrite E, <- H. field.
Qed.

(** Rounding to two decimals leaves a confidence as it is: it is a
    multiple of 0.02. *)
Lemma round2_confidence_of v : round2 (confidence_of v) = confidence_of v.
Proof.
  unfold confidence_of.
  set (r := Qmin (inject_Z v / 50) 1).
  assert (Hr : exists n, r * 100 == inject_Z n).
  { subst r. destruct (Q.min_spec (inject_Z v / 50) 1) as [[_ E]|[_ E]].
    - exists (2 * v)%Z. rewrite E, inject_Z_mult. field.
    - exists 100%Z. now rewrite E. }
  destruct Hr as [n Hn].
  rewrite (round2_fixed _ n) by (now rewrite Qred_correct).
  apply Qred_complete, Qred_correct.
Qed.

End Rounding.

(** ** The aggregator *)

Section AggregatorFacts.
Import Dict DictFacts.

Lemma for_each_app {A S : Type} (body : S -> A -> M S) l1 l2 st :
  for_each body (l1 ++ l2) st
  = (st' <- for_each body l1 st ;; for_each body l2 st').
Proof.
  revert st. induction l1 as [|x l1 IH]; intros st; cbn [for_each app].
  - reflexivity.
  - unfold bind at 1 3. destruct (body st x); [reflexivity|apply IH].
Qed.

Lemma for_each_map {A B S : Type} (body : S -> B -> M S) (g : A -> B) l st :
  for_each (fun st x => body st (g x)) l st = for_each body (map g l) st.
Proof.
  revert st. induction l as [|x l IH]; intros st; cbn [for_each map].
  - reflexivity.
  - unfold bind. destruct (body st (g x)); [reflexivity|apply IH].
Qed.

Lemma above_threshold_spec q :
  above_threshold q = if Qlt_le_dec (1 # 10) q then true else false.
Proof.
  unfold above_threshold.
  destruct (Qlt_le_dec (1 # 10) q) as [H|H].
  - destruct (Qle_bool q (1 # 10)) eqn:E; [|reflexivity].
    apply Qle_bool_iff in E. exfalso. exact (Qlt_not_le _ _ H E).
  - apply Qle_bool_iff in H. now rewrite H.
Qed.

(** One step of the aggregator: the record goes to the end of exactly
    one list, and the step does not raise. *)
Lemma route_step (d : Dict.t (list article_info)) u info :
  exists d',
    route (d, u) info
    = inr (d', if routed info then u else (u ++ [info])%list)
    /\ forall k, get_default d' k []
                 = (get_default d k []
                    ++ if routed_to k info then [info] else [])%list.
Proof.
  unfold route, routed, routed_to.
  destruct (identified_country info) as [c|].
  2:{ exists d. split; [reflexivity|]. intros k. now rewrite app_nil_r. }
  destruct (Str.truthy c && above_threshold (country_confidence info)).
  2:{ exists d. split; [reflexivity|]. intros k. now rewrite app_nil_r. }
  cbn [andb].
  set (d1 := if negb (mem d c) then set d c [] else d).
  assert (H1 : get d1 c = Some (get_default d c [])).
  { subst d1. unfold mem, get_default.
    destruct (get d c) eqn:E; cbn [negb].
    - exact E.
    - now rewrite get_set, String.eqb_refl. }
  assert (H2 : forall k, String.eqb k c = false -> get d1 k = get d k).
  { intros k Hk. subst d1. destruct (negb (mem d c)); [|reflexivity].
    now rewrite get_set, Hk. }
  exists (set d1 c (get_default d c [] ++ [info])%list). split.
  - unfold index, bind, ret. now rewrite H1.
  - intros k. rewrite get_default_set.
    destruct (String.eqb k c) eqn:Hk.
    + apply String.eqb_eq in Hk. now subst k.
    + unfold get_default. rewrite (H2 k Hk). now rewrite app_nil_r.
Qed.

(** The whole loop over the records. *)
Lemma route_all infos : forall (d : Dict.t (list article_info)) u,
  exists d',
    for_each route infos (d, u)
    = inr (d', (u ++ filter (fun i => negb (routed i)) infos)%list)
    /\ forall k, get_default d' k []
                 = (get_default d k [] ++ filter (routed_to k) infos)%list.
Proof.
  induction infos as [|info infos IH]; intros d u; cbn [for_each filter].
  - exists d. split; [now rewrite app_nil_r|].
    intros k. now rewrite app_nil_r.
  - destruct (route_step d u info) as [d1 [E1 G1]].
    unfold bind. rewrite E1.
    destruct (IH d1 (if routed info then u else (u ++ [info])%list))
      as [d2 [E2 G2]].
    exists d2. split.
    + rewrite E2. f_equal. f_equal.
      destruct (routed info); cbn [negb]; [reflexivity|].
      now rewrite <- app_assoc.
    + intros k. rewrite G2, G1, <- app_assoc.
      now destruct (routed_to k info).
Qed.

(** For a well-named record the aggregator's test is the specification's
    bucket. *)
Lemma routed_to_spec k info :
  well_named info ->
  String.eqb k "Unidentified" = false ->
  routed_to k info = String.eqb (spec_bucket info) k.
Proof.
  intros [Hne Hnu] Hk. unfold routed_to, spec_bucket.
  destruct (identified_country info) as [c|].
  2:{ now rewrite String.eqb_sym, Hk. }
  rewrite above_threshold_spec.
  destruct (Qlt_le_dec (1 # 10) (country_confidence info)).
  - destruct c; [now elim Hne|]. cbn [Str.truthy andb].
    apply String.eqb_sym.
  - rewrite andb_false_r. cbn [andb]. now rewrite String.eqb_sym, Hk.
Qed.

Lemma routed_spec info :
  well_named info ->
  negb (routed info) = String.eqb (spec_bucket info) "Unidentified".
Proof.
  intros [Hne Hnu]. unfold routed, spec_bucket.
  destruct (identified_country info) as [c|]; [|reflexivity].
  rewrite above_threshold_spec.
  destruct (Qlt_le_dec (1 # 10) (country_confidence info)).
  - destruct c; [now elim Hne|]. cbn [Str.truthy andb negb].
    symmetry. apply String.eqb_neq. congruence.
  - now rewrite andb_false_r.
Qed.

(** No well-named record passes the test for the catch-all key. *)
Lemma none_routed_to_catch_all infos :
  Forall well_named infos -> filter (routed_to "Unidentified") infos = [].
Proof.
  induction 1 as [|i l [_ Hnu] _ IH]; [reflexivity|]. cbn [filter].
  assert (Hr : routed_to "Unidentified" i = false).
  { unfold routed_to.
    destruct (identified_country i) as [c|]; [|reflexivity].
    destruct (String.eqb "Unidentified" c) eqn:Ec.
    - apply String.eqb_eq in Ec. subst c. now elim Hnu.
    - now rewrite andb_false_r. }
  now rewrite Hr.
Qed.

End AggregatorFacts.

Section Organize.
Import Dict DictFacts.

Variable self : DataExtractor.
Variable session_get_summary : string -> M response.
Variable get_article_categories : string -> list string.

Local Abbreviation info_of :=
  (get_enhanced_article_info self session_get_summary get_article_categories).
Local Abbreviation organize :=
  (organize_by_countries self session_get_summary get_article_categories).
Local Abbreviation records :=
  (enriched self session_get_summary get_article_categories).

(** The nested loops are one loop over the records. *)
Lemma organize_loops regional st :
  for_each (organize_region self session_get_summary get_article_categories)
           regional st
  = for_each route (records regional) st.
Proof.
  revert st. induction regional as [|[region articles] regional IH]; intros st.
  - reflexivity.
  - unfold enriched. cbn [flat_map for_each].
    rewrite for_each_app. unfold organize_region at 1.
    unfold organize_article. rewrite for_each_map.
    unfold bind. destruct (for_each route _ st); [reflexivity|]. apply IH.
Qed.

Lemma enhanced_info_try_scored title region info :
  enhanced_info_try self session_get_summary get_article_categories
                    title region = inr info ->
  exists ext categories,
    identify_country_from_context self title ext categories region
    = inr (identified_country info, country_confidence info).
Proof.
  unfold enhanced_info_try, bind. intros H.
  destruct (session_get_summary _) as [e|resp]; [discriminate|].
  destruct (if (status_code resp =? 200)%Z then _ else _)
    as [e|[[[[b_title b_description] b_extract] b_url] b_thumb]];
    [discriminate|].
  exists b_extract, (get_article_categories title).
  destruct (identify_cases self title b_extract
              (get_article_categories title) region)
    as [[_ E]|[c [v [_ E]]]]; rewrite E in H |- *; unfold ret in H;
    injection H as <-; cbn [identified_country country_confidence].
  - reflexivity.
  - now rewrite round2_confidence_of.
Qed.

(** A record is the fallback record, or it carries what the scorer
    returned for the article's title and region. *)
Lemma enhanced_info_scored title region :
  info_of title region = _create_fallback_enhanced_info title region
  \/ exists ext categories,
      identify_country_from_context self title ext categories region
      = inr (identified_country (info_of title region),
             country_confidence (info_of title region)).
Proof.
  unfold get_enhanced_article_info.
  destruct (enhanced_info_try _ _ _ title region) as [e|info] eqn:E;
    [now left|right].
  exact (enhanced_info_try_scored _ _ _ E).
Qed.

Lemma info_country_known title region c :
  identified_country (info_of title region) = Some c ->
  In c (candidates self region) \/ In c special_targets.
Proof.
  intros Hc. destruct (enhanced_info_scored title region) as [E|[ext [cats E]]].
  - rewrite E in Hc. discriminate.
  - rewrite Hc in E. exact (result_country_known _ _ _ _ _ _ _ E).
Qed.

Lemma records_well_named regional :
  names_ok self = true -> Forall well_named (records regional).
Proof.
  intros Hok. unfold names_ok in Hok. rewrite forallb_forall in Hok.
  assert (Hs : forall c, In c special_targets ->
                         Str.truthy c && negb (String.eqb c "Unidentified") = true).
  { intros c Hc. simpl in Hc.
    repeat (destruct Hc as [<-|Hc]; [reflexivity|]). destruct Hc. }
  apply Forall_forall. intros info Hin.
  unfold enriched in Hin. apply in_flat_map in Hin.
  destruct Hin as [[region articles] [_ Hin]]. apply in_map_iff in Hin.
  destruct Hin as [title [<- _]].
  assert (G : forall c, identified_country (info_of title region) = Some c ->
                        Str.truthy c && negb (String.eqb c "Unidentified") = true).
  { intros c Hc. destruct (info_country_known _ _ _ Hc) as [H|H].
    - apply Hok. now apply (candidates_all_names _ region).
    - now apply Hs. }
  split; intros Hc; specialize (G _ Hc); discriminate.
Qed.

(** The run does not raise, and the list under every key of its result
    holds the records of the specification's bucket, in arrival order. *)
Lemma organize_buckets regional :
  names_ok self = true ->
  exists R,
    organize regional = inr R
    /\ forall k, get_default R k []
                 = filter (fun info => String.eqb (spec_bucket info) k)
                          (records regional).
Proof.
  intros Hok. pose proof (records_well_named regional Hok) as Hwn.
  rewrite Forall_forall in Hwn.
  unfold organize_by_countries. rewrite organize_loops.
  destruct (route_all (records regional) Dict.empty []) as [d [E G]].
  rewrite E. unfold bind. cbv iota beta. cbn [app] in *.
  assert (Hu : filter (fun i => negb (routed i)) (records regional)
               = filter (fun info => String.eqb (spec_bucket info) "Unidentified")
                        (records regional)).
  { apply filter_ext_in. intros i Hi. apply routed_spec. now apply Hwn. }
  assert (Hd : forall k, String.eqb k "Unidentified" = false ->
                         get_default d k []
                         = filter (fun info => String.eqb (spec_bucket info) k)
                                  (records regional)).
  { intros k Hk. rewrite G. unfold get_default at 1. cbn [get app].
    apply filter_ext_in. intros i Hi. apply routed_to_spec; [now apply Hwn|exact Hk]. }
  assert (Hd0 : get_default d "Unidentified" [] = []).
  { rewrite G. unfold get_default at 1. cbn [get app].
    apply none_routed_to_catch_all. now apply Forall_forall. }
  destruct (filter (fun i => negb (routed i)) (records regional))
    as [|i0 u0] eqn:Eu.
  - exists d. split; [reflexivity|]. intros k.
    destruct (String.eqb k "Unidentified") eqn:Hk; [|now apply Hd].
    apply String.eqb_eq in Hk. subst k. now rewrite Hd0, <- Hu.
  - exists (set d "Unidentified" (i0 :: u0)). split; [reflexivity|].
    intros k. rewrite get_default_set.
    destruct (String.eqb k "Unidentified") eqn:Hk; [|now apply Hd].
    apply String.eqb_eq in Hk. subst k. now rewrite <- Hu.
Qed.

End Organize.

(** ** The accumulated score in closed form *)

Section ClosedForm.
Import Dict DictFacts.

Lemma get_default_bump d k w c :
  get_default (bump d k w) c 0%Z
  = (get_default d c 0 + points (String.eqb c k) w)%Z.
Proof.
  unfold bump, points. rewrite get_default_set.
  destruct (String.eqb c k) eqn:E; [|lia].
  apply String.eqb_eq in E. now subst.
Qed.

Lemma get_default_cond_bump (b : bool) d k w c :
  get_default (if b then bump d k w else d) c 0%Z
  = (get_default d c 0 + points (b && String.eqb c k) w)%Z.
Proof.
  destruct b; cbn [andb]; [apply get_default_bump|].
  unfold points. lia.
Qed.

Lemma special_rules_points self full_text categories d region c :
  get_default (_apply_special_location_rules self full_text categories d region)
              c 0%Z
  = (get_default d c 0 + special_points full_text region c)%Z.
Proof.
  unfold _apply_special_location_rules, special_points.
  fold (taiwan_branch full_text). fold (china_branch full_text).
  fold (us_branch full_text). fold (canada_branch full_text).
  cbv zeta.
  assert (NA : forall d0,
    get_default
      (if String.eqb region "North America"
       then if us_branch full_text then bump d0 "United States" 25
            else if canada_branch full_text then bump d0 "Canada" 25 else d0
       else d0) c 0%Z
    = (get_default d0 c 0
       + (if String.eqb region "North America" then
            if us_branch full_text then points (String.eqb c "United States") 25
            else points (canada_branch full_text && String.eqb c "Canada") 25
          else 0))%Z).
  { intros d0. destruct (String.eqb region "North America"); [|lia].
    destruct (us_branch full_text); [apply get_default_bump|].
    apply get_default_cond_bump. }
  assert (TW : forall d0,
    get_default
      (if taiwan_branch full_text then bump d0 "Taiwan" 40
       else if china_branch full_text then bump d0 "China" 40 else d0) c 0%Z
    = (get_default d0 c 0
       + (if taiwan_branch full_text then points (String.eqb c "Taiwan") 40
          else points (china_branch full_text && String.eqb c "China") 40))%Z).
  { intros d0. destruct (taiwan_branch full_text); [apply get_default_bump|].
    apply get_default_cond_bump. }
  rewrite NA. rewrite !get_default_cond_bump. rewrite TW.
  rewrite !get_default_cond_bump. lia.
Qed.

Lemma synonyms_points self full_text cands d c :
  get_default (score_synonyms self full_text cands d) c 0%Z
  = (get_default d c 0
     + synonym_points (country_synonyms self) cands full_text c)%Z.
Proof.
  unfold score_synonyms. generalize (country_synonyms self) as syns.
  intros syns. revert d.
  induction syns as [|[syn canon] syns IH]; intros d;
    cbn [fold_left synonym_points]; [lia|].
  rewrite IH.
  destruct (Str.mem canon cands); cbn [andb]; [|unfold points; lia].
  rewrite get_default_cond_bump. lia.
Qed.

Lemma category_points_shift lc categories score :
  fold_left (category_step lc) categories score
  = (score + category_points lc categories)%Z.
Proof.
  unfold category_points. revert score.
  induction categories as [|cat cats IH]; intros score; cbn [fold_left]; [lia|].
  rewrite IH, (IH (category_step lc 0%Z cat)).
  assert (E : category_step lc score cat = (score + category_step lc 0%Z cat)%Z).
  { unfold category_step. destruct (Str.contains lc _); [|lia].
    destruct (any_in _ _); lia. }
  lia.
Qed.

(** The score of a country before the synonym and special-rule passes,
    as the sum of its four signals. *)
Lemma country_score_sum title ext categories full_text c :
  country_score title ext categories full_text c
  = (Z.of_nat (Re.count_word (Str.lower c) full_text) * 10
     + category_points (Str.lower c) categories
     + points (Str.contains (Str.lower c) (Str.lower title)) 15
     + points (Str.contains (Str.lower c) (Str.lower ext)) 5)%Z.
Proof.
  unfold country_score, points. rewrite category_points_shift.
  destruct (Str.contains _ (Str.lower title)), (Str.contains _ (Str.lower ext)); lia.
Qed.

Lemma country_score_nonneg title ext categories full_text c :
  (0 <= country_score title ext categories full_text c)%Z.
Proof.
  destruct (country_score_shape title ext categories full_text c) as [n [Hn ->]].
  lia.
Qed.

Lemma score_countries_points title ext categories full_text cands c :
  get_default (score_countries title ext categories full_text cands) c 0%Z
  = points (Str.mem c cands)
           (country_score title ext categories full_text c).
Proof.
  unfold score_countries.
  assert (G : forall l d,
    get_default
      (fold_left
         (fun country_scores country =>
            let score := country_score title ext categories full_text country in
            if (0 <? score)%Z then Dict.set country_scores country score
            else country_scores) l d) c 0%Z
    = if Str.mem c l
      then (if (0 <? country_score title ext categories full_text c)%Z
            then country_score title ext categories full_text c
            else get_default d c 0%Z)
      else get_default d c 0%Z).
  { induction l as [|c0 l IH]; intros d; cbn [fold_left]; [reflexivity|].
    rewrite IH. cbv zeta. unfold Str.mem. cbn [existsb].
    fold (Str.mem c l).
    destruct (String.eqb c c0) eqn:E.
    - apply String.eqb_eq in E. subst c0. cbn [orb].
      destruct (0 <? country_score title ext categories full_text c)%Z eqn:Hs.
      + rewrite get_default_set, String.eqb_refl. now destruct (Str.mem c l).
      + now destruct (Str.mem c l).
    - cbn [orb].
      destruct (0 <? country_score title ext categories full_text c0)%Z.
      + rewrite get_default_set, E. reflexivity.
      + reflexivity. }
  rewrite G. unfold points, get_default, Dict.empty. cbn [get].
  pose proof (country_score_nonneg title ext categories full_text c).
  destruct (Str.mem c cands); [|reflexivity].
  destruct (0 <? _)%Z eqn:Hs; [reflexivity|].
  apply Z.ltb_ge in Hs. lia.
Qed.

(** The accumulated score of a country: its own signals when it is a
    candidate of the region, its synonyms, and the special rules. *)
Lemma accumulated_score_sum self title ext categories region c :
  accumulated_score self title ext categories region c
  = (points (Str.mem c (candidates self region))
            (country_score title ext categories
                           (full_text_of title ext categories) c)
     + synonym_points (country_synonyms self) (candidates self region)
                      (full_text_of title ext categories) c
     + special_points (full_text_of title ext categories) region c)%Z.
Proof.
  unfold accumulated_score, final_scores.
  rewrite special_rules_points, synonyms_points, score_countries_points.
  reflexivity.
Qed.

End ClosedForm.

(** ** Monotonicity of the score (C4) *)

(** C4, counterexample. Appending China's official name to an extract that
    mentions mainland China keeps every signal of China and adds the synonym
    "People's Republic of China"; the appended text contains "republic of
    china", the Taiwan test now holds, and the rule for "mainland china" is
    not reached: China's score falls from 55 to 33. *)
Lemma official_name_lowers_china :
  keeps_signals init "China"
                "X" "mainland china" []
                "X" "mainland china people's republic of china" [] = true
  /\ accumulated_score init "X" "mainland china" [] "Asia" "China" = 55%Z
  /\ accumulated_score init "X" "mainland china people's republic of china" []
                       "Asia" "China" = 33%Z
  /\ ~ score_is_monotone init.
Proof.
  split; [vm_compute; reflexivity|].
  split; [vm_compute; reflexivity|].
  split; [vm_compute; reflexivity|].
  intros H.
  specialize (H "Asia" "China" "X" "mainland china" []
                "X" "mainland china people's republic of china" []).
  vm_compute in H. apply H; reflexivity.
Qed.

Section Monotone.

Lemma points_mono (b1 b2 : bool) w :
  (b1 = true -> b2 = true) -> (0 <= w)%Z -> (points b1 w <= points b2 w)%Z.
Proof.
  intros H Hw. unfold points. destruct b1, b2; try lia.
Qed.

Variables ft1 ft2 : string.
Variable terms : list string.
Hypothesis kept :
  forall term, In term terms ->
               Str.contains term ft1 = true -> Str.contains term ft2 = true.

Lemma any_in_kept l :
  incl l terms -> any_in l ft1 = true -> any_in l ft2 = true.
Proof.
  unfold any_in. intros Hl H. apply existsb_exists in H.
  destruct H as [t [Ht Hc]]. apply existsb_exists. exists t.
  split; [exact Ht|]. apply kept; [now apply Hl|exact Hc].
Qed.

Lemma contains_or_kept a b :
  In a terms -> In b terms ->
  Str.contains a ft1 || Str.contains b ft1 = true ->
  Str.contains a ft2 || Str.contains b ft2 = true.
Proof.
  intros Ha Hb H. apply orb_true_iff in H. apply orb_true_iff.
  destruct H as [H|H]; [left|right]; now apply kept.
Qed.

Lemma synonym_points_kept self cands c :
  incl (synonym_terms self c) terms ->
  (synonym_points (country_synonyms self) cands ft1 c
   <= synonym_points (country_synonyms self) cands ft2 c)%Z.
Proof.
  unfold synonym_terms. generalize (country_synonyms self) as syns.
  induction syns as [|[syn canon] syns IH]; intros Hincl;
    cbn [synonym_points]; [lia|].
  cbn [filter snd] in Hincl.
  assert (Hrest : incl (map (fun entry => Str.lower (fst entry))
                            (filter (fun entry => String.eqb c (snd entry)) syns))
                       terms).
  { destruct (String.eqb c canon); [|exact Hincl].
    intros t Ht. apply Hincl. now right. }
  specialize (IH Hrest).
  assert (Hp : (points (Str.mem canon cands
                        && Str.contains (Str.lower syn) ft1
                        && String.eqb c canon) 8
                <= points (Str.mem canon cands
                           && Str.contains (Str.lower syn) ft2
                           && String.eqb c canon) 8)%Z).
  { apply points_mono; [|lia]. intros H.
    apply andb_true_iff in H. destruct H as [H Hc].
    apply andb_true_iff in H. destruct H as [Hm Hs].
    rewrite Hm, Hc. rewrite Hc in Hincl.
    rewrite (kept (Str.lower syn)); [reflexivity| |exact Hs].
    apply Hincl. now left. }
  lia.
Qed.

End Monotone.

Ltac in_list := vm_compute; repeat (first [left; reflexivity | right]).

Ltac incl_list :=
  let t := fresh "t" in
  let Ht := fresh "Ht" in
  intros t Ht; cbn [In] in Ht;
  repeat (destruct Ht as [<-|Ht]; [in_list|]); destruct Ht.

Section MonotoneSpecial.

Variables ft1 ft2 region c : string.
Hypothesis kept :
  forall term, In term (special_terms_of c) ->
               Str.contains term ft1 = true -> Str.contains term ft2 = true.
Hypothesis exclusion : no_new_exclusion region c ft1 ft2 = true.

(** A rule with one test: the first input passing it for [c = k] makes
    the second pass it. *)
Lemma rule_kept (b1 b2 : bool) (k : string) (w : Z) :
  (0 <= w)%Z ->
  (c = k -> b1 = true -> b2 = true) ->
  (points (b1 && String.eqb c k) w <= points (b2 && String.eqb c k) w)%Z.
Proof.
  intros Hw H. apply points_mono; [|exact Hw]. intros Hb.
  apply andb_true_iff in Hb. destruct Hb as [Hb Hc]. rewrite Hc, andb_true_r.
  apply String.eqb_eq in Hc. now apply H.
Qed.

Lemma special_points_kept :
  (special_points ft1 region c <= special_points ft2 region c)%Z.
Proof.
  unfold special_points.
  apply andb_true_iff in exclusion. destruct exclusion as [ExT ExU].
  assert (S1 := rule_kept (Str.contains "hong kong" ft1)
                          (Str.contains "hong kong" ft2) "Hong Kong" 50).
  assert (S2 := rule_kept (Str.contains "macau" ft1 || Str.contains "macao" ft1)
                          (Str.contains "macau" ft2 || Str.contains "macao" ft2)
                          "Macau" 50).
  assert (S4 := rule_kept (any_in ["england"; "english"; "london"] ft1)
                          (any_in ["england"; "english"; "london"] ft2)
                          "United Kingdom" 30).
  assert (S5 := rule_kept (any_in ["scotland"; "scottish"; "edinburgh"] ft1)
                          (any_in ["scotland"; "scottish"; "edinburgh"] ft2)
                          "United Kingdom" 30).
  assert (S6 := rule_kept (any_in ["wales"; "welsh"; "cardiff"] ft1)
                          (any_in ["wales"; "welsh"; "cardiff"] ft2)
                          "United Kingdom" 30).
  assert (S7 := rule_kept (Str.contains "northern ireland" ft1)
                          (Str.contains "northern ireland" ft2)
                          "United Kingdom" 30).
  assert (S3 :
    ((if taiwan_branch ft1 then points (String.eqb c "Taiwan") 40
      else points (china_branch ft1 && String.eqb c "China") 40)
     <= (if taiwan_branch ft2 then points (String.eqb c "Taiwan") 40
         else points (china_branch ft2 && String.eqb c "China") 40))%Z).
  { destruct (String.eqb c "Taiwan") eqn:ETw.
    - apply String.eqb_eq in ETw. subst c. cbn [String.eqb Ascii.eqb Bool.eqb].
      rewrite !andb_false_r.
      assert (H : taiwan_branch ft1 = true -> taiwan_branch ft2 = true)
        by (apply (contains_or_kept ft1 ft2 _ kept); in_list).
      unfold points. destruct (taiwan_branch ft1), (taiwan_branch ft2); try lia.
    - destruct (String.eqb c "China") eqn:ECh.
      + apply String.eqb_eq in ECh. subst c. cbn [implb] in ExT.
        rewrite !andb_true_r.
        assert (H : china_branch ft1 = true -> china_branch ft2 = true)
          by (apply (contains_or_kept ft1 ft2 _ kept); in_list).
        unfold points.
        destruct (taiwan_branch ft1), (taiwan_branch ft2),
          (china_branch ft1), (china_branch ft2); cbn in *; try lia.
      + rewrite !andb_false_r. unfold points.
        destruct (taiwan_branch ft1), (taiwan_branch ft2); lia. }
  assert (S8 :
    ((if String.eqb region "North America" then
        if us_branch ft1 then points (String.eqb c "United States") 25
        else points (canada_branch ft1 && String.eqb c "Canada") 25
      else 0)
     <= (if String.eqb region "North America" then
           if us_branch ft2 then points (String.eqb c "United States") 25
           else points (canada_branch ft2 && String.eqb c "Canada") 25
         else 0))%Z).
  { destruct (String.eqb region "North America"); [|lia].
    rewrite andb_true_r in ExU.
    destruct (String.eqb c "United States") eqn:EUs.
    - apply String.eqb_eq in EUs. subst c. cbn [String.eqb Ascii.eqb Bool.eqb].
      rewrite !andb_false_r.
      assert (H : us_branch ft1 = true -> us_branch ft2 = true)
        by (apply (any_in_kept ft1 ft2 _ kept); incl_list).
      unfold points. destruct (us_branch ft1), (us_branch ft2); try lia.
    - destruct (String.eqb c "Canada") eqn:ECa.
      + apply String.eqb_eq in ECa. subst c. cbn [implb] in ExU.
        rewrite !andb_true_r.
        assert (H : canada_branch ft1 = true -> canada_branch ft2 = true)
          by (apply (any_in_kept ft1 ft2 _ kept); incl_list).
        unfold points.
        destruct (us_branch ft1), (us_branch ft2),
          (canada_branch ft1), (canada_branch ft2); cbn in *; try lia.
      + rewrite !andb_false_r. unfold points.
        destruct (us_branch ft1), (us_branch ft2); lia. }
  assert (H1 := S1 ltac:(lia)). assert (H2 := S2 ltac:(lia)).
  assert (H4 := S4 ltac:(lia)). assert (H5 := S5 ltac:(lia)).
  assert (H6 := S6 ltac:(lia)). assert (H7 := S7 ltac:(lia)).
  clear S1 S2 S4 S5 S6 S7.
  assert (G1 := H1 ltac:(intros ->; apply kept; in_list)).
  assert (G2 := H2 ltac:(intros ->; apply (contains_or_kept ft1 ft2 _ kept); in_list)).
  assert (G4 := H4 ltac:(intros ->; apply (any_in_kept ft1 ft2 _ kept); incl_list)).
  assert (G5 := H5 ltac:(intros ->; apply (any_in_kept ft1 ft2 _ kept); incl_list)).
  assert (G6 := H6 ltac:(intros ->; apply (any_in_kept ft1 ft2 _ kept); incl_list)).
  assert (G7 := H7 ltac:(intros ->; apply kept; in_list)).
  lia.
Qed.

End MonotoneSpecial.

(** Text that keeps the signals of a country and newly takes no excluding
    branch does not lower the country's accumulated score. *)
Lemma accumulated_score_kept (self : DataExtractor) (region c : string)
      (title1 ext1 : string) (categories1 : list string)
      (title2 ext2 : string) (categories2 : list string) :
  keeps_signals self c title1 ext1 categories1 title2 ext2 categories2 = true ->
  no_new_exclusion region c (full_text_of title1 ext1 categories1)
                   (full_text_of title2 ext2 categories2) = true ->
  (accumulated_score self title1 ext1 categories1 region c
   <= accumulated_score self title2 ext2 categories2 region c)%Z.
Proof.
  intros Hk Hx. unfold keeps_signals in Hk. cbv zeta in Hk.
  repeat (apply andb_true_iff in Hk; destruct Hk as [Hk ?]).
  rename H into Hterms, H0 into Hext, H1 into Htitle, H2 into Hcat.
  apply Nat.leb_le in Hk. apply Z.leb_le in Hcat.
  rewrite forallb_forall in Hterms.
  assert (kept : forall term,
             In term (synonym_terms self c ++ special_terms_of c) ->
             Str.contains term (full_text_of title1 ext1 categories1) = true ->
             Str.contains term (full_text_of title2 ext2 categories2) = true).
  { intros term Hin H1. specialize (Hterms term Hin). now rewrite H1 in Hterms. }
  rewrite !accumulated_score_sum, !country_score_sum.
  pose proof (synonym_points_kept _ _ _ kept self (candidates self region) c
                                  ltac:(intros t Ht; apply in_or_app; now left))
    as Hsyn.
  pose proof (special_points_kept
                (full_text_of title1 ext1 categories1)
                (full_text_of title2 ext2 categories2) region c
                ltac:(intros t Ht; apply kept; apply in_or_app; now right) Hx)
    as Hsp.
  assert (Ht : (points (Str.contains (Str.lower c) (Str.lower title1)) 15
                <= points (Str.contains (Str.lower c) (Str.lower title2)) 15)%Z).
  { apply points_mono; [|lia]. intros E. now rewrite E in Htitle. }
  assert (He : (points (Str.contains (Str.lower c) (Str.lower ext1)) 5
                <= points (Str.contains (Str.lower c) (Str.lower ext2)) 5)%Z).
  { apply points_mono; [|lia]. intros E. now rewrite E in Hext. }
  set (pt1 := points (Str.contains _ (Str.lower title1)) 15) in *.
  set (pt2 := points (Str.contains _ (Str.lower title2)) 15) in *.
  set (pe1 := points (Str.contains _ (Str.lower ext1)) 5) in *.
  set (pe2 := points (Str.contains _ (Str.lower ext2)) 5) in *.
  unfold points. destruct (Str.mem c (candidates self region)); lia.
Qed.

(** C4, as amended. Text that keeps every signal of a country (mentions,
    category points, title and extract containment, synonyms and
    special-rule terms) and does not newly pass the Taiwan test when the
    country is China, nor in North America the United States test when it
    is Canada, never lowers the country's accumulated score.  Appending a
    category to the category list is such an addition: under the same
    proviso it never lowers the score of any country. *)
Theorem score_monotone (self : DataExtractor) (region c : string) :
  (forall title1 ext1 categories1 title2 ext2 categories2,
      keeps_signals self c title1 ext1 categories1 title2 ext2 categories2 = true ->
      no_new_exclusion region c (full_text_of title1 ext1 categories1)
                       (full_text_of title2 ext2 categories2) = true ->
      (accumulated_score self title1 ext1 categories1 region c
       <= accumulated_score self title2 ext2 categories2 region c)%Z)
  /\ (forall title ext categories new,
         no_new_exclusion region c (full_text_of title ext categories)
                          (full_text_of title ext (categories ++ [new])) = true ->
         (accumulated_score self title ext categories region c
          <= accumulated_score self title ext (categories ++ [new]) region c)%Z).
Proof.
  split.
  - intros title1 ext1 categories1 title2 ext2 categories2.
    apply accumulated_score_kept.
  - intros title ext categories new Hx.
    apply accumulated_score_kept; [|exact Hx].
    apply appended_category_keeps_signals.
Qed.

Lemma score_monotone_witness :
  (accumulated_score init "X" "" [] "Asia" "China"
   <= accumulated_score init "X" "a temple in china" ["Temples in China"]
                        "Asia" "China")%Z
  /\ (accumulated_score init "X" "a temple" [] "Asia" "China"
      <= accumulated_score init "X" "a temple" ([] ++ ["Temples in China"])
                           "Asia" "China")%Z.
Proof.
  split.
  - apply (proj1 (score_monotone init "Asia" "China")
                 "X" "" [] "X" "a temple in china" ["Temples in China"]);
      vm_compute; reflexivity.
  - apply (proj2 (score_monotone init "Asia" "China")
                 "X" "a temple" [] "Temples in China").
    vm_compute. reflexivity.
Defined.

(** ** Threshold routing (C2) *)

(** C2. For a gazetteer that registers neither the empty name nor
    "Unidentified", a run of the aggregator does not raise, and under every
    key of its result stand, in arrival order, exactly the records whose
    bucket is that key: the winning country when the record has one and
    its confidence is above 0.1, strictly, and "Unidentified" otherwise (a
    confidence of exactly 0.1 included).  Every record is the fallback
    record or carries the country and the confidence that the scorer
    returned for the article. *)
Theorem threshold_routing (self : DataExtractor)
        (session_get_summary : string -> M response)
        (get_article_categories : string -> list string)
        (regional_articles : Dict.t (list string)) :
  names_ok self = true ->
  (exists R,
      organize_by_countries self session_get_summary get_article_categories
                            regional_articles = inr R
      /\ forall k,
          Dict.get_default R k []
          = filter (fun info => String.eqb (spec_bucket info) k)
                   (enriched self session_get_summary get_article_categories
                             regional_articles))
  /\ (forall title region,
         let info := get_enhanced_article_info self session_get_summary
                                               get_article_categories
                                               title region in
         info = _create_fallback_enhanced_info title region
         \/ exists ext categories,
             identify_country_from_context self title ext categories region
             = inr (identified_country info, country_confidence info)).
Proof.
  intros Hok. split.
  - now apply organize_buckets.
  - intros title region. apply enhanced_info_scored.
Qed.

Lemma threshold_routing_witness :
  (exists R,
      organize_by_countries init (always_answers "Iranian") no_categories
                            [("Asia", ["X"])] = inr R
      /\ forall k,
          Dict.get_default R k []
          = filter (fun info => String.eqb (spec_bucket info) k)
                   (enriched init (always_answers "Iranian") no_categories
                             [("Asia", ["X"])]))
  /\ (forall title region,
         let info := get_enhanced_article_info init (always_answers "Iranian")
                                               no_categories title region in
         info = _create_fallback_enhanced_info title region
         \/ exists ext categories,
             identify_country_from_context init title ext categories region
             = inr (identified_country info, country_confidence info)).
Proof.
  apply (threshold_routing init (always_answers "Iranian") no_categories
                           [("Asia", ["X"])]).
  vm_compute. reflexivity.
Defined.

(** The boundary: an extract that contains "iran" only inside "Iranian"
    scores 5 for Iran, a confidence of exactly 0.1, and the record goes to
    "Unidentified"; a whole-word mention scores 15, a confidence of 0.3,
    and the record goes to Iran. *)
Example confidence_at_threshold_is_unidentified :
  identify_country_from_context init "X" "Iranian" [] "Asia"
  = inr (Some "Iran", 1 # 10)
  /\ map (fun kv => (fst kv, map identified_country (snd kv)))
         (match organize_by_countries init (always_answers "Iranian")
                                      no_categories [("Asia", ["X"])] with
          | inr R => R
          | inl _ => []
          end)
     = [("Unidentified", [Some "Iran"])]
  /\ map (fun kv => (fst kv, map identified_country (snd kv)))
         (match organize_by_countries init (always_answers "Iran")
                                      no_categories [("Asia", ["X"])] with
          | inr R => R
          | inl _ => []
          end)
     = [("Iran", [Some "Iran"])].
Proof. repeat split; vm_compute; reflexivity. Qed.

(** ** The section parser (C3) *)

Section ParserFacts.

Lemma filter_articles_spec self matches :
  filter_articles self matches = filter (accepted self) (map Str.strip matches).
Proof.
  unfold filter_articles.
  assert (G : forall ms acc,
    fold_left
      (fun articles m =>
         let article := Str.strip m in
         if Str.truthy article
            && negb (existsb (fun prefix => Str.startswith (Str.lower article) prefix)
                             (skip_prefixes self))
         then if negb (Re.match_meta_namespace article)
              then (articles ++ [article])%list else articles
         else articles) ms acc
    = (acc ++ filter (accepted self) (map Str.strip ms))%list).
  { induction ms as [|m ms IH]; intros acc; cbn [fold_left map filter].
    - now rewrite app_nil_r.
    - rewrite IH. cbv zeta. unfold accepted.
      destruct (Str.truthy (Str.strip m) && _); cbn [andb]; [|reflexivity].
      destruct (negb (Re.match_meta_namespace (Str.strip m))); [|reflexivity].
      now rewrite <- app_assoc. }
  apply G.
Qed.

Lemma unique_in_order_In articles article :
  In article (unique_in_order articles) <-> In article articles.
Proof.
  unfold unique_in_order.
  assert (G : forall l seen uniq,
    (forall x, In x seen <-> In x uniq) ->
    In article
       (snd (fold_left
               (fun '(seen, unique_articles) a =>
                  if negb (Str.mem a seen)
                  then (a :: seen, (unique_articles ++ [a])%list)
                  else (seen, unique_articles)) l (seen, uniq)))
    <-> In article uniq \/ In article l).
  { induction l as [|a l IH]; intros seen uniq Hs; cbn [fold_left snd].
    - simpl. tauto.
    - destruct (Str.mem a seen) eqn:E; cbn [negb].
      + rewrite IH by exact Hs. apply mem_In in E. apply Hs in E.
        simpl. intuition (subst; auto).
      + rewrite IH.
        * rewrite in_app_iff. simpl. tauto.
        * intros x. rewrite in_app_iff. simpl. rewrite Hs. tauto. }
  rewrite G by tauto. simpl. tauto.
Qed.

Lemma unique_in_order_single a : unique_in_order [a] = [a].
Proof. reflexivity. Qed.

Lemma findall_covered s : forall skip,
  (String.length s <= skip)%nat -> Re.findall_wikilinks_from s skip = [].
Proof.
  induction s as [|c s IH]; intros skip H; [reflexivity|].
  cbn [String.length] in H. destruct skip as [|k]; [lia|].
  cbn [Re.findall_wikilinks_from]. apply IH. lia.
Qed.

(** A run of the class [f] followed by a character outside it is the
    longest prefix in the class. *)
Lemma span_app f t c rest :
  (let (_, r) := Re.span f t in negb (Str.truthy r)) = true ->
  f c = false ->
  Re.span f (t ++ String c rest) = (t, String c rest).
Proof.
  intros H Hc. induction t as [|a t IH].
  - cbn [String.append Re.span]. now rewrite Hc.
  - cbn [String.append Re.span] in *.
    destruct (f a); [|discriminate].
    destruct (Re.span f t) as [x r] eqn:E.
    now rewrite (IH H).
Qed.

Lemma length_app a b :
  String.length (a ++ b) = (String.length a + String.length b)%nat.
Proof. induction a as [|c a IH]; simpl; [reflexivity|now rewrite IH]. Qed.

(** A section that is one link to [t] has one match, [t] itself. *)
Lemma findall_single_link t :
  is_link_target t = true ->
  Re.findall_wikilinks ("[[" ++ t ++ "]]") = [t].
Proof.
  unfold is_link_target. intros H. apply andb_true_iff in H.
  destruct H as [Hne Hspan].
  unfold Re.findall_wikilinks.
  change ("[[" ++ t ++ "]]") with (String "[" (String "[" (t ++ String "]" "]"))).
  cbn [Re.findall_wikilinks_from Re.match_wikilink].
  rewrite (span_app _ t "]" "]" Hspan eq_refl).
  destruct t as [|c t]; [discriminate|].
  f_equal. apply findall_covered.
  cbn [String.length Nat.add Nat.pred]. rewrite length_app. simpl. lia.
Qed.

(** The same with a display text after a pipe. *)
Lemma findall_single_piped_link t d :
  is_link_target t = true ->
  is_display_text d = true ->
  Re.findall_wikilinks ("[[" ++ t ++ "|" ++ d ++ "]]") = [t].
Proof.
  unfold is_link_target, is_display_text. intros Ht Hd.
  apply andb_true_iff in Ht. destruct Ht as [Htne Htspan].
  apply andb_true_iff in Hd. destruct Hd as [Hdne Hdspan].
  unfold Re.findall_wikilinks.
  change ("[[" ++ t ++ "|" ++ d ++ "]]")
    with (String "[" (String "[" (t ++ String "|" (d ++ String "]" "]")))).
  cbn [Re.findall_wikilinks_from Re.match_wikilink].
  rewrite (span_app _ t "|" (d ++ String "]" "]") Htspan eq_refl).
  rewrite (span_app _ d "]" "]" Hdspan eq_refl).
  destruct t as [|c t]; [discriminate|].
  destruct d as [|c' d]; [discriminate|].
  f_equal. apply findall_covered.
  simpl. rewrite !length_app. simpl. rewrite ?length_app. simpl.
  fold Nat.add. lia.
Qed.

End ParserFacts.

(** C3, counterexample. The fragment of [[Foo#Bar]] and the query of
    [[Baz?x=1|q]] stay in the titles. *)
Lemma fragment_is_kept :
  extract_articles_from_section init "[[Foo#Bar]] [[Baz?x=1|q]]" "Asia"
  = ["Foo#Bar"; "Baz?x=1"]
  /\ has_fragment_or_query "Foo#Bar" = true
  /\ has_fragment_or_query "Baz?x=1" = true
  /\ ~ fragments_are_stripped init.
Proof.
  assert (E : extract_articles_from_section init "[[Foo#Bar]] [[Baz?x=1|q]]" "Asia"
              = ["Foo#Bar"; "Baz?x=1"]) by (vm_compute; reflexivity).
  split; [exact E|]. split; [reflexivity|]. split; [reflexivity|].
  intros H.
  assert (F : has_fragment_or_query "Foo#Bar" = false).
  { apply (H "[[Foo#Bar]] [[Baz?x=1|q]]" "Asia"). rewrite E. now left. }
  discriminate F.
Qed.

(** C3, as amended. The titles of the output are exactly the matched link
    targets (the part of a link before an optional pipe) with the
    surrounding whitespace stripped that pass the skip-prefix and
    meta-namespace tests; nothing else is removed from a target.  A section
    that is one link to a target that has no surrounding whitespace and
    passes the tests, with or without a display text after a pipe, yields
    that target unchanged, whether it contains a [#] or a [?] or not. *)
Theorem targets_are_only_trimmed (self : DataExtractor) :
  (forall section_content region_name article,
      In article (extract_articles_from_section self section_content region_name)
      <-> exists m, In m (Re.findall_wikilinks section_content)
                    /\ article = Str.strip m
                    /\ accepted self article = true)
  /\ (forall t region_name,
         is_link_target t = true ->
         Str.strip t = t ->
         accepted self t = true ->
         extract_articles_from_section self ("[[" ++ t ++ "]]") region_name = [t]
         /\ forall d,
             is_display_text d = true ->
             extract_articles_from_section self ("[[" ++ t ++ "|" ++ d ++ "]]")
                                           region_name = [t]).
Proof.
  split.
  - intros section_content region_name article.
    unfold extract_articles_from_section.
    rewrite unique_in_order_In, filter_articles_spec, filter_In, in_map_iff.
    split.
    + intros [[m [Hm Hin]] Ha]. exists m. now repeat split.
    + intros [m [Hin [-> Ha]]]. split; [now exists m|exact Ha].
  - intros t region_name Ht Hs Ha. unfold extract_articles_from_section. split.
    + rewrite (findall_single_link t Ht), filter_articles_spec.
      cbn [map filter]. now rewrite Hs, Ha.
    + intros d Hd.
      rewrite (findall_single_piped_link t d Ht Hd), filter_articles_spec.
      cbn [map filter]. now rewrite Hs, Ha.
Qed.

Lemma targets_are_only_trimmed_witness :
  extract_articles_from_section init "[[Foo#Bar]]" "Asia" = ["Foo#Bar"]
  /\ extract_articles_from_section init "[[Foo#Bar|the bar]]" "Asia" = ["Foo#Bar"].
Proof.
  destruct (proj2 (targets_are_only_trimmed init) "Foo#Bar" "Asia"
                  eq_refl eq_refl eq_refl) as [H1 H2].
  split; [exact H1|]. apply (H2 "the bar"). reflexivity.
Defined.

(** ** The region splitter (C7, C8) *)

Section SplitterFacts.
Import Dict DictFacts.

(** Every list of the mapping is what the section parser returned for
    the region's captured section, and it is not empty. *)
Lemma parse_geographic_sections_get self content region articles :
  Dict.get (parse_geographic_sections self content) region = Some articles ->
  articles <> []
  /\ exists section_content,
      Re.search_section region content = Some section_content
      /\ articles = extract_articles_from_section self section_content region.
Proof.
  unfold parse_geographic_sections.
  destruct (negb (Str.truthy content)); [discriminate|].
  assert (G : forall l d,
    (forall k v, get d k = Some v ->
                 v <> [] /\ exists s, Re.search_section k content = Some s
                                      /\ v = extract_articles_from_section self s k) ->
    forall k v,
      get (fold_left
             (fun geographic_articles region =>
                match Re.search_section region content with
                | Some section_content =>
                    let articles :=
                      extract_articles_from_section self section_content region in
                    match articles with
                    | _ :: _ => Dict.set geographic_articles region articles
                    | [] => geographic_articles
                    end
                | None => geographic_articles
                end) l d) k = Some v ->
      v <> [] /\ exists s, Re.search_section k content = Some s
                           /\ v = extract_articles_from_section self s k).
  { induction l as [|r l IH]; intros d Hd; cbn [fold_left]; [exact Hd|].
    apply IH. destruct (Re.search_section r content) as [s|] eqn:Es; [|exact Hd].
    cbv zeta.
    destruct (extract_articles_from_section self s r) as [|a0 l0] eqn:Ea;
      [exact Hd|].
    intros k v. rewrite get_set. destruct (String.eqb k r) eqn:Ek.
    - apply String.eqb_eq in Ek. subst k. intros [= <-].
      split; [discriminate|]. exists s. now rewrite Ea.
    - apply Hd. }
  apply G. intros k v. discriminate.
Qed.

End SplitterFacts.

(** C7, counterexample. In scenario A the header of Europe is found, its
    section is empty and yields no title, and the mapping has no key
    "Europe". *)
Lemma europe_is_omitted :
  Re.search_section "Europe" scenario_A = Some ""
  /\ extract_articles_from_section init "" "Europe" = []
  /\ Dict.get (parse_geographic_sections init scenario_A) "Europe" = None
  /\ ~ empty_section_is_listed init.
Proof.
  assert (E1 : Re.search_section "Europe" scenario_A = Some "")
    by (vm_compute; reflexivity).
  assert (E2 : Dict.get (parse_geographic_sections init scenario_A) "Europe" = None)
    by (vm_compute; reflexivity).
  split; [exact E1|]. split; [reflexivity|]. split; [exact E2|].
  intros H.
  assert (F : Dict.get (parse_geographic_sections init scenario_A) "Europe"
              = Some []).
  { apply (H scenario_A "Europe" ""); [|exact E1|reflexivity].
    cbn [regions init In]. auto 10. }
  rewrite E2 in F. discriminate F.
Qed.

(** C7, as amended. A region whose header is found and whose section
    yields no title is left out of the mapping: the region is no key of
    it.  Nothing is raised. *)
Theorem empty_section_is_omitted (self : DataExtractor)
        (content region section_content : string) :
  Re.search_section region content = Some section_content ->
  extract_articles_from_section self section_content region = [] ->
  Dict.get (parse_geographic_sections self content) region = None.
Proof.
  intros Hs He.
  destruct (Dict.get (parse_geographic_sections self content) region)
    as [articles|] eqn:E; [exfalso|reflexivity].
  destruct (parse_geographic_sections_get _ _ _ _ E) as [Hne [s [Hs' Ha]]].
  rewrite Hs in Hs'. injection Hs' as <-. rewrite He in Ha. contradiction.
Qed.

Lemma empty_section_is_omitted_witness :
  Dict.get (parse_geographic_sections init scenario_A) "Europe" = None.
Proof.
  apply (empty_section_is_omitted init scenario_A "Europe" "");
    vm_compute; reflexivity.
Defined.

(** C8. In scenario A the section captured for Asia is the line of links
    and the parser returns ["Fictitious Temple"] for it, the duplicate and
    the File: link gone; the section captured for Europe is empty and the
    parser returns [] for it.  With the region list [Asia, Europe] the
    mapping of the splitter is Asia with that list (and no key for Europe,
    whose list is empty). *)
Theorem scenario_A_sections :
  Re.search_section "Asia" scenario_A
  = Some (LF ++ "[[Fictitious Temple]] [[File:pic.jpg]] [[Fictitious Temple]]" ++ LF)
  /\ extract_articles_from_section
       init
       (LF ++ "[[Fictitious Temple]] [[File:pic.jpg]] [[Fictitious Temple]]" ++ LF)
       "Asia"
     = ["Fictitious Temple"]
  /\ Re.search_section "Europe" scenario_A = Some ""
  /\ extract_articles_from_section init "" "Europe" = []
  /\ parse_geographic_sections (with_regions init ["Asia"; "Europe"]) scenario_A
     = [("Asia", ["Fictitious Temple"])].
Proof. repeat split; vm_compute; reflexivity. Qed.

(* ------------------------------------------------------------------ *)
(** * Further properties of the code *)

(* ------------------------------------------------------------------ *)
(** * Further properties of the section parser *)

Section ParserOutput.

Lemma unique_in_order_fold articles : forall seen unique_articles,
  snd (fold_left
         (fun '(seen, unique_articles) article =>
            if negb (Str.mem article seen)
            then (article :: seen, (unique_articles ++ [article])%list)
            else (seen, unique_articles))
         articles (seen, unique_articles))
  = (unique_articles ++ first_occurrences seen articles)%list.
Proof.
  induction articles as [|a l IH]; intros seen uniq; cbn [fold_left first_occurrences].
  - now rewrite app_nil_r.
  - destruct (Str.mem a seen); cbn [negb]; rewrite IH; [reflexivity|].
    now rewrite <- app_assoc.
Qed.

Lemma unique_in_order_first_occurrences articles :
  unique_in_order articles = first_occurrences [] articles.
Proof. unfold unique_in_order. now rewrite unique_in_order_fold. Qed.

Lemma mem_cons x a l : Str.mem x (a :: l) = String.eqb x a || Str.mem x l.
Proof. reflexivity. Qed.

(** Only membership in [seen] matters. *)
Lemma first_occurrences_ext l : forall seen seen',
  (forall x, Str.mem x seen = Str.mem x seen') ->
  first_occurrences seen l = first_occurrences seen' l.
Proof.
  induction l as [|a l IH]; intros seen seen' H; cbn [first_occurrences];
    [reflexivity|].
  rewrite (H a). destruct (Str.mem a seen').
  - now apply IH.
  - f_equal. apply IH. intros x. rewrite !mem_cons. now rewrite H.
Qed.

(** Having seen [x] is the same as not meeting [x] again. *)
Lemma first_occurrences_seen x l : forall seen,
  first_occurrences (x :: seen) l
  = first_occurrences seen (filter (fun y => negb (String.eqb y x)) l).
Proof.
  induction l as [|a l IH]; intros seen; cbn [first_occurrences filter];
    [reflexivity|].
  rewrite mem_cons. destruct (String.eqb a x) eqn:E; cbn [negb orb].
  - apply IH.
  - cbn [first_occurrences]. destruct (Str.mem a seen); [apply IH|].
    f_equal. rewrite <- IH. apply first_occurrences_ext.
    intros y. rewrite !mem_cons. now destruct (String.eqb y a), (String.eqb y x).
Qed.

Lemma first_occurrences_not_seen l : forall seen x,
  In x (first_occurrences seen l) -> Str.mem x seen = false.
Proof.
  induction l as [|a l IH]; intros seen x H; cbn [first_occurrences] in H;
    [destruct H|].
  destruct (Str.mem a seen) eqn:E; [now apply IH|].
  destruct H as [<-|H]; [exact E|].
  apply IH in H. rewrite mem_cons in H. now apply orb_false_iff in H.
Qed.

Lemma first_occurrences_NoDup l : forall seen, NoDup (first_occurrences seen l).
Proof.
  induction l as [|a l IH]; intros seen; cbn [first_occurrences]; [constructor|].
  destruct (Str.mem a seen); [apply IH|]. constructor; [|apply IH].
  intros H. apply first_occurrences_not_seen in H.
  rewrite mem_cons, String.eqb_refl in H. discriminate.
Qed.

End ParserOutput.

(** X1. The titles that the section parser returns are pairwise distinct. *)
Theorem parser_titles_are_distinct (self : DataExtractor)
        (section_content region_name : string) :
  NoDup (extract_articles_from_section self section_content region_name).
Proof.
  unfold extract_articles_from_section.
  rewrite unique_in_order_first_occurrences. apply first_occurrences_NoDup.
Qed.

(** X2. The de-duplication loop keeps first occurrences in their order: the
    first element stays first, and the rest is the de-duplication of the
    remainder without the copies of it.  A list without repetition is
    returned as it is. *)
Theorem deduplication_keeps_first_occurrences :
  unique_in_order [] = []
  /\ (forall x l,
         unique_in_order (x :: l)
         = x :: unique_in_order (filter (fun y => negb (String.eqb y x)) l))
  /\ (forall l, NoDup l -> unique_in_order l = l).
Proof.
  split; [reflexivity|].
  assert (Hcons : forall x l,
             unique_in_order (x :: l)
             = x :: unique_in_order (filter (fun y => negb (String.eqb y x)) l)).
  { intros x l. rewrite !unique_in_order_first_occurrences.
    cbn [first_occurrences Str.mem existsb]. f_equal.
    apply first_occurrences_seen. }
  split; [exact Hcons|].
  induction l as [|x l IH]; intros Hnd; [reflexivity|].
  inversion Hnd as [|? ? Hx Hl]; subst. rewrite Hcons. f_equal.
  assert (E : filter (fun y => negb (String.eqb y x)) l = l).
  { clear IH Hnd Hl. induction l as [|a l IHl]; [reflexivity|].
    cbn [filter]. destruct (String.eqb a x) eqn:Ea.
    - apply String.eqb_eq in Ea. subst a. exfalso. apply Hx. now left.
    - cbn [negb]. f_equal. apply IHl. intros H. apply Hx. now right. }
  rewrite E. now apply IH.
Qed.

Lemma deduplication_keeps_first_occurrences_witness :
  unique_in_order ["A"; "B"] = ["A"; "B"].
Proof.
  apply (proj2 (proj2 deduplication_keeps_first_occurrences) ["A"; "B"]).
  repeat constructor; simpl; intuition discriminate.
Defined.

Section TitleShape.

Lemma lstrip_length s : (String.length (Str.lstrip s) <= String.length s)%nat.
Proof.
  induction s as [|c s IH]; cbn [Str.lstrip String.length]; [lia|].
  destruct (Str.isspace c); cbn [String.length]; lia.
Qed.

Lemma lstrip_idem s : Str.lstrip (Str.lstrip s) = Str.lstrip s.
Proof.
  induction s as [|c s IH]; [reflexivity|]. cbn [Str.lstrip].
  destruct (Str.isspace c) eqn:E; [exact IH|]. cbn [Str.lstrip]. now rewrite E.
Qed.

Lemma rstrip_cons c s :
  Str.rstrip (String c s)
  = match Str.rstrip s with
    | EmptyString => if Str.isspace c then EmptyString else String c EmptyString
    | r => String c r
    end.
Proof. reflexivity. Qed.

Lemma rstrip_idem s : Str.rstrip (Str.rstrip s) = Str.rstrip s.
Proof.
  induction s as [|c s IH]; [reflexivity|]. rewrite rstrip_cons.
  destruct (Str.rstrip s) as [|c' r] eqn:E.
  - destruct (Str.isspace c) eqn:Ec; [reflexivity|].
    rewrite rstrip_cons. cbn [Str.rstrip]. now rewrite Ec.
  - rewrite rstrip_cons, IH. reflexivity.
Qed.

(** A text that does not start with whitespace keeps its first character
    when its end is stripped. *)
Lemma lstrip_rstrip s : Str.lstrip s = s -> Str.lstrip (Str.rstrip s) = Str.rstrip s.
Proof.
  destruct s as [|c s]; [reflexivity|]. intros H.
  assert (Ec : Str.isspace c = false).
  { destruct (Str.isspace c) eqn:E; [|reflexivity].
    cbn [Str.lstrip] in H. rewrite E in H.
    pose proof (lstrip_length s) as Hl. rewrite H in Hl.
    cbn [String.length] in Hl. lia. }
  rewrite rstrip_cons. destruct (Str.rstrip s) as [|c' r].
  - rewrite Ec. cbn [Str.lstrip]. now rewrite Ec.
  - cbn [Str.lstrip]. now rewrite Ec.
Qed.

Lemma strip_idem s : Str.strip (Str.strip s) = Str.strip s.
Proof.
  unfold Str.strip.
  rewrite (lstrip_rstrip (Str.lstrip s)) by apply lstrip_idem.
  apply rstrip_idem.
Qed.

Lemma all_chars_lstrip f s : all_chars f s = true -> all_chars f (Str.lstrip s) = true.
Proof.
  induction s as [|c s IH]; [reflexivity|]. cbn [all_chars Str.lstrip].
  intros H. destruct (Str.isspace c); [|exact H].
  apply andb_true_iff in H. now apply IH.
Qed.

Lemma all_chars_rstrip f s : all_chars f s = true -> all_chars f (Str.rstrip s) = true.
Proof.
  induction s as [|c s IH]; [reflexivity|]. rewrite rstrip_cons. cbn [all_chars].
  intros H. apply andb_true_iff in H. destruct H as [Hc Hs].
  specialize (IH Hs). destruct (Str.rstrip s) as [|c' r].
  - destruct (Str.isspace c); [reflexivity|]. cbn [all_chars]. now rewrite Hc.
  - cbn [all_chars] in *. now rewrite Hc, IH.
Qed.

Lemma span_all f s : all_chars f (fst (Re.span f s)) = true.
Proof.
  induction s as [|c s IH]; [reflexivity|]. cbn [Re.span].
  destruct (f c) eqn:E; [|reflexivity].
  destruct (Re.span f s) as [a b]. cbn [fst all_chars] in *. now rewrite E, IH.
Qed.

(** The first group of a match has neither a pipe nor a closing bracket. *)
Lemma match_wikilink_target s target n :
  Re.match_wikilink s = Some (target, n) ->
  all_chars Re.not_pipe_or_close target = true.
Proof.
  unfold Re.match_wikilink.
  destruct s as [|c0 s]; [discriminate|].
  destruct (Ascii.eqb c0 "[") eqn:E0.
  2:{ destruct c0 as [[] [] [] [] [] [] [] []]; try discriminate. }
  apply Ascii.eqb_eq in E0. subst c0.
  destruct s as [|c1 s]; [discriminate|].
  destruct (Ascii.eqb c1 "[") eqn:E1.
  2:{ destruct c1 as [[] [] [] [] [] [] [] []]; try discriminate. }
  apply Ascii.eqb_eq in E1. subst c1.
  pose proof (span_all Re.not_pipe_or_close s) as Hall.
  destruct (Re.span Re.not_pipe_or_close s) as [t s2]. cbn [fst] in Hall.
  destruct t as [|ct t]; [discriminate|].
  intros H.
  assert (E : target = String ct t).
  { destruct s2 as [|d0 s2]; [discriminate|].
    destruct d0 as [[] [] [] [] [] [] [] []]; try discriminate.
    - destruct s2 as [|d1 s2]; [discriminate|].
      destruct d1 as [[] [] [] [] [] [] [] []]; try discriminate.
      now injection H as <- _.
    - destruct (Re.span Re.not_close s2) as [disp s4].
      destruct disp; [discriminate|].
      destruct s4 as [|e0 s4]; [discriminate|].
      destruct e0 as [[] [] [] [] [] [] [] []]; try discriminate.
      destruct s4 as [|e1 s4]; [discriminate|].
      destruct e1 as [[] [] [] [] [] [] [] []]; try discriminate.
      now injection H as <- _. }
  now rewrite E.
Qed.

Lemma findall_wikilinks_targets s : forall skip m,
  In m (Re.findall_wikilinks_from s skip) ->
  all_chars Re.not_pipe_or_close m = true.
Proof.
  induction s as [|c s IH]; intros skip m H; [destruct H|].
  cbn [Re.findall_wikilinks_from] in H. destruct skip as [|k]; [|now apply (IH k)].
  destruct (Re.match_wikilink (String c s)) as [[target n]|] eqn:E.
  - destruct H as [<-|H]; [exact (match_wikilink_target _ _ _ E)|now apply (IH (pred n))].
  - now apply (IH 0%nat).
Qed.

End TitleShape.

(** X3. Every title that the section parser returns is not empty, has no
    whitespace at either end, and contains neither a pipe nor a closing
    square bracket. *)
Theorem parser_titles_are_clean (self : DataExtractor)
        (section_content region_name article : string) :
  In article (extract_articles_from_section self section_content region_name) ->
  article <> ""
  /\ Str.strip article = article
  /\ all_chars Re.not_pipe_or_close article = true.
Proof.
  unfold extract_articles_from_section.
  rewrite unique_in_order_In, filter_articles_spec, filter_In, in_map_iff.
  intros [[m [<- Hm]] Ha]. split; [|split].
  - unfold accepted in Ha. destruct (Str.strip m); [discriminate|discriminate].
  - apply strip_idem.
  - unfold Str.strip. apply all_chars_rstrip, all_chars_lstrip.
    exact (findall_wikilinks_targets _ _ _ Hm).
Qed.

Lemma parser_titles_are_clean_witness :
  "Fictitious Temple" <> ""
  /\ Str.strip "Fictitious Temple" = "Fictitious Temple"
  /\ all_chars Re.not_pipe_or_close "Fictitious Temple" = true.
Proof.
  apply (parser_titles_are_clean init
           "[[ Fictitious Temple |temple]] [[File:pic.jpg]]" "Asia").
  vm_compute. now left.
Defined.

(* ------------------------------------------------------------------ *)
(** * Further properties of the region splitter *)

Section SplitterOutput.
Import Dict DictFacts.

Lemma set_fresh {V : Type} (d : Dict.t V) k v :
  ~ In k (Dict.keys d) -> Dict.set d k v = (d ++ [(k, v)])%list.
Proof.
  induction d as [|[k0 v0] d IH]; intros H; [reflexivity|].
  cbn [Dict.set Dict.keys map fst In app] in *.
  destruct (String.eqb k k0) eqn:E.
  - apply String.eqb_eq in E. subst. exfalso. apply H. now left.
  - f_equal. apply IH. intros Hin. apply H. now right.
Qed.

Lemma parse_fold self content : forall l d,
  NoDup l ->
  (forall k, In k l -> ~ In k (Dict.keys d)) ->
  fold_left
    (fun geographic_articles region =>
       match Re.search_section region content with
       | Some section_content =>
           let articles :=
             extract_articles_from_section self section_content region in
           match articles with
           | _ :: _ => Dict.set geographic_articles region articles
           | [] => geographic_articles
           end
       | None => geographic_articles
       end) l d
  = (d ++ map (fun region => (region, section_articles self content region))
              (filter (has_articles self content) l))%list.
Proof.
  induction l as [|r l IH]; intros d Hnd Hfresh; cbn [fold_left filter map].
  - now rewrite app_nil_r.
  - inversion Hnd as [|? ? Hr Hl]; subst.
    assert (Hh : has_articles self content r
                 = match section_articles self content r with
                   | [] => false
                   | _ :: _ => true
                   end) by reflexivity.
    assert (Hs : section_articles self content r
                 = match Re.search_section r content with
                   | Some s => extract_articles_from_section self s r
                   | None => []
                   end) by reflexivity.
    rewrite Hh, Hs.
    destruct (Re.search_section r content) as [s|] eqn:Es.
    2:{ apply IH; [exact Hl|]. intros k Hk. apply Hfresh. now right. }
    cbv zeta.
    destruct (extract_articles_from_section self s r) as [|a0 l0] eqn:Ea.
    { apply IH; [exact Hl|]. intros k Hk. apply Hfresh. now right. }
    rewrite set_fresh by (apply Hfresh; now left).
    rewrite IH; [|exact Hl|].
    + cbn [map]. rewrite Hs. now rewrite <- app_assoc.
    + intros k Hk. unfold Dict.keys. rewrite map_app, in_app_iff.
      cbn [map fst In]. intros [H|[H|[]]].
      * revert H. apply Hfresh. now right.
      * subst k. contradiction.
Qed.

Lemma search_section_empty region : Re.search_section region "" = None.
Proof. reflexivity. Qed.

(** The captured text is a prefix of the text that follows the header. *)
Lemma prefix_lazy_until_header s : forall p,
  String.prefix p (Re.lazy_until_header s) = true -> String.prefix p s = true.
Proof.
  induction s as [|c s IH]; intros p H.
  - exact H.
  - cbn [Re.lazy_until_header] in H.
    destruct (String.prefix "===" (String c s)).
    + apply prefix_empty in H. now subst p.
    + destruct p as [|a p]; [reflexivity|].
      cbn [String.prefix] in *. destruct (ascii_dec a c); [now apply IH|exact H].
Qed.

Lemma lazy_until_header_cons c s :
  Re.lazy_until_header (String c s)
  = if String.prefix "===" (String c s) then ""
    else String c (Re.lazy_until_header s).
Proof. reflexivity. Qed.

Lemma lazy_until_header_clean s :
  Str.contains "===" (Re.lazy_until_header s) = false.
Proof.
  induction s as [|c s IH]; [reflexivity|].
  rewrite lazy_until_header_cons.
  destruct (String.prefix "===" (String c s)) eqn:E; [reflexivity|].
  rewrite contains_cons, IH, orb_false_r.
  destruct (String.prefix "===" (String c (Re.lazy_until_header s))) eqn:E';
    [|reflexivity].
  assert (H : String.prefix "===" (String c s) = true); [|congruence].
  cbn [String.prefix] in *. destruct (ascii_dec "=" c); [|discriminate].
  now apply prefix_lazy_until_header.
Qed.

Lemma ws_star_result {A : Type} (P : A -> Prop) (k : string -> option A) s r :
  (forall s' r', k s' = Some r' -> P r') ->
  Re.ws_star k s = Some r -> P r.
Proof.
  intros Hk. induction s as [|c s IH]; cbn [Re.ws_star]; [apply Hk|].
  destruct (Str.isspace c); [|apply Hk].
  destruct (Re.ws_star k s) as [r0|]; [|apply Hk].
  intros [= <-]. now apply IH.
Qed.

Lemma match_section_clean region s sec :
  Re.match_section region s = Some sec -> Str.contains "===" sec = false.
Proof.
  unfold Re.match_section.
  destruct (Re.match_literal_ci "===" s) as [s1|]; [|discriminate].
  apply (ws_star_result (fun r => Str.contains "===" r = false)). intros s2 r2.
  destruct (Re.match_literal_ci region s2) as [s3|]; [|discriminate].
  apply (ws_star_result (fun r => Str.contains "===" r = false)). intros s4 r4.
  destruct (Re.match_literal_ci "===" s4) as [s5|]; [|discriminate].
  intros [= <-]. apply lazy_until_header_clean.
Qed.

Lemma match_literal_ci_lower p : forall p' s,
  Str.lower p = Str.lower p' ->
  Re.match_literal_ci p s = Re.match_literal_ci p' s.
Proof.
  induction p as [|a p IH]; intros p' s H; destruct p' as [|a' p'];
    try discriminate; [reflexivity|].
  cbn [Str.lower] in H. injection H as Ha Hp.
  cbn [Re.match_literal_ci]. destruct s as [|c s]; [reflexivity|].
  rewrite Ha. destruct (Ascii.eqb _ _); [now apply IH|reflexivity].
Qed.

Lemma ws_star_ext {A : Type} (k k' : string -> option A) s :
  (forall s', k s' = k' s') -> Re.ws_star k s = Re.ws_star k' s.
Proof.
  intros H. induction s as [|c s IH]; cbn [Re.ws_star]; [apply H|].
  rewrite IH, H. reflexivity.
Qed.

End SplitterOutput.

(** X4. When the list of regions has no repetition, the mapping of the
    splitter lists, in the order of that list, exactly the regions whose
    section is found and yields at least one title, each with the titles
    of its first section. *)
Theorem splitter_lists_found_regions (self : DataExtractor) (content : string) :
  NoDup (regions self) ->
  parse_geographic_sections self content
  = map (fun region => (region, section_articles self content region))
        (filter (has_articles self content) (regions self)).
Proof.
  intros Hnd. unfold parse_geographic_sections.
  destruct content as [|c content].
  - cbn [Str.truthy negb]. unfold Dict.empty.
    assert (E : filter (has_articles self "") (regions self) = []).
    { induction (regions self) as [|r l IH]; [reflexivity|].
      cbn [filter]. unfold has_articles at 1, section_articles.
      rewrite search_section_empty. apply IH. now inversion Hnd. }
    now rewrite E.
  - cbn [Str.truthy negb]. rewrite parse_fold; [reflexivity|exact Hnd|].
    intros k _ [].
Qed.

Lemma splitter_lists_found_regions_witness :
  parse_geographic_sections init scenario_A
  = map (fun region => (region, section_articles init scenario_A region))
        (filter (has_articles init scenario_A) (regions init)).
Proof.
  apply (splitter_lists_found_regions init scenario_A).
  repeat constructor; simpl; intuition discriminate.
Defined.

(** X5. The text captured for a region never contains the header marker
    [===]: a section ends at the first such marker after its header, a
    deeper header ([====]) included. *)
Theorem captured_section_has_no_header (region content section_content : string) :
  Re.search_section region content = Some section_content ->
  Str.contains "===" section_content = false.
Proof.
  induction content as [|c content IH]; cbn [Re.search_section].
  - destruct (Re.match_section region "") as [g|] eqn:E; [|discriminate].
    intros [= <-]. exact (match_section_clean _ _ _ E).
  - destruct (Re.match_section region (String c content)) as [g|] eqn:E;
      [|exact IH].
    intros [= <-]. exact (match_section_clean _ _ _ E).
Qed.

Lemma captured_section_has_no_header_witness :
  Str.contains "===" (LF ++ "text" ++ LF) = false.
Proof.
  apply (captured_section_has_no_header
           "Asia" ("=== asia ===" ++ LF ++ "text" ++ LF ++ "==== Sub ====")).
  vm_compute. reflexivity.
Defined.

(** X6. The header of a region is matched without regard to the case of
    the region's name: two names with the same lower-case form find the
    same section. *)
Theorem region_name_case_is_ignored (region region' content : string) :
  Str.lower region = Str.lower region' ->
  Re.search_section region content = Re.search_section region' content.
Proof.
  intros H.
  assert (E : forall s, Re.match_section region s = Re.match_section region' s).
  { intros s. unfold Re.match_section.
    destruct (Re.match_literal_ci "===" s) as [s1|]; [|reflexivity].
    apply ws_star_ext. intros s2.
    now rewrite (match_literal_ci_lower region region' s2 H). }
  induction content as [|c content IH]; cbn [Re.search_section]; rewrite E;
    [reflexivity|].
  now rewrite IH.
Qed.

Lemma region_name_case_is_ignored_witness :
  Re.search_section "ASIA" scenario_A = Re.search_section "Asia" scenario_A.
Proof.
  apply (region_name_case_is_ignored "ASIA" "Asia" scenario_A). reflexivity.
Defined.

(* ------------------------------------------------------------------ *)
(** * Further properties of the attribution scorer *)

Section DistinctKeys.
Import Dict DictFacts.

Lemma keys_set {V : Type} (d : Dict.t V) k v :
  Dict.keys (Dict.set d k v)
  = if Dict.mem d k then Dict.keys d else (Dict.keys d ++ [k])%list.
Proof.
  unfold Dict.mem. induction d as [|[k0 v0] d IH]; [reflexivity|].
  cbn [Dict.set Dict.get]. destruct (String.eqb k k0) eqn:E.
  - apply String.eqb_eq in E. now subst.
  - unfold Dict.keys in *. cbn [map fst]. rewrite IH.
    now destruct (Dict.get d k).
Qed.

Lemma get_none_keys {V : Type} (d : Dict.t V) k :
  Dict.get d k = None -> ~ In k (Dict.keys d).
Proof.
  induction d as [|[k0 v0] d IH]; cbn [Dict.get Dict.keys map fst In]; [tauto|].
  destruct (String.eqb k k0) eqn:E; [discriminate|].
  apply String.eqb_neq in E. intros H [H'|H']; [congruence|now apply IH].
Qed.

(** Assignment keeps the keys distinct. *)
Lemma NoDup_set {V : Type} (d : Dict.t V) k v :
  NoDup (Dict.keys d) -> NoDup (Dict.keys (Dict.set d k v)).
Proof.
  intros H. rewrite keys_set. unfold Dict.mem.
  destruct (Dict.get d k) eqn:E; [exact H|].
  apply NoDup_app; [exact H|repeat constructor; intros []|].
  intros x Hx [<-|[]]. revert Hx. now apply get_none_keys.
Qed.

Lemma in_get_NoDup {V : Type} (d : Dict.t V) k v :
  NoDup (Dict.keys d) -> In (k, v) d -> Dict.get d k = Some v.
Proof.
  induction d as [|[k0 v0] d IH]; intros Hnd Hin; [destruct Hin|].
  cbn [Dict.keys map fst] in Hnd. inversion Hnd as [|? ? Hk Hd]; subst.
  cbn [Dict.get]. destruct Hin as [[= -> ->]|Hin].
  - now rewrite String.eqb_refl.
  - destruct (String.eqb k k0) eqn:E; [|now apply IH].
    apply String.eqb_eq in E. subst k0. exfalso. apply Hk.
    change k with (fst (k, v)). now apply in_map.
Qed.

Lemma final_scores_NoDup self title ext categories region :
  NoDup (Dict.keys (final_scores self title ext categories region)).
Proof.
  unfold final_scores.
  set (ft := full_text_of title ext categories).
  set (cands := Dict.get_default (region_countries self) region []).
  assert (H1 : NoDup (Dict.keys (score_countries title ext categories ft cands))).
  { unfold score_countries.
    assert (H0 : NoDup (Dict.keys (@Dict.empty Z))) by constructor.
    revert H0. generalize (@Dict.empty Z).
    induction cands as [|c l IH]; intros d Hd; cbn [fold_left]; [exact Hd|].
    apply IH. cbv zeta. destruct (0 <? _)%Z; [now apply NoDup_set|exact Hd]. }
  assert (H2 : NoDup (Dict.keys (score_synonyms self ft cands
                                   (score_countries title ext categories ft cands)))).
  { unfold score_synonyms. revert H1.
    generalize (score_countries title ext categories ft cands).
    induction (country_synonyms self) as [|[syn canon] l IH]; intros d Hd;
      cbn [fold_left]; [exact Hd|].
    apply IH. destruct (Str.mem canon cands); [|exact Hd].
    destruct (Str.contains _ ft); [now apply NoDup_set|exact Hd]. }
  revert H2.
  generalize (score_synonyms self ft cands
                (score_countries title ext categories ft cands)).
  intros d Hd. unfold _apply_special_location_rules.
  assert (step : forall (b : bool) d0 k w,
             NoDup (Dict.keys d0) ->
             NoDup (Dict.keys (if b then bump d0 k w else d0))).
  { intros b d0 k w H. destruct b; [now apply NoDup_set|exact H]. }
  assert (step2 : forall (b b' : bool) d0 k w k' w',
             NoDup (Dict.keys d0) ->
             NoDup (Dict.keys (if b then bump d0 k w
                               else if b' then bump d0 k' w' else d0))).
  { intros b b' d0 k w k' w' H. destruct b; [now apply NoDup_set|now apply step]. }
  cbv zeta.
  destruct (String.eqb region "North America").
  - apply step2. repeat apply step. apply step2. repeat apply step. exact Hd.
  - repeat apply step. apply step2. repeat apply step. exact Hd.
Qed.

(** [max] returns the first key with the greatest value: every value before
    it is smaller, none after it is greater. *)
Lemma max_scan_first (best : string * Z) (d : Dict.t Z) :
  exists before v after,
    best :: d = (before ++ (Dict.max_scan best d, v) :: after)%list
    /\ Forall (fun kv => (snd kv < v)%Z) before
    /\ Forall (fun kv => (snd kv <= v)%Z) after.
Proof.
  revert best. induction d as [|[k v] d IH]; intros [kb vb]; cbn [Dict.max_scan fst snd].
  - exists [], vb, []. repeat split; constructor.
  - destruct (vb <? v)%Z eqn:E.
    + apply Z.ltb_lt in E.
      destruct (IH (k, v)) as [before [v' [after [Heq [Hb Ha]]]]].
      exists ((kb, vb) :: before), v', after.
      split; [cbn [app]; f_equal; exact Heq|].
      split; [|exact Ha]. constructor; [|exact Hb]. cbn [snd].
      destruct before as [|x before]; cbn [app] in Heq.
      * injection Heq as _ Hv _. lia.
      * injection Heq as Hx _. inversion Hb; subst. cbn [snd] in *. lia.
    + apply Z.ltb_ge in E.
      destruct (IH (kb, vb)) as [before [v' [after [Heq [Hb Ha]]]]].
      destruct before as [|x before]; cbn [app] in Heq.
      * injection Heq as Hk Hv Hd. subst v' after.
        exists [], vb, ((k, v) :: d). rewrite <- Hk. split; [reflexivity|].
        split; [constructor|]. constructor; [cbn [snd]; lia|exact Ha].
      * injection Heq as Hx Hd. subst x.
        exists ((kb, vb) :: (k, v) :: before), v', after.
        split; [cbn [app]; do 2 f_equal; exact Hd|]. split; [|exact Ha].
        inversion Hb; subst. cbn [snd] in *.
        constructor; [cbn [snd]; lia|]. constructor; [cbn [snd]; lia|assumption].
Qed.

Lemma confidence_of_saturated v : (50 <= v)%Z -> confidence_of v = 1%Q.
Proof.
  intros H. unfold confidence_of.
  change 1%Q with (Qred 1). apply Qred_complete.
  apply Q.min_r. unfold Qle, Qdiv, Qmult, Qinv, inject_Z. simpl. lia.
Qed.

Lemma confidence_of_mono v w :
  (v <= w)%Z -> (confidence_of v <= confidence_of w)%Q.
Proof.
  intros H. unfold confidence_of. rewrite !Qred_correct.
  apply Q.min_le_compat_r.
  unfold Qle, Qdiv, Qmult, Qinv, inject_Z. simpl. lia.
Qed.

(** What the scorer returns, with the place of the winner in the dict. *)
Lemma identify_best self title ext categories region c conf :
  identify_country_from_context self title ext categories region
  = inr (Some c, conf) ->
  exists before v after,
    final_scores self title ext categories region
    = (before ++ (c, v) :: after)%list
    /\ Forall (fun kv => (snd kv < v)%Z) before
    /\ Forall (fun kv => (snd kv <= v)%Z) after
    /\ conf = confidence_of v
    /\ accumulated_score self title ext categories region c = v.
Proof.
  unfold identify_country_from_context, accumulated_score.
  pose proof (final_scores_NoDup self title ext categories region) as Hnd.
  destruct (final_scores self title ext categories region) as [|kv d] eqn:E;
    [discriminate|].
  cbn [Dict.truthy negb]. unfold Dict.max_key, bind, ret. cbv iota beta.
  destruct (max_scan_first kv d) as [before [v [after [Heq [Hb Ha]]]]].
  assert (Hget : Dict.get (kv :: d) (Dict.max_scan kv d) = Some v).
  { apply in_get_NoDup; [exact Hnd|]. rewrite Heq. apply in_or_app. right. now left. }
  unfold Dict.index, ret. rewrite Hget. intros [= <- <-].
  exists before, v, after. repeat split; try assumption.
  unfold Dict.get_default. now rewrite Hget.
Qed.

End DistinctKeys.

Section ScorerFacts.
Import Dict DictFacts.

Lemma get_default_le_best (d : Dict.t Z) before c v after c' :
  d = (before ++ (c, v) :: after)%list ->
  Forall (fun kv => (snd kv < v)%Z) before ->
  Forall (fun kv => (snd kv <= v)%Z) after ->
  scores_ge5 d ->
  (Dict.get_default d c' 0 <= v)%Z.
Proof.
  intros Hd Hb Ha Hv. unfold Dict.get_default.
  destruct (Dict.get d c') as [v'|] eqn:E.
  - apply get_in in E. rewrite Hd in E. apply in_app_or in E.
    rewrite Forall_forall in Hb, Ha.
    destruct E as [E|[E|E]].
    + specialize (Hb _ E). cbn [snd] in Hb. lia.
    + injection E as _ <-. lia.
    + specialize (Ha _ E). exact Ha.
  - unfold scores_ge5 in Hv. rewrite Forall_forall in Hv.
    assert (Hin : In (c, v) d) by (rewrite Hd; apply in_or_app; right; now left).
    specialize (Hv _ Hin). cbn [snd] in Hv. lia.
Qed.

Lemma synonym_points_nonneg syns cands ft c :
  (0 <= synonym_points syns cands ft c)%Z.
Proof.
  induction syns as [|[syn canon] syns IH]; cbn [synonym_points]; [lia|].
  unfold points. destruct (_ && _ && _); lia.
Qed.

Lemma points_nonneg b w : (0 <= w)%Z -> (0 <= points b w)%Z.
Proof. unfold points. destruct b; lia. Qed.

Lemma special_points_nonneg ft region c : (0 <= special_points ft region c)%Z.
Proof.
  unfold special_points.
  repeat match goal with
         | |- context [points ?b ?w] =>
             let H := fresh "P" in
             assert (H : (0 <= points b w)%Z) by (apply points_nonneg; lia);
             generalize dependent (points b w); intros
         end.
  destruct (taiwan_branch ft), (String.eqb region "North America"),
    (us_branch ft); lia.
Qed.

Lemma synonym_points_ext syns cands cands' ft c :
  (forall x, Str.mem x cands = Str.mem x cands') ->
  synonym_points syns cands ft c = synonym_points syns cands' ft c.
Proof.
  intros H. induction syns as [|[syn canon] syns IH]; cbn [synonym_points];
    [reflexivity|].
  now rewrite IH, H.
Qed.

Lemma lower_char_idem c : Str.lower_char (Str.lower_char c) = Str.lower_char c.
Proof. destruct c as [[] [] [] [] [] [] [] []]; reflexivity. Qed.

Lemma lower_idem s : Str.lower (Str.lower s) = Str.lower s.
Proof.
  induction s as [|c s IH]; [reflexivity|].
  cbn [Str.lower]. now rewrite lower_char_idem, IH.
Qed.

Lemma lower_join sep l :
  Str.lower (Str.join sep l) = Str.join (Str.lower sep) (map Str.lower l).
Proof.
  unfold Str.join. induction l as [|x l IH]; [reflexivity|].
  destruct l as [|y l]; [reflexivity|].
  change (String.concat sep (x :: y :: l))
    with (x ++ sep ++ String.concat sep (y :: l)).
  change (String.concat (Str.lower sep) (map Str.lower (x :: y :: l)))
    with (Str.lower x ++ Str.lower sep
          ++ String.concat (Str.lower sep) (map Str.lower (y :: l))).
  now rewrite !lower_app, IH.
Qed.

Lemma full_text_of_lower title ext categories :
  full_text_of (Str.lower title) (Str.lower ext) (map Str.lower categories)
  = full_text_of title ext categories.
Proof.
  unfold full_text_of. rewrite !lower_app, !lower_idem.
  rewrite !lower_join, map_map.
  f_equal. f_equal. f_equal. f_equal. f_equal.
  apply map_ext. intros x. apply lower_idem.
Qed.

Lemma category_fold_lower lc categories : forall score,
  fold_left (category_step lc) (map Str.lower categories) score
  = fold_left (category_step lc) categories score.
Proof.
  induction categories as [|cat cats IH]; intros score; cbn [map fold_left];
    [reflexivity|].
  rewrite IH. f_equal. unfold category_step. now rewrite lower_idem.
Qed.

Lemma country_score_lower title ext categories ft c :
  country_score (Str.lower title) (Str.lower ext) (map Str.lower categories) ft c
  = country_score title ext categories ft c.
Proof.
  unfold country_score. now rewrite category_fold_lower, !lower_idem.
Qed.

End ScorerFacts.

(** X7. The country that the scorer returns has the greatest accumulated
    score: no country has a greater one, and the confidence is that score
    divided by 50 and capped at 1. *)
Theorem scorer_returns_a_best_country (self : DataExtractor)
        (title ext : string) (categories : list string)
        (region country : string) (confidence : Q) :
  identify_country_from_context self title ext categories region
  = inr (Some country, confidence) ->
  confidence
  = confidence_of (accumulated_score self title ext categories region country)
  /\ forall other,
      (accumulated_score self title ext categories region other
       <= accumulated_score self title ext categories region country)%Z.
Proof.
  intros H.
  destruct (identify_best _ _ _ _ _ _ _ H)
    as [before [v [after [Hd [Hb [Ha [Hc Hs]]]]]]].
  rewrite Hs. split; [exact Hc|]. intros other. unfold accumulated_score.
  apply (get_default_le_best _ before country v after); try assumption.
  apply final_scores_inv.
Qed.

Lemma scorer_returns_a_best_country_witness :
  1%Q = confidence_of
          (accumulated_score init "X" "Located in Hong Kong"
                             ["Buildings in Hong Kong"] "Asia" "Hong Kong")
  /\ forall other,
      (accumulated_score init "X" "Located in Hong Kong"
                         ["Buildings in Hong Kong"] "Asia" other
       <= accumulated_score init "X" "Located in Hong Kong"
                            ["Buildings in Hong Kong"] "Asia" "Hong Kong")%Z.
Proof.
  apply (scorer_returns_a_best_country
           init "X" "Located in Hong Kong" ["Buildings in Hong Kong"] "Asia").
  vm_compute. reflexivity.
Defined.

(** X8. Ties go to the country that entered the score dict first: in the
    dict of final scores every entry before the returned country has a
    strictly smaller score, and no entry after it has a greater one. *)
Theorem ties_go_to_the_first_entry (self : DataExtractor)
        (title ext : string) (categories : list string)
        (region country : string) (confidence : Q) :
  identify_country_from_context self title ext categories region
  = inr (Some country, confidence) ->
  exists before score after,
    final_scores self title ext categories region
    = (before ++ (country, score) :: after)%list
    /\ Forall (fun entry => (snd entry < score)%Z) before
    /\ Forall (fun entry => (snd entry <= score)%Z) after.
Proof.
  intros H.
  destruct (identify_best _ _ _ _ _ _ _ H)
    as [before [v [after [Hd [Hb [Ha _]]]]]].
  now exists before, v, after.
Qed.

Lemma ties_go_to_the_first_entry_witness :
  exists before score after,
    final_scores init "X" "china and japan" [] "Asia"
    = (before ++ ("China", score) :: after)%list
    /\ Forall (fun entry => (snd entry < score)%Z) before
    /\ Forall (fun entry => (snd entry <= score)%Z) after.
Proof.
  apply (ties_go_to_the_first_entry init "X" "china and japan" [] "Asia" "China"
                                    (3 # 10)).
  vm_compute. reflexivity.
Defined.

(** X9. An article whose title contains the name of a candidate country of
    its region, in any case, is always attributed to a country, with a
    confidence of at least 0.3. *)
Theorem title_mention_is_identified (self : DataExtractor)
        (title ext : string) (categories : list string)
        (region candidate : string) :
  In candidate (candidates self region) ->
  Str.contains (Str.lower candidate) (Str.lower title) = true ->
  exists country confidence,
    identify_country_from_context self title ext categories region
    = inr (Some country, confidence)
    /\ (3 # 10 <= confidence)%Q.
Proof.
  intros Hc Ht.
  assert (Hs : (15 <= accumulated_score self title ext categories region candidate)%Z).
  { rewrite accumulated_score_sum, country_score_sum.
    apply mem_In in Hc. rewrite Hc, Ht.
    pose proof (synonym_points_nonneg (country_synonyms self)
                  (candidates self region)
                  (full_text_of title ext categories) candidate).
    pose proof (special_points_nonneg (full_text_of title ext categories)
                  region candidate).
    destruct (categories_shape (Str.lower candidate) categories 0%Z)
      as [n [Hn En]].
    unfold category_points. rewrite En.
    unfold points. cbv iota.
    destruct (Str.contains (Str.lower candidate) (Str.lower ext)); lia. }
  destruct (identify_cases self title ext categories region)
    as [[E _]|[c [v0 [_ H]]]].
  - unfold accumulated_score in Hs. rewrite E in Hs.
    unfold Dict.get_default in Hs. cbn in Hs. lia.
  - destruct (identify_best _ _ _ _ _ _ _ H)
      as [before [v [after [Hd [Hb [Ha [Hconf _]]]]]]].
    exists c, (confidence_of v0). split; [exact H|].
    assert (Hbest : (accumulated_score self title ext categories region candidate
                     <= v)%Z).
    { unfold accumulated_score.
      apply (get_default_le_best _ before c v after); try assumption.
      apply final_scores_inv. }
    assert (E15 : (3 # 10 == confidence_of 15)%Q) by reflexivity.
    rewrite E15, Hconf. apply confidence_of_mono. lia.
Qed.

Lemma title_mention_is_identified_witness :
  exists country confidence,
    identify_country_from_context init "Great Wall of china" "" [] "Asia"
    = inr (Some country, confidence)
    /\ (3 # 10 <= confidence)%Q.
Proof.
  apply (title_mention_is_identified init "Great Wall of china" "" [] "Asia" "China").
  - vm_compute. now left.
  - vm_compute. reflexivity.
Defined.

Section ScorerFacts2.
Import Dict DictFacts.

Lemma special_points_hong_kong_macau ft region c :
  (points (Str.contains "hong kong" ft && String.eqb c "Hong Kong") 50
   + points ((Str.contains "macau" ft || Str.contains "macao" ft)
             && String.eqb c "Macau") 50
   <= special_points ft region c)%Z.
Proof.
  unfold special_points.
  set (p1 := points (Str.contains "hong kong" ft && _) 50).
  set (p2 := points ((Str.contains "macau" ft || _) && _) 50).
  repeat match goal with
         | |- context [points ?b ?w] =>
             let H := fresh "P" in
             assert (H : (0 <= points b w)%Z) by (apply points_nonneg; lia);
             generalize dependent (points b w); intros
         end.
  destruct (taiwan_branch ft), (String.eqb region "North America"),
    (us_branch ft); lia.
Qed.

Lemma score_countries_lower title ext categories ft cands :
  score_countries (Str.lower title) (Str.lower ext) (map Str.lower categories)
                  ft cands
  = score_countries title ext categories ft cands.
Proof.
  unfold score_countries. generalize (@Dict.empty Z).
  induction cands as [|c l IH]; intros d; cbn [fold_left]; [reflexivity|].
  cbv zeta. rewrite country_score_lower. apply IH.
Qed.

End ScorerFacts2.

(** X10. A text that mentions "hong kong", "macau" or "macao" is attributed
    with confidence exactly 1.0, whatever the region: the rule adds 50
    points, and 50 points saturate the confidence. *)
Theorem hong_kong_and_macau_saturate (self : DataExtractor)
        (title ext : string) (categories : list string) (region : string) :
  Str.contains "hong kong" (full_text_of title ext categories)
  || Str.contains "macau" (full_text_of title ext categories)
  || Str.contains "macao" (full_text_of title ext categories) = true ->
  exists country,
    identify_country_from_context self title ext categories region
    = inr (Some country, 1%Q).
Proof.
  intros Hterm.
  set (ft := full_text_of title ext categories) in *.
  assert (Hs : exists c,
             (50 <= accumulated_score self title ext categories region c)%Z).
  { assert (G : forall c, (50 <= special_points ft region c)%Z ->
                          (50 <= accumulated_score self title ext categories
                                                   region c)%Z).
    { intros c H. rewrite accumulated_score_sum. fold ft.
      pose proof (synonym_points_nonneg (country_synonyms self)
                    (candidates self region) ft c).
      pose proof (country_score_nonneg title ext categories ft c).
      unfold points. destruct (Str.mem c (candidates self region)); lia. }
    destruct (Str.contains "hong kong" ft) eqn:Hk.
    - exists "Hong Kong". apply G.
      pose proof (special_points_hong_kong_macau ft region "Hong Kong") as P.
      rewrite Hk in P. cbn in P. unfold points in P.
      destruct (_ || _) in P; cbn in P; lia.
    - cbn [orb] in Hterm. exists "Macau". apply G.
      pose proof (special_points_hong_kong_macau ft region "Macau") as P.
      rewrite Hk, Hterm in P. cbn in P. lia. }
  destruct Hs as [c0 Hs].
  destruct (identify_cases self title ext categories region)
    as [[E _]|[c [v0 [_ H]]]].
  - unfold accumulated_score in Hs. rewrite E in Hs.
    unfold Dict.get_default in Hs. cbn in Hs. lia.
  - destruct (identify_best _ _ _ _ _ _ _ H)
      as [before [v [after [Hd [Hb [Ha [Hconf _]]]]]]].
    exists c. rewrite H. f_equal. f_equal.
    assert (Hbest : (accumulated_score self title ext categories region c0 <= v)%Z).
    { unfold accumulated_score.
      apply (get_default_le_best _ before c v after); try assumption.
      apply final_scores_inv. }
    rewrite Hconf. apply confidence_of_saturated. lia.
Qed.

Lemma hong_kong_and_macau_saturate_witness :
  exists country,
    identify_country_from_context init "Ruins" "A church in Macao" [] "Europe"
    = inr (Some country, 1%Q).
Proof.
  apply (hong_kong_and_macau_saturate init "Ruins" "A church in Macao" [] "Europe").
  vm_compute. reflexivity.
Defined.

(** X11. When no special-rule term occurs in the analysis text, the
    country that the scorer returns is a candidate of the article's
    region. *)
Theorem no_special_term_stays_in_region (self : DataExtractor)
        (title ext : string) (categories : list string)
        (region country : string) (confidence : Q) :
  any_in special_terms (full_text_of title ext categories) = false ->
  identify_country_from_context self title ext categories region
  = inr (Some country, confidence) ->
  In country (candidates self region).
Proof.
  intros Ht H.
  destruct (identify_cases self title ext categories region)
    as [[_ H']|[c [v [Hin H']]]]; rewrite H' in H; [discriminate|].
  injection H as <- _.
  unfold final_scores in Hin. rewrite special_rules_silent in Hin by exact Ht.
  pose proof (generic_passes_stay_in_region self title ext categories region) as Hk.
  cbv zeta in Hk. unfold keys_in in Hk. rewrite Forall_forall in Hk.
  exact (Hk _ Hin).
Qed.

Lemma no_special_term_stays_in_region_witness :
  In "Japan" (candidates init "Asia").
Proof.
  apply (no_special_term_stays_in_region
           init "Shrine" "A shrine in Japan" ["Shrines in Japan"] "Asia" "Japan" 1%Q);
    vm_compute; reflexivity.
Defined.

(** X12. The scorer ignores the case of the article's text: lower-casing
    the title, the extract and the categories changes nothing in the
    result. *)
Theorem scorer_ignores_case (self : DataExtractor)
        (title ext : string) (categories : list string) (region : string) :
  identify_country_from_context self (Str.lower title) (Str.lower ext)
                                (map Str.lower categories) region
  = identify_country_from_context self title ext categories region.
Proof.
  unfold identify_country_from_context.
  assert (E : final_scores self (Str.lower title) (Str.lower ext)
                           (map Str.lower categories) region
              = final_scores self title ext categories region).
  { unfold final_scores.
    rewrite full_text_of_lower, score_countries_lower. reflexivity. }
  now rewrite E.
Qed.

(** X13. The accumulated score of a country does not depend on the order
    in which the candidate set is listed: two extractors with the same
    synonym table whose candidate lists for the region have the same
    members give every country the same score. *)
Theorem scores_ignore_candidate_order (self self' : DataExtractor)
        (title ext : string) (categories : list string)
        (region country : string) :
  country_synonyms self = country_synonyms self' ->
  (forall c, In c (candidates self region) <-> In c (candidates self' region)) ->
  accumulated_score self title ext categories region country
  = accumulated_score self' title ext categories region country.
Proof.
  intros Hsyn Hc.
  assert (Hm : forall x, Str.mem x (candidates self region)
                         = Str.mem x (candidates self' region)).
  { intros x.
    destruct (Str.mem x (candidates self region)) eqn:E1,
             (Str.mem x (candidates self' region)) eqn:E2; try reflexivity.
    - apply mem_In, Hc, mem_In in E1. congruence.
    - apply mem_In, Hc, mem_In in E2. congruence. }
  rewrite !accumulated_score_sum, Hsyn, Hm.
  now rewrite (synonym_points_ext _ _ _ _ _ Hm).
Qed.

Lemma scores_ignore_candidate_order_witness :
  accumulated_score init "X" "canada" [] "North America" "Canada"
  = accumulated_score
      {| regions := regions init;
         region_countries :=
           [("North America", ["Greenland"; "Canada"; "United States"])];
         country_synonyms := country_synonyms init;
         skip_prefixes := skip_prefixes init |}
      "X" "canada" [] "North America" "Canada".
Proof.
  apply scores_ignore_candidate_order; [reflexivity|].
  intros c. cbn. intuition.
Defined.

(* ------------------------------------------------------------------ *)
(** * Further properties of the enrichment and of the aggregator *)

Section RecordFacts.

Lemma take_length n s : (String.length (Str.take n s) <= n)%nat.
Proof.
  revert s. induction n as [|n IH]; intros s; [reflexivity|].
  destruct s as [|c s]; cbn [Str.take String.length]; [lia|].
  specialize (IH s). lia.
Qed.

Lemma replace_char_clean a b s :
  Ascii.eqb b a = false ->
  all_chars (fun c => negb (Ascii.eqb c a)) (Str.replace_char a b s) = true.
Proof.
  intros H. induction s as [|c s IH]; [reflexivity|].
  cbn [Str.replace_char all_chars]. rewrite IH, andb_true_r.
  destruct (Ascii.eqb c a) eqn:E; [now rewrite H|now rewrite E].
Qed.

Lemma truncated_length b :
  (String.length (if (300 <? String.length b)%nat
                  then Str.take 300 b ++ "..." else b) <= 303)%nat.
Proof.
  destruct (300 <? String.length b)%nat eqn:L.
  - rewrite length_app. pose proof (take_length 300 b) as H.
    change (String.length "...") with 3%nat. lia.
  - apply Nat.ltb_ge in L. lia.
Qed.

End RecordFacts.

(** X14. Whatever the collaborators answer, the record of an article keeps
    the region it was asked for, an extract of at most 303 characters, at
    most 10 categories, and an id without spaces. *)
Theorem record_fields_are_bounded (self : DataExtractor)
        (session_get_summary : string -> M response)
        (get_article_categories : string -> list string)
        (article_title region : string) :
  let info := get_enhanced_article_info self session_get_summary
                                        get_article_categories
                                        article_title region in
  source_region info = region
  /\ (String.length (extract info) <= 303)%nat
  /\ (List.length (categories info) <= 10)%nat
  /\ all_chars (fun c => negb (Ascii.eqb c " ")) (id info) = true.
Proof.
  cbv zeta. unfold get_enhanced_article_info.
  destruct (enhanced_info_try self session_get_summary get_article_categories
                              article_title region) as [e|info] eqn:E.
  - split; [reflexivity|]. split; [cbn; lia|]. split; [cbn; lia|].
    exact (replace_char_clean " " "_" (Str.lower article_title) eq_refl).
  - unfold enhanced_info_try, bind in E.
    destruct (session_get_summary _) as [e|resp]; [discriminate|].
    destruct (if (status_code resp =? 200)%Z then _ else _)
      as [e|[[[[b_title b_description] b_extract] b_url] b_thumb]];
      [discriminate|].
    destruct (identify_country_from_context self article_title b_extract
                (get_article_categories article_title) region)
      as [e|[country confidence]]; [discriminate|].
    unfold ret in E. injection E as <-.
    split; [reflexivity|]. split; [|split].
    + exact (truncated_length b_extract).
    + exact (firstn_le_length 10 (get_article_categories article_title)).
    + exact (replace_char_clean " " "_" (Str.lower article_title) eq_refl).
Qed.

Section BucketFacts.
Import Dict DictFacts.

Lemma total_records_set {A : Type} (d : Dict.t (list A)) k v :
  (total_records (Dict.set d k v) + List.length (Dict.get_default d k [])
   = total_records d + List.length v)%nat.
Proof.
  unfold total_records, Dict.get_default.
  induction d as [|[k0 v0] d IH]; cbn [Dict.set Dict.get map snd concat].
  - rewrite app_nil_r. cbn [List.length]. lia.
  - destruct (String.eqb k k0) eqn:E; cbn [map snd concat].
    + rewrite !List.length_app. lia.
    + rewrite !List.length_app. lia.
Qed.

Lemma no_empty_list_set {A : Type} (d : Dict.t (list A)) k v :
  no_empty_list d -> v <> [] -> no_empty_list (Dict.set d k v).
Proof. intros H Hv. now apply Forall_set. Qed.

Lemma set_set {V : Type} (d : Dict.t V) k v v' :
  Dict.set (Dict.set d k v) k v' = Dict.set d k v'.
Proof.
  induction d as [|[k0 v0] d IH]; cbn [Dict.set].
  - now rewrite String.eqb_refl.
  - destruct (String.eqb k k0) eqn:E; cbn [Dict.set]; rewrite E; [reflexivity|].
    now rewrite IH.
Qed.

(** A routed record goes to the end of the list of its country, which is
    created when the country is new. *)
Lemma route_routed (d : Dict.t (list article_info)) u info c :
  identified_country info = Some c ->
  Str.truthy c && above_threshold (country_confidence info) = true ->
  route (d, u) info
  = inr (Dict.set d c (Dict.get_default d c [] ++ [info])%list, u).
Proof.
  intros Hc Ht. unfold route. rewrite Hc, Ht.
  unfold bind, ret, Dict.index, Dict.mem, Dict.get_default.
  destruct (Dict.get d c) as [bucket|] eqn:Eg; cbn [negb].
  - now rewrite Eg.
  - rewrite get_set, String.eqb_refl. unfold ret. cbv beta iota.
    now rewrite set_set.
Qed.

Lemma route_not_routed (d : Dict.t (list article_info)) u info :
  routed info = false ->
  route (d, u) info = inr (d, (u ++ [info])%list).
Proof.
  unfold routed, route. destruct (identified_country info) as [c|]; [|reflexivity].
  now intros ->.
Qed.

(** What one step of the aggregator keeps: distinct keys, no empty list,
    and one record more in all. *)
Lemma route_invariants (d : Dict.t (list article_info)) u info :
  NoDup (Dict.keys d) -> no_empty_list d ->
  exists d' u',
    route (d, u) info = inr (d', u')
    /\ NoDup (Dict.keys d') /\ no_empty_list d'
    /\ (total_records d' + List.length u'
        = total_records d + List.length u + 1)%nat.
Proof.
  intros Hnd Hne. destruct (routed info) eqn:Hr.
  - unfold routed in Hr. destruct (identified_country info) as [c|] eqn:Hc;
      [|discriminate].
    exists (Dict.set d c (Dict.get_default d c [] ++ [info])%list), u.
    split; [now apply route_routed|].
    split; [now apply NoDup_set|]. split.
    + apply no_empty_list_set; [exact Hne|].
      now destruct (Dict.get_default d c []).
    + pose proof (total_records_set d c (Dict.get_default d c [] ++ [info])%list) as T.
      rewrite List.length_app in T. cbn [List.length] in T. lia.
  - exists d, (u ++ [info])%list. split; [now apply route_not_routed|].
    rewrite List.length_app. cbn [List.length].
    repeat split; try assumption. lia.
Qed.

Lemma route_all_invariants infos : forall (d : Dict.t (list article_info)) u,
  NoDup (Dict.keys d) -> no_empty_list d ->
  exists d' u',
    for_each route infos (d, u) = inr (d', u')
    /\ NoDup (Dict.keys d') /\ no_empty_list d'
    /\ (total_records d' + List.length u'
        = total_records d + List.length u + List.length infos)%nat.
Proof.
  induction infos as [|info infos IH]; intros d u Hnd Hne; cbn [for_each].
  - exists d, u. repeat split; try assumption. cbn [List.length]. lia.
  - destruct (route_invariants d u info Hnd Hne) as [d1 [u1 [E1 [N1 [E1' T1]]]]].
    unfold bind. rewrite E1.
    destruct (IH d1 u1 N1 E1') as [d2 [u2 [E2 [N2 [E2' T2]]]]].
    exists d2, u2. repeat split; try assumption. cbn [List.length]. lia.
Qed.

End BucketFacts.

Section OrganizeFacts.
Import Dict DictFacts.

Variable self : DataExtractor.
Variable session_get_summary : string -> M response.
Variable get_article_categories : string -> list string.

Lemma enriched_length regional :
  List.length (enriched self session_get_summary get_article_categories regional)
  = total_records regional.
Proof.
  unfold enriched, total_records.
  induction regional as [|[region articles] regional IH]; [reflexivity|].
  cbn [flat_map map snd concat]. rewrite !List.length_app, List.length_map.
  now rewrite IH.
Qed.

(** A run of the aggregator returns a mapping with distinct keys and no
    empty list; it holds as many records as there are articles, less those
    that an assignment to the key "Unidentified" replaced. *)
Lemma organize_invariants regional :
  exists R d' u',
    for_each route
             (enriched self session_get_summary get_article_categories regional)
             (Dict.empty, []) = inr (d', u')
    /\ organize_by_countries self session_get_summary get_article_categories
                             regional = inr R
    /\ NoDup (Dict.keys R) /\ no_empty_list R
    /\ (total_records R
        + (match u' with
           | [] => 0
           | _ :: _ => List.length (Dict.get_default d' "Unidentified" [])
           end)
        = total_records regional)%nat.
Proof.
  destruct (route_all_invariants
              (enriched self session_get_summary get_article_categories regional)
              Dict.empty [] (NoDup_nil _) (Forall_nil _))
    as [d' [u' [E [Hnd [Hne T]]]]].
  rewrite enriched_length in T. cbn [total_records Dict.empty map concat List.length] in T.
  unfold organize_by_countries. rewrite organize_loops, E. unfold bind, ret.
  cbv beta iota.
  destruct u' as [|i0 u0].
  - exists d', d', []. cbn [List.length] in T. repeat split; try assumption; lia.
  - exists (Dict.set d' "Unidentified" (i0 :: u0)), d', (i0 :: u0).
    split; [reflexivity|]. split; [reflexivity|].
    split; [now apply NoDup_set|].
    split; [apply no_empty_list_set; [exact Hne|discriminate]|].
    pose proof (total_records_set d' "Unidentified" (i0 :: u0)) as S. lia.
Qed.

End OrganizeFacts.

(** The same without the intermediate state. *)
Lemma buckets_are_well_formed_aux (self : DataExtractor)
      (session_get_summary : string -> M response)
      (get_article_categories : string -> list string)
      (regional_articles : Dict.t (list string)) :
  exists R,
    organize_by_countries self session_get_summary get_article_categories
                          regional_articles = inr R
    /\ NoDup (Dict.keys R)
    /\ no_empty_list R
    /\ (total_records R <= total_records regional_articles)%nat.
Proof.
  destruct (organize_invariants self session_get_summary get_article_categories
                                regional_articles)
    as [R [d' [u' [_ [E [Hnd [Hne T]]]]]]].
  exists R. repeat split; try assumption.
  destruct u'; lia.
Qed.

(** X15. Whenever a run of the aggregator returns, its result is a
    well-formed mapping: the keys are pairwise distinct, no list is empty
    (so an empty input gives an empty mapping, without an "Unidentified"
    key), and it holds no more records than there are articles. *)
Theorem buckets_are_well_formed (self : DataExtractor)
        (session_get_summary : string -> M response)
        (get_article_categories : string -> list string)
        (regional_articles : Dict.t (list string))
        (R : Dict.t (list article_info)) :
  organize_by_countries self session_get_summary get_article_categories
                        regional_articles = inr R ->
  NoDup (Dict.keys R)
  /\ no_empty_list R
  /\ (total_records R <= total_records regional_articles)%nat.
Proof.
  intros H.
  destruct (buckets_are_well_formed_aux self session_get_summary
              get_article_categories regional_articles) as [R0 [E G]].
  rewrite E in H. injection H as <-. exact G.
Qed.

Lemma buckets_are_well_formed_witness :
  NoDup (Dict.keys
           (match organize_by_countries
                    init (always_answers "Located in Hong Kong") no_categories
                    [("Asia", ["X"; "Y"]); ("Europe", ["Z"])] with
            | inr R => R
            | inl _ => []
            end))
  /\ no_empty_list
       (match organize_by_countries
                init (always_answers "Located in Hong Kong") no_categories
                [("Asia", ["X"; "Y"]); ("Europe", ["Z"])] with
        | inr R => R
        | inl _ => []
        end)
  /\ (total_records
        (match organize_by_countries
                 init (always_answers "Located in Hong Kong") no_categories
                 [("Asia", ["X"; "Y"]); ("Europe", ["Z"])] with
         | inr R => R
         | inl _ => []
         end)
      <= total_records [("Asia", ["X"; "Y"]); ("Europe", ["Z"])])%nat.
Proof.
  apply (buckets_are_well_formed
           init (always_answers "Located in Hong Kong") no_categories
           [("Asia", ["X"; "Y"]); ("Europe", ["Z"])]).
  vm_compute. reflexivity.
Defined.

(** X16. For a gazetteer that registers neither the empty name nor
    "Unidentified", the aggregator loses and duplicates nothing: the result
    holds exactly as many records as there are articles in the input. *)
Theorem every_article_is_bucketed_once (self : DataExtractor)
        (session_get_summary : string -> M response)
        (get_article_categories : string -> list string)
        (regional_articles : Dict.t (list string)) :
  names_ok self = true ->
  exists R,
    organize_by_countries self session_get_summary get_article_categories
                          regional_articles = inr R
    /\ total_records R = total_records regional_articles.
Proof.
  intros Hok.
  destruct (organize_invariants self session_get_summary get_article_categories
                                regional_articles)
    as [R [d' [u' [E' [E [_ [_ T]]]]]]].
  exists R. split; [exact E|].
  destruct (route_all
              (enriched self session_get_summary get_article_categories
                        regional_articles) Dict.empty [])
    as [d1 [E1 G1]].
  rewrite E' in E1. injection E1 as <- _.
  assert (H0 : Dict.get_default d' "Unidentified" [] = []).
  { rewrite G1. unfold Dict.get_default at 1. cbn [Dict.get Dict.empty app].
    apply none_routed_to_catch_all.
    now apply records_well_named. }
  rewrite H0 in T. cbn [List.length] in T. destruct u'; lia.
Qed.

Lemma every_article_is_bucketed_once_witness :
  exists R,
    organize_by_countries init (always_answers "Located in Hong Kong")
                          no_categories
                          [("Asia", ["X"; "Y"]); ("Europe", ["Z"])] = inr R
    /\ total_records R
       = total_records [("Asia", ["X"; "Y"]); ("Europe", ["Z"])].
Proof.
  apply (every_article_is_bucketed_once
           init (always_answers "Located in Hong Kong") no_categories
           [("Asia", ["X"; "Y"]); ("Europe", ["Z"])]).
  vm_compute. reflexivity.
Defined.

(* ------------------------------------------------------------------ *)
(** * The pipeline and its summary *)

Section LimitFacts.
Import Dict DictFacts.

Lemma get_app_fresh {V : Type} (pre : Dict.t V) k v post :
  ~ In k (Dict.keys pre) ->
  Dict.get (pre ++ (k, v) :: post)%list k = Some v.
Proof.
  induction pre as [|[k0 v0] pre IH]; intros H; cbn [app Dict.get].
  - now rewrite String.eqb_refl.
  - cbn [Dict.keys map fst In] in H.
    destruct (String.eqb k k0) eqn:E.
    + apply String.eqb_eq in E. subst. exfalso. apply H. now left.
    + apply IH. intros Hin. apply H. now right.
Qed.

Lemma set_app_fresh {V : Type} (pre : Dict.t V) k v v' post :
  ~ In k (Dict.keys pre) ->
  Dict.set (pre ++ (k, v) :: post)%list k v' = (pre ++ (k, v') :: post)%list.
Proof.
  induction pre as [|[k0 v0] pre IH]; intros H; cbn [app Dict.set].
  - now rewrite String.eqb_refl.
  - cbn [Dict.keys map fst In] in H.
    destruct (String.eqb k k0) eqn:E.
    + apply String.eqb_eq in E. subst. exfalso. apply H. now left.
    + f_equal. apply IH. intros Hin. apply H. now right.
Qed.

Lemma limit_loop n (post : Dict.t (list string)) : forall pre,
  NoDup (Dict.keys (pre ++ post)%list) ->
  for_each
    (fun regional_articles region =>
       articles <- Dict.index regional_articles region ;;
       ret (Dict.set regional_articles region (slice_to n articles)))
    (Dict.keys post) (pre ++ post)%list
  = inr (pre ++ map (fun kv => (fst kv, slice_to n (snd kv))) post)%list.
Proof.
  induction post as [|[k v] post IH]; intros pre Hnd; cbn [Dict.keys map fst for_each].
  - reflexivity.
  - assert (Hk : ~ In k (Dict.keys pre)).
    { unfold Dict.keys in Hnd. rewrite map_app in Hnd. cbn [map fst] in Hnd.
      apply NoDup_remove_2 in Hnd. intros H. apply Hnd. apply in_or_app. now left. }
    unfold bind at 1, Dict.index. rewrite (get_app_fresh pre k v post Hk).
    unfold bind, ret. rewrite (set_app_fresh pre k v _ post Hk).
    change (pre ++ (k, slice_to n v) :: post)%list
      with (pre ++ [(k, slice_to n v)] ++ post)%list.
    rewrite app_assoc. fold (Dict.keys post). rewrite IH.
    + now rewrite <- app_assoc.
    + rewrite <- app_assoc. cbn [app].
      unfold Dict.keys in *. rewrite map_app in *. cbn [map fst] in *. exact Hnd.
Qed.

Lemma slice_to_length {A : Type} n (l : list A) :
  (0 < n)%Z -> (List.length (slice_to n l) <= Z.to_nat n)%nat.
Proof.
  intros H. unfold slice_to. destruct (0 <=? n)%Z eqn:E; [|apply Z.leb_gt in E; lia].
  apply firstn_le_length.
Qed.

Lemma total_records_bounded {A : Type} (d : Dict.t (list A)) n :
  Forall (fun kv => (List.length (snd kv) <= n)%nat) d ->
  (total_records d <= n * List.length d)%nat.
Proof.
  unfold total_records. induction 1 as [|[k v] d Hv _ IH]; cbn [map snd concat List.length].
  - lia.
  - rewrite List.length_app. cbn [snd] in Hv. lia.
Qed.

Lemma set_length {V : Type} (d : Dict.t V) k v :
  (List.length (Dict.set d k v) <= S (List.length d))%nat.
Proof.
  induction d as [|[k0 v0] d IH]; cbn [Dict.set List.length]; [lia|].
  destruct (String.eqb k k0); cbn [List.length]; lia.
Qed.

Lemma parse_length self content :
  (List.length (parse_geographic_sections self content)
   <= List.length (regions self))%nat.
Proof.
  unfold parse_geographic_sections.
  destruct (negb (Str.truthy content)); [cbn [Dict.empty List.length]; lia|].
  match goal with
  | |- (List.length (fold_left ?f _ _) <= _)%nat => set (step := f)
  end.
  assert (G : forall l (d : Dict.t (list string)),
             (List.length (fold_left step l d)
              <= List.length d + List.length l)%nat).
  { induction l as [|r l IH]; intros d; [cbn [fold_left List.length]; lia|].
    change (fold_left step (r :: l) d) with (fold_left step l (step d r)).
    cbn [List.length].
    assert (Hs : (List.length (step d r) <= S (List.length d))%nat).
    { unfold step. destruct (Re.search_section r content) as [s|]; [|lia].
      cbv zeta. destruct (extract_articles_from_section self s r); [lia|].
      apply set_length. }
    specialize (IH (step d r)). lia. }
  specialize (G (regions self) Dict.empty). cbn [Dict.empty List.length] in G.
  exact G.
Qed.

Lemma parse_NoDup self content :
  NoDup (Dict.keys (parse_geographic_sections self content)).
Proof.
  unfold parse_geographic_sections.
  destruct (negb (Str.truthy content)); [constructor|].
  match goal with
  | |- NoDup (Dict.keys (fold_left ?f _ _)) => set (step := f)
  end.
  assert (H0 : NoDup (Dict.keys (@Dict.empty (list string)))) by constructor.
  revert H0. generalize (@Dict.empty (list string)).
  induction (regions self) as [|r l IH]; intros d Hd; [exact Hd|].
  change (fold_left step (r :: l) d) with (fold_left step l (step d r)).
  apply IH. unfold step.
  destruct (Re.search_section r content) as [s|]; [|exact Hd].
  cbv zeta. destruct (extract_articles_from_section self s r); [exact Hd|].
  now apply NoDup_set.
Qed.

Lemma limit_articles_returns (max_articles_per_region : option Z)
      (regional_articles : Dict.t (list string)) :
  NoDup (Dict.keys regional_articles) ->
  exists limited,
    limit_articles max_articles_per_region regional_articles = inr limited.
Proof.
  intros Hnd. unfold limit_articles.
  destruct max_articles_per_region as [n|]; [|eexists; reflexivity].
  destruct (n =? 0)%Z; [eexists; reflexivity|].
  eexists. exact (limit_loop n regional_articles [] Hnd).
Qed.

End LimitFacts.

(** X17. On a mapping with distinct keys the limit of [process_all_data]
    never raises.  A limit of [None] or of 0 leaves the mapping as it is;
    any other limit [n] keeps the regions and their order and cuts the list
    of each one to [l[:n]]: its first [n] titles when [n] is positive. *)
Theorem limit_cuts_every_list (max_articles_per_region : option Z)
        (regional_articles : Dict.t (list string)) :
  NoDup (Dict.keys regional_articles) ->
  limit_articles max_articles_per_region regional_articles
  = inr (match max_articles_per_region with
         | Some n =>
             if (n =? 0)%Z then regional_articles
             else map (fun kv => (fst kv, slice_to n (snd kv))) regional_articles
         | None => regional_articles
         end)
  /\ (forall n l, (0 < n)%Z -> slice_to n l = firstn (Z.to_nat n) (l : list string)).
Proof.
  intros Hnd. split.
  - unfold limit_articles. destruct max_articles_per_region as [n|]; [|reflexivity].
    destruct (n =? 0)%Z; [reflexivity|].
    exact (limit_loop n regional_articles [] Hnd).
  - intros n l Hn. unfold slice_to.
    destruct (0 <=? n)%Z eqn:E; [reflexivity|]. apply Z.leb_gt in E. lia.
Qed.

Lemma limit_cuts_every_list_witness :
  limit_articles (Some 2%Z) [("Asia", ["A"; "B"; "C"]); ("Europe", ["D"])]
  = inr [("Asia", ["A"; "B"]); ("Europe", ["D"])].
Proof.
  apply (proj1 (limit_cuts_every_list (Some 2%Z)
                  [("Asia", ["A"; "B"; "C"]); ("Europe", ["D"])]
                  ltac:(repeat constructor; simpl; intuition discriminate))).
Defined.

(** The invariants of the pipeline, with the result of the model. *)
Lemma pipeline_invariants (self : DataExtractor)
        (get_subpage_content : string -> option string)
        (session_get_summary : string -> M response)
        (get_article_categories : string -> list string)
        (max_articles_per_region : option Z) :
  exists R,
    process_all_data self get_subpage_content session_get_summary
                     get_article_categories max_articles_per_region = inr R
    /\ NoDup (Dict.keys R)
    /\ no_empty_list R
    /\ (forall n, max_articles_per_region = Some n -> (0 < n)%Z ->
                  (total_records R <= Z.to_nat n * List.length (regions self))%nat).
Proof.
  assert (Hempty : exists R : Dict.t (list article_info),
             inr Dict.empty = inr R :> M (Dict.t (list article_info))
             /\ NoDup (Dict.keys R) /\ no_empty_list R
             /\ (forall n, max_articles_per_region = Some n -> (0 < n)%Z ->
                           (total_records R
                            <= Z.to_nat n * List.length (regions self))%nat)).
  { exists Dict.empty. repeat split; try constructor.
    intros n _ _. cbn. lia. }
  unfold process_all_data.
  destruct (get_subpage_content "Places and infrastructure") as [content|];
    [|exact Hempty].
  destruct (negb (Str.truthy content)); [exact Hempty|].
  destruct (negb (Dict.truthy (parse_geographic_sections self content)));
    [exact Hempty|].
  pose proof (parse_NoDup self content) as Hnd.
  pose proof (parse_length self content) as Hlen.
  assert (L : limit_articles max_articles_per_region
                              (parse_geographic_sections self content)
              = inr (match max_articles_per_region with
                     | Some n =>
                         if (n =? 0)%Z
                         then parse_geographic_sections self content
                         else map (fun kv => (fst kv, slice_to n (snd kv)))
                                  (parse_geographic_sections self content)
                     | None => parse_geographic_sections self content
                     end)).
  { unfold limit_articles. destruct max_articles_per_region as [n|]; [|reflexivity].
    destruct (n =? 0)%Z; [reflexivity|].
    exact (limit_loop n (parse_geographic_sections self content) [] Hnd). }
  rewrite L. unfold bind.
  set (limited := match max_articles_per_region with
                  | Some n => _
                  | None => _
                  end).
  destruct (buckets_are_well_formed_aux self session_get_summary
              get_article_categories limited) as [R [E [N [Ne T]]]].
  exists R. repeat split; try assumption.
  intros n Hmax Hn. subst limited. rewrite Hmax in T.
  destruct (n =? 0)%Z eqn:E0; [apply Z.eqb_eq in E0; lia|].
  assert (B : (total_records
                 (map (fun kv => (fst kv, slice_to n (snd kv)))
                      (parse_geographic_sections self content))
               <= Z.to_nat n
                  * List.length (parse_geographic_sections self content))%nat).
  { rewrite <- (List.length_map
                  (fun kv : string * list string => (fst kv, slice_to n (snd kv)))).
    apply total_records_bounded. apply Forall_forall.
    intros kv Hin. apply in_map_iff in Hin. destruct Hin as [[k v] [<- _]].
    cbn [snd]. now apply slice_to_length. }
  nia.
Qed.

(** X18. Whenever the pipeline returns, its result has distinct keys and
    no empty list, and with a positive limit [n] it holds at most [n]
    records for each region of the extractor. *)
Theorem pipeline_result_is_bounded (self : DataExtractor)
        (get_subpage_content : string -> option string)
        (session_get_summary : string -> M response)
        (get_article_categories : string -> list string)
        (max_articles_per_region : option Z)
        (R : Dict.t (list article_info)) :
  process_all_data self get_subpage_content session_get_summary
                   get_article_categories max_articles_per_region = inr R ->
  NoDup (Dict.keys R)
  /\ no_empty_list R
  /\ (forall n, max_articles_per_region = Some n -> (0 < n)%Z ->
                (total_records R <= Z.to_nat n * List.length (regions self))%nat).
Proof.
  intros H.
  destruct (pipeline_invariants self get_subpage_content session_get_summary
              get_article_categories max_articles_per_region) as [R0 [E G]].
  rewrite E in H. injection H as <-. exact G.
Qed.

Lemma pipeline_result_is_bounded_witness :
  NoDup (Dict.keys
           (match process_all_data
                    init (fun _ => Some scenario_A)
                    (always_answers "Located in Hong Kong") no_categories
                    (Some 5%Z) with
            | inr R => R
            | inl _ => []
            end))
  /\ no_empty_list
       (match process_all_data
                init (fun _ => Some scenario_A)
                (always_answers "Located in Hong Kong") no_categories
                (Some 5%Z) with
        | inr R => R
        | inl _ => []
        end)
  /\ (forall n, Some 5%Z = Some n -> (0 < n)%Z ->
                (total_records
                   (match process_all_data
                            init (fun _ => Some scenario_A)
                            (always_answers "Located in Hong Kong") no_categories
                            (Some 5%Z) with
                    | inr R => R
                    | inl _ => []
                    end)
                 <= Z.to_nat n * List.length (regions init))%nat).
Proof.
  apply (pipeline_result_is_bounded
           init (fun _ => Some scenario_A)
           (always_answers "Located in Hong Kong") no_categories (Some 5%Z)).
  vm_compute. reflexivity.
Defined.

Section SummaryFacts.
Import Dict DictFacts.

Lemma sum_lengths_total (data : Dict.t (list article_info)) :
  list_sum (map (fun kv => List.length (snd kv)) data) = total_records data.
Proof.
  unfold total_records.
  induction data as [|[k v] data IH]; [reflexivity|].
  cbn [map snd concat]. rewrite List.length_app, <- IH. reflexivity.
Qed.

Lemma count_identified_cons k v (data : Dict.t (list article_info)) :
  count_identified ((k, v) :: data)
  = ((if negb (String.eqb k "Unidentified") then List.length v else 0)
     + count_identified data)%nat.
Proof. reflexivity. Qed.

Lemma get_default_absent (data : Dict.t (list article_info)) k :
  ~ In k (Dict.keys data) -> Dict.get_default data k [] = [].
Proof.
  intros H. unfold Dict.get_default.
  destruct (Dict.get data k) as [v|] eqn:E; [|reflexivity].
  exfalso. apply H. apply in_map_iff. exists (k, v). split; [reflexivity|].
  now apply get_in.
Qed.

Lemma counts_split (data : Dict.t (list article_info)) :
  NoDup (Dict.keys data) ->
  (total_records data
   = count_identified data
     + List.length (Dict.get_default data "Unidentified" []))%nat.
Proof.
  induction data as [|[k v] data IH]; intros Hnd; [reflexivity|].
  cbn [Dict.keys map fst] in Hnd. inversion Hnd as [|? ? Hk Hd]; subst.
  fold (Dict.keys data) in Hk, Hd. specialize (IH Hd).
  rewrite count_identified_cons.
  unfold total_records in *. cbn [map snd concat]. rewrite List.length_app.
  unfold Dict.get_default at 1. cbn [Dict.get].
  destruct (String.eqb "Unidentified" k) eqn:E.
  - apply String.eqb_eq in E. subst k.
    rewrite (get_default_absent data _ Hk) in IH. cbn [List.length] in IH.
    rewrite String.eqb_refl. cbn [negb]. lia.
  - rewrite String.eqb_sym, E. cbn [negb].
    fold (Dict.get_default data "Unidentified" []). lia.
Qed.

Lemma no_empty_average (data : Dict.t (list article_info)) :
  no_empty_list data ->
  existsb (fun '(country, articles) =>
             negb (String.eqb country "Unidentified")
             && (List.length articles =? 0)%nat)
          data = false.
Proof.
  induction 1 as [|[k v] data Hv _ IH]; [reflexivity|].
  cbn [existsb]. rewrite IH, orb_false_r.
  cbn [snd] in Hv. destruct v; [congruence|].
  cbn [List.length Nat.eqb]. apply andb_false_r.
Qed.

Lemma total_positive (data : Dict.t (list article_info)) :
  no_empty_list data -> data <> [] -> (0 < total_records data)%nat.
Proof.
  intros Hne Hd. destruct data as [|[k v] data]; [congruence|].
  inversion Hne as [|? ? Hv _]; subst. cbn [snd] in Hv.
  unfold total_records. cbn [map snd concat]. rewrite List.length_app.
  destruct v; [congruence|]. cbn [List.length]. lia.
Qed.

Lemma print_summary_printed (data : Dict.t (list article_info)) :
  NoDup (Dict.keys data) -> no_empty_list data -> data <> [] ->
  print_summary data
  = Printed {| total_articles := total_records data;
               identified_articles := count_identified data;
               unidentified_count :=
                 List.length (Dict.get_default data "Unidentified" []) |}.
Proof.
  intros Hnd Hne Hd. unfold print_summary.
  destruct (Dict.truthy data) eqn:Et; [|destruct data; [congruence|discriminate]].
  cbn [negb]. cbv zeta. rewrite sum_lengths_total.
  pose proof (total_positive data Hne Hd) as Hpos.
  destruct (total_records data =? 0)%nat eqn:E0;
    [apply Nat.eqb_eq in E0; lia|].
  now rewrite (no_empty_average data Hne).
Qed.

End SummaryFacts.

(** X19. On a mapping with distinct keys and no empty list, that is not
    empty itself, [print_summary] prints its counts: the total is positive,
    it is the number of records of the mapping, and it is the sum of the
    identified and the unidentified counts. *)
Theorem summary_counts_add_up (data : Dict.t (list article_info)) :
  NoDup (Dict.keys data) -> no_empty_list data -> data <> [] ->
  exists s,
    print_summary data = Printed s
    /\ total_articles s = total_records data
    /\ (0 < total_articles s)%nat
    /\ (total_articles s = identified_articles s + unidentified_count s)%nat.
Proof.
  intros Hnd Hne Hd. eexists. split; [now apply print_summary_printed|].
  cbn [total_articles identified_articles unidentified_count].
  split; [reflexivity|]. split; [now apply total_positive|].
  now apply counts_split.
Qed.

(** X20. A country other than "Unidentified" with an empty list makes
    [print_summary] divide by zero, whatever else the mapping holds. *)
Theorem summary_divides_by_zero_on_empty_list
        (data : Dict.t (list article_info)) (country : string) :
  In (country, []) data -> country <> "Unidentified" ->
  print_summary data = ZeroDivisionError.
Proof.
  intros Hin Hc. unfold print_summary.
  destruct (Dict.truthy data) eqn:Et; [|destruct data; [contradiction|discriminate]].
  cbn [negb]. cbv zeta.
  destruct (list_sum _ =? 0)%nat; [reflexivity|].
  replace (existsb _ data) with true; [reflexivity|].
  symmetry. apply existsb_exists. exists (country, []). split; [exact Hin|].
  apply String.eqb_neq in Hc. rewrite Hc. reflexivity.
Qed.

(** X21. The summary of what the pipeline returns never divides by zero:
    it is the early return on an empty result, or the printed counts. *)
Theorem summary_of_a_run_never_divides_by_zero (self : DataExtractor)
        (get_subpage_content : string -> option string)
        (session_get_summary : string -> M response)
        (get_article_categories : string -> list string)
        (max_articles_per_region : option Z) :
  exists data,
    process_all_data self get_subpage_content session_get_summary
                     get_article_categories max_articles_per_region = inr data
    /\ print_summary data <> ZeroDivisionError
    /\ (print_summary data = NoData <-> data = []).
Proof.
  assert (S : forall data : Dict.t (list article_info),
             NoDup (Dict.keys data) -> no_empty_list data ->
             print_summary data <> ZeroDivisionError
             /\ (print_summary data = NoData <-> data = [])).
  { intros data Hnd Hne. destruct (list_eq_dec string_dec (Dict.keys data) [])
      as [Hk|Hk].
    - destruct data; [|discriminate].
      split; [discriminate|]. split; reflexivity.
    - assert (Hd : data <> []) by (intros ->; now apply Hk).
      rewrite (print_summary_printed data Hnd Hne Hd).
      split; [discriminate|]. split; [discriminate|]. intros H. congruence. }
  assert (Hempty : exists data : Dict.t (list article_info),
             inr Dict.empty = inr data :> M (Dict.t (list article_info))
             /\ print_summary data <> ZeroDivisionError
             /\ (print_summary data = NoData <-> data = [])).
  { exists Dict.empty. split; [reflexivity|]. apply S; constructor. }
  unfold process_all_data.
  destruct (get_subpage_content "Places and infrastructure") as [content|];
    [|exact Hempty].
  destruct (negb (Str.truthy content)); [exact Hempty|].
  destruct (negb (Dict.truthy (parse_geographic_sections self content)));
    [exact Hempty|].
  destruct (limit_articles_returns max_articles_per_region
              (parse_geographic_sections self content)
              (parse_NoDup self content)) as [limited ->].
  unfold bind.
  destruct (buckets_are_well_formed_aux self session_get_summary
              get_article_categories limited) as [R [E [N [Ne T]]]].
  exists R. split; [exact E|]. now apply S.
Qed.

Lemma summary_counts_add_up_witness :
  exists s,
    print_summary
      [("Japan", [_create_fallback_enhanced_info "Cat cafe" "Asia"]);
       ("Unidentified", [_create_fallback_enhanced_info "Stone" "Europe";
                         _create_fallback_enhanced_info "Egg" "Europe"])]
    = Printed s
    /\ total_articles s = 3%nat
    /\ (0 < total_articles s)%nat
    /\ (total_articles s = identified_articles s + unidentified_count s)%nat.
Proof.
  apply (summary_counts_add_up
           [("Japan", [_create_fallback_enhanced_info "Cat cafe" "Asia"]);
            ("Unidentified", [_create_fallback_enhanced_info "Stone" "Europe";
                              _create_fallback_enhanced_info "Egg" "Europe"])]).
  - repeat constructor; simpl; intuition discriminate.
  - repeat constructor; discriminate.
  - discriminate.
Defined.

Lemma summary_divides_by_zero_on_empty_list_witness :
  print_summary
    [("Japan", [_create_fallback_enhanced_info "Cat cafe" "Asia"]);
     ("France", [])]
  = ZeroDivisionError.
Proof.
  apply (summary_divides_by_zero_on_empty_list
           [("Japan", [_create_fallback_enhanced_info "Cat cafe" "Asia"]);
            ("France", [])] "France").
  - right. left. reflexivity.
  - discriminate.
Defined.

(* ------------------------------------------------------------------ *)
(** * The backend *)

Section BackendFacts.
Import Backend.

Lemma all_chars_app f s t :
  all_chars f (s ++ t) = all_chars f s && all_chars f t.
Proof.
  induction s as [|c s IH]; [reflexivity|].
  cbn [append all_chars]. now rewrite IH, andb_assoc.
Qed.

(** Every piece of a split is made of characters of the text. *)
Lemma split_from_chars f sep s : forall skip cur,
  all_chars f cur = true -> all_chars f s = true ->
  Forall (fun piece => all_chars f piece = true) (split_from sep skip cur s).
Proof.
  induction s as [|c s IH]; intros skip cur Hcur Hs; cbn [split_from].
  - now constructor.
  - cbn [all_chars] in Hs. apply andb_true_iff in Hs. destruct Hs as [Hc Hs].
    destruct skip as [|k]; [|now apply IH].
    destruct (String.prefix sep (String c s)).
    + constructor; [exact Hcur|]. now apply IH.
    + apply IH; [|exact Hs]. rewrite all_chars_app, Hcur. cbn [all_chars].
      now rewrite Hc.
Qed.

Lemma hd_split_chars f sep s :
  all_chars f s = true -> all_chars f (hd EmptyString (split sep s)) = true.
Proof.
  intros Hs. pose proof (split_from_chars f sep s 0 EmptyString eq_refl Hs) as H.
  unfold split. destruct (split_from sep 0 EmptyString s); [reflexivity|].
  now inversion H.
Qed.

Lemma last_Forall {A : Type} (P : A -> Prop) l d :
  P d -> Forall P l -> P (last l d).
Proof.
  intros Hd. induction 1 as [|x l Hx Hl IH]; [exact Hd|].
  cbn [last]. destruct l; [exact Hx|exact IH].
Qed.

(** The first piece of a split on one character does not hold it. *)
Lemma hd_split_from_char a s : forall cur,
  all_chars (fun c => negb (Ascii.eqb c a)) cur = true ->
  all_chars (fun c => negb (Ascii.eqb c a))
            (hd EmptyString (split_from (String a EmptyString) 0 cur s)) = true.
Proof.
  induction s as [|c s IH]; intros cur Hcur; cbn [split_from hd]; [exact Hcur|].
  cbn [String.prefix]. destruct (ascii_dec a c) as [->|Hn].
  - replace (String.prefix EmptyString s) with true by (now destruct s).
    cbn [hd]. exact Hcur.
  - apply IH. rewrite all_chars_app, Hcur. cbn [all_chars].
    assert (E : Ascii.eqb c a = false) by (apply Ascii.eqb_neq; congruence).
    now rewrite E.
Qed.

Lemma replace_char_removes a b s :
  a <> b ->
  all_chars (fun c => negb (Ascii.eqb c a)) (Str.replace_char a b s) = true.
Proof.
  intros Hab. induction s as [|c s IH]; [reflexivity|].
  cbn [Str.replace_char all_chars]. rewrite IH, andb_true_r.
  destruct (Ascii.eqb c a) eqn:E; [|now rewrite E].
  apply negb_true_iff. apply Ascii.eqb_neq. congruence.
Qed.

Lemma not_contained_char a s :
  Str.contains (String a EmptyString) s = false ->
  all_chars (fun c => negb (Ascii.eqb c a)) s = true.
Proof.
  induction s as [|c s IH]; [reflexivity|].
  cbn [Str.contains all_chars String.prefix]. intros H.
  apply orb_false_iff in H. destruct H as [Hc Hs].
  rewrite (IH Hs), andb_true_r.
  destruct (ascii_dec a c) as [->|Hn]; [destruct s; discriminate|].
  apply negb_true_iff. apply Ascii.eqb_neq. congruence.
Qed.

Lemma keywords_bounds text l : forall score,
  (score
   <= fold_left
        (fun score keyword =>
           if Str.contains keyword text then (score + 1)%Z else score)
        l score
   <= score + Z.of_nat (List.length l))%Z.
Proof.
  induction l as [|k l IH]; intros score; cbn [fold_left List.length]; [lia|].
  destruct (Str.contains k text).
  - specialize (IH (score + 1)%Z). lia.
  - specialize (IH score). lia.
Qed.

End BackendFacts.

(** X22. The title that the backend reads off a URL holds no underscore,
    no "#" and no "?", and no white space at either end; a URL without
    "/wiki/" has the empty title. *)
Theorem url_title_is_clean (url : string) :
  let title := Backend.extract_wikipedia_title url in
  all_chars (fun c => negb (Ascii.eqb c "_")) title = true
  /\ all_chars (fun c => negb (Ascii.eqb c "#")) title = true
  /\ all_chars (fun c => negb (Ascii.eqb c "?")) title = true
  /\ Str.strip title = title
  /\ (Str.contains "/wiki/" url = false -> title = EmptyString).
Proof.
  cbv zeta. unfold Backend.extract_wikipedia_title.
  destruct (Str.contains "/wiki/" url); [|repeat split; reflexivity].
  cbv zeta.
  set (t1 := Str.replace_char "_" " " _).
  assert (U1 : all_chars (fun c => negb (Ascii.eqb c "_")) t1 = true)
    by (apply replace_char_removes; discriminate).
  set (t2 := if Str.contains "#" t1 then _ else t1).
  assert (U2 : all_chars (fun c => negb (Ascii.eqb c "_")) t2 = true).
  { subst t2. destruct (Str.contains "#" t1); [|exact U1].
    now apply hd_split_chars. }
  assert (H2 : all_chars (fun c => negb (Ascii.eqb c "#")) t2 = true).
  { subst t2. destruct (Str.contains "#" t1) eqn:E.
    - now apply hd_split_from_char.
    - now apply not_contained_char. }
  set (t3 := if Str.contains "?" t2 then _ else t2).
  assert (U3 : all_chars (fun c => negb (Ascii.eqb c "_")) t3 = true).
  { subst t3. destruct (Str.contains "?" t2); [|exact U2].
    now apply hd_split_chars. }
  assert (H3 : all_chars (fun c => negb (Ascii.eqb c "#")) t3 = true).
  { subst t3. destruct (Str.contains "?" t2); [|exact H2].
    now apply hd_split_chars. }
  assert (Q3 : all_chars (fun c => negb (Ascii.eqb c "?")) t3 = true).
  { subst t3. destruct (Str.contains "?" t2) eqn:E.
    - now apply hd_split_from_char.
    - now apply not_contained_char. }
  unfold Str.strip at 1 2 3.
  repeat split.
  - now apply all_chars_rstrip, all_chars_lstrip.
  - now apply all_chars_rstrip, all_chars_lstrip.
  - now apply all_chars_rstrip, all_chars_lstrip.
  - apply strip_idem.
  - discriminate.
Qed.

(** X23. The curiosity score lies between 5 and 10, whatever the article
    holds. *)
Theorem curiosity_score_bounds (a : Backend.article) :
  (5 <= Backend.calculate_curiosity_score a <= 10)%Z.
Proof.
  unfold Backend.calculate_curiosity_score. cbv zeta.
  pose proof (keywords_bounds (Backend.text_content_of a)
                              Backend.curiosity_keywords 5%Z) as [L _].
  set (s1 := fold_left _ _ _) in *.
  destruct (Qlt_le_dec _ _);
    destruct (10 <? _)%nat; try destruct (5 <? _)%nat; lia.
Qed.

(* ------------------------------------------------------------------ *)
(** * Reproducibility and independence of the articles (C9) *)

Section SetOrder.
Import Dict DictFacts.

Lemma get_map_values {V W : Type} (f : V -> W) (d : Dict.t V) k :
  Dict.get (map (fun kv => (fst kv, f (snd kv))) d) k
  = option_map f (Dict.get d k).
Proof.
  induction d as [|[k0 v0] d IH]; [reflexivity|].
  cbn [map fst snd Dict.get]. destruct (String.eqb k k0); [reflexivity|exact IH].
Qed.

Lemma candidates_init_reversed region :
  candidates init_reversed region = rev (candidates init region).
Proof.
  unfold candidates, Dict.get_default, init_reversed.
  cbn [region_countries]. rewrite get_map_values.
  destruct (Dict.get (region_countries init) region); reflexivity.
Qed.

(** Reversing the lists changes no candidate set. *)
Lemma init_reversed_same : same_gazetteer init init_reversed.
Proof.
  repeat split; try reflexivity.
  - intros H. rewrite candidates_init_reversed. now apply in_rev in H.
  - rewrite candidates_init_reversed. intros H. now apply in_rev.
Qed.

Lemma mem_same_members l l' :
  (forall c, In c l <-> In c l') -> forall x, Str.mem x l = Str.mem x l'.
Proof.
  intros Hc x.
  destruct (Str.mem x l) eqn:E1, (Str.mem x l') eqn:E2; try reflexivity.
  - apply mem_In, Hc, mem_In in E1. congruence.
  - apply mem_In, Hc, mem_In in E2. congruence.
Qed.

(** The accumulated scores depend on the members of the candidate set
    only. *)
Lemma accumulated_score_same_gazetteer self self' title ext categories region c :
  same_gazetteer self self' ->
  accumulated_score self title ext categories region c
  = accumulated_score self' title ext categories region c.
Proof.
  intros [_ [Hsyn [_ Hc]]].
  pose proof (mem_same_members _ _ (Hc region)) as Hm.
  rewrite !accumulated_score_sum, Hsyn, Hm.
  now rewrite (synonym_points_ext _ _ _ _ _ Hm).
Qed.

(** A returned country has the greatest score, which is at least 5. *)
Lemma identify_some_best self title ext categories region c conf :
  identify_country_from_context self title ext categories region
  = inr (Some c, conf) ->
  conf = confidence_of (accumulated_score self title ext categories region c)
  /\ (5 <= accumulated_score self title ext categories region c)%Z
  /\ forall other,
      (accumulated_score self title ext categories region other
       <= accumulated_score self title ext categories region c)%Z.
Proof.
  intros H.
  destruct (identify_best _ _ _ _ _ _ _ H)
    as [before [v [after [Hd [Hb [Ha [Hc Hs]]]]]]].
  destruct (final_scores_inv self title ext categories region) as [Hge _].
  rewrite Hs. split; [exact Hc|]. split.
  - unfold scores_ge5 in Hge. rewrite Forall_forall in Hge.
    apply (Hge (c, v)). rewrite Hd. apply in_or_app. right. now left.
  - intros other. unfold accumulated_score.
    now apply (get_default_le_best _ before c v after).
Qed.

(** The scorer returns no country only when no country has a score. *)
Lemma identify_none_scores self title ext categories region conf :
  identify_country_from_context self title ext categories region
  = inr (None, conf) ->
  conf = 0%Q
  /\ forall c, accumulated_score self title ext categories region c = 0%Z.
Proof.
  intros H.
  destruct (identify_cases self title ext categories region)
    as [[E H']|[c [v [_ H']]]]; rewrite H' in H; [|discriminate].
  split; [congruence|]. intros c. unfold accumulated_score. now rewrite E.
Qed.

End SetOrder.

(** C9, counterexample. The candidate sets of [init] and [init_reversed]
    have the same members, and the text "china and japan" gives China and
    Japan the same score in Asia: the scorer returns China for one order of
    the set and Japan for the other. *)
Lemma tie_follows_the_set_order :
  same_gazetteer init init_reversed
  /\ identify_country_from_context init "X" "china and japan" [] "Asia"
     = inr (Some "China", 3 # 10)
  /\ identify_country_from_context init_reversed "X" "china and japan" [] "Asia"
     = inr (Some "Japan", 3 # 10)
  /\ ~ scorer_is_reproducible.
Proof.
  assert (E1 : identify_country_from_context init "X" "china and japan" [] "Asia"
               = inr (Some "China", 3 # 10))
    by (vm_compute; reflexivity).
  assert (E2 : identify_country_from_context init_reversed "X" "china and japan"
                                             [] "Asia"
               = inr (Some "Japan", 3 # 10))
    by (vm_compute; reflexivity).
  split; [exact init_reversed_same|]. split; [exact E1|]. split; [exact E2|].
  intros H.
  specialize (H init init_reversed "X" "china and japan" [] "Asia"
                init_reversed_same).
  rewrite E1, E2 in H. discriminate.
Qed.

(** C9, as amended. For two extractors that hold the same gazetteer,
    whatever the order of their candidate sets: (1) the section parser
    returns the same list, which depends on the markup and on the skip
    prefixes only; (2) every country accumulates the same score; (3) the
    scorer returns the same confidence, a country for both or for
    neither, and the same country whenever one country has strictly the
    greatest score.  (4) In a run of the aggregator the record of an
    article is computed from its own title and region alone: it is the same
    record, in the same bucket, in any two runs that process the article,
    whatever other articles they process. *)
Theorem reproducible_up_to_ties (self self' : DataExtractor)
        (title ext : string) (categories : list string) (region : string) :
  same_gazetteer self self' ->
  (forall section_content region_name region_name',
      extract_articles_from_section self section_content region_name
      = extract_articles_from_section self' section_content region_name')
  /\ (forall country,
         accumulated_score self title ext categories region country
         = accumulated_score self' title ext categories region country)
  /\ (exists country country' confidence,
         identify_country_from_context self title ext categories region
         = inr (country, confidence)
         /\ identify_country_from_context self' title ext categories region
            = inr (country', confidence)
         /\ (country = None <-> country' = None)
         /\ (forall c,
                country = Some c ->
                (forall other,
                    other <> c ->
                    (accumulated_score self title ext categories region other
                     < accumulated_score self title ext categories region c)%Z) ->
                country' = Some c))
  /\ (forall session_get_summary get_article_categories
             regional_articles regional_articles' articles articles',
         names_ok self = true ->
         In (region, articles) regional_articles -> In title articles ->
         In (region, articles') regional_articles' -> In title articles' ->
         exists R R',
           organize_by_countries self session_get_summary get_article_categories
                                 regional_articles = inr R
           /\ organize_by_countries self session_get_summary
                                    get_article_categories
                                    regional_articles' = inr R'
           /\ let info := get_enhanced_article_info self session_get_summary
                                                    get_article_categories
                                                    title region in
              In info (Dict.get_default R (spec_bucket info) [])
              /\ In info (Dict.get_default R' (spec_bucket info) [])).
Proof.
  intros Hsame.
  assert (Hscore : forall country,
             accumulated_score self title ext categories region country
             = accumulated_score self' title ext categories region country)
    by (intros country; now apply accumulated_score_same_gazetteer).
  split; [|split; [exact Hscore|split]].
  - intros section_content region_name region_name'.
    destruct Hsame as [_ [_ [Hskip _]]].
    unfold extract_articles_from_section, filter_articles. now rewrite Hskip.
  - destruct (identify_never_raises self title ext categories region)
      as [[country conf] H].
    destruct (identify_never_raises self' title ext categories region)
      as [[country' conf'] H'].
    destruct country as [c|], country' as [c'|].
    + destruct (identify_some_best _ _ _ _ _ _ _ H) as [Hc [_ Hmax]].
      destruct (identify_some_best _ _ _ _ _ _ _ H') as [Hc' [_ Hmax']].
      pose proof (Hmax c') as L1. pose proof (Hmax' c) as L2.
      rewrite <- !Hscore in L2.
      assert (Heq : accumulated_score self title ext categories region c
                    = accumulated_score self title ext categories region c')
        by lia.
      exists (Some c), (Some c'), conf. split; [exact H|]. split.
      * rewrite H'. rewrite Hc', <- Hscore, <- Heq, <- Hc. reflexivity.
      * split; [split; discriminate|].
        intros c0 [= <-] Huniq.
        destruct (string_dec c' c) as [->|Hn]; [reflexivity|].
        specialize (Huniq c' Hn). lia.
    + exfalso.
      destruct (identify_some_best _ _ _ _ _ _ _ H) as [_ [Hge _]].
      destruct (identify_none_scores _ _ _ _ _ _ H') as [_ Hz].
      rewrite Hscore, Hz in Hge. lia.
    + exfalso.
      destruct (identify_some_best _ _ _ _ _ _ _ H') as [_ [Hge _]].
      destruct (identify_none_scores _ _ _ _ _ _ H) as [_ Hz].
      rewrite <- Hscore, Hz in Hge. lia.
    + destruct (identify_none_scores _ _ _ _ _ _ H) as [-> _].
      destruct (identify_none_scores _ _ _ _ _ _ H') as [-> _].
      exists None, None, 0%Q. split; [exact H|]. split; [exact H'|].
      split; [tauto|]. intros c0 [=].
  - intros session_get_summary get_article_categories
           regional_articles regional_articles' articles articles'
           Hok Hregion Htitle Hregion' Htitle'.
    destruct (organize_buckets self session_get_summary get_article_categories
                               regional_articles Hok) as [R [E G]].
    destruct (organize_buckets self session_get_summary get_article_categories
                               regional_articles' Hok) as [R' [E' G']].
    exists R, R'. split; [exact E|]. split; [exact E'|]. cbv zeta.
    rewrite G, G'. split.
    + apply filter_In. split; [|apply String.eqb_refl].
      unfold enriched. apply in_flat_map.
      exists (region, articles). split; [exact Hregion|].
      apply in_map_iff. exists title. split; [reflexivity|exact Htitle].
    + apply filter_In. split; [|apply String.eqb_refl].
      unfold enriched. apply in_flat_map.
      exists (region, articles'). split; [exact Hregion'|].
      apply in_map_iff. exists title. split; [reflexivity|exact Htitle'].
Qed.

Lemma reproducible_up_to_ties_witness :
  (forall section_content region_name region_name',
      extract_articles_from_section init section_content region_name
      = extract_articles_from_section init_reversed section_content region_name')
  /\ (forall country,
         accumulated_score init "Mount Fuji" "A volcano in Japan" [] "Asia" country
         = accumulated_score init_reversed "Mount Fuji" "A volcano in Japan" []
                             "Asia" country)
  /\ (exists country country' confidence,
         identify_country_from_context init "Mount Fuji" "A volcano in Japan" []
                                       "Asia"
         = inr (country, confidence)
         /\ identify_country_from_context init_reversed "Mount Fuji"
                                          "A volcano in Japan" [] "Asia"
            = inr (country', confidence)
         /\ (country = None <-> country' = None)
         /\ (forall c,
                country = Some c ->
                (forall other,
                    other <> c ->
                    (accumulated_score init "Mount Fuji" "A volcano in Japan" []
                                       "Asia" other
                     < accumulated_score init "Mount Fuji" "A volcano in Japan" []
                                         "Asia" c)%Z) ->
                country' = Some c))
  /\ (forall session_get_summary get_article_categories
             regional_articles regional_articles' articles articles',
         names_ok init = true ->
         In ("Asia", articles) regional_articles -> In "Mount Fuji" articles ->
         In ("Asia", articles') regional_articles' -> In "Mount Fuji" articles' ->
         exists R R',
           organize_by_countries init session_get_summary get_article_categories
                                 regional_articles = inr R
           /\ organize_by_countries init session_get_summary
                                    get_article_categories
                                    regional_articles' = inr R'
           /\ let info := get_enhanced_article_info init session_get_summary
                                                    get_article_categories
                                                    "Mount Fuji" "Asia" in
              In info (Dict.get_default R (spec_bucket info) [])
              /\ In info (Dict.get_default R' (spec_bucket info) [])).
Proof.
  exact (reproducible_up_to_ties init init_reversed
                                 "Mount Fuji" "A volcano in Japan" [] "Asia"
                                 init_reversed_same).
Defined.
